(** * Document intelligence pipeline: classification, extraction, retrieval

    A shallow embedding of the Python sources

      - [src/classifier.py]   (DocumentClassifier)
      - [src/extractor.py]    (DataExtractor)
      - [src/retrieval.py]    (SemanticRetrieval)
      - [src/main.py]         (upload_document, search_documents)

    together with the properties of the specification that are decided by
    that code.

    Conventions of the embedding.

    - A Python [str] is a list of characters.  Characters are the 256 code
      points below U+0100 (Rocq's [ascii]); on that range the character
      functions below ([isspace], [lower_char], ...) are Python's.
    - The confidence returned by the zero-shot classifier is an IEEE binary64
      number, as in Python: Rocq's primitive [float], compared with
      [PrimFloat.ltb].  The literals [0.3] and [0.5] denote the same doubles
      as in the source.
    - Numbers produced by [float(...)] and [round(..., 4)] are modelled by
      their exact rational value (type [Q]).
    - Exceptions are explicit: fallible code returns [exc A].
    - External services (the zero-shot classifier, the vector store's
      similarity search, PDF text extraction, the file system) are oracles
      passed as arguments; calls to them are recorded in a trace where a
      property speaks about them. *)

From Stdlib Require Import ZArith QArith Qround Qabs Lqa Ascii String List Lia Bool.
From Stdlib Require Import Floats.PrimFloat.
From stdpp Require Import gmap strings list.

Set Warnings "-inexact-float,-abstract-large-number".

(* ===================================================================== *)
(** * Python primitives                                                   *)
(* ===================================================================== *)

Module Py.

(** Python [str]. *)
Abbreviation str := (list ascii).

(** A string literal of the source. *)
Definition lit (s : string) : str := list_ascii_of_string s.

(** Code point of a character. *)
Definition code (c : ascii) : N := N_of_ascii c.

Definition in_range (lo hi : N) (c : ascii) : bool :=
  ((lo <=? code c) && (code c <=? hi))%N.

(** [ch.isspace()], also the class [\s] of [re] on [str] patterns:
    TAB..CR, FS..US, SPACE, NEL (U+0085) and NBSP (U+00A0). *)
Definition isspace (c : ascii) : bool :=
  in_range 9 13 c || in_range 28 32 c || (code c =? 133)%N || (code c =? 160)%N.

(** Decimal digits ([\d]; the only characters of category Nd below U+0100). *)
Definition isdigit (c : ascii) : bool := in_range 48 57 c.

(** [ch.isupper()]: A-Z and U+00C0..U+00DE except the multiplication sign. *)
Definition isupper (c : ascii) : bool :=
  in_range 65 90 c || (in_range 192 222 c && negb (code c =? 215)%N).

(** Characters that [str.upper] changes within the range: a-z and
    U+00E0..U+00FE except the division sign. *)
Definition islower_pair (c : ascii) : bool :=
  in_range 97 122 c || (in_range 224 254 c && negb (code c =? 247)%N).

(** [ch.isalpha()]. *)
Definition isalpha (c : ascii) : bool :=
  in_range 65 90 c || in_range 97 122 c
  || (code c =? 170)%N || (code c =? 181)%N || (code c =? 186)%N
  || in_range 192 214 c || in_range 216 246 c || in_range 248 255 c.

(** The class [\w] of [re] on [str] patterns: alphanumeric characters
    (letters, digits, and the numeric characters U+00B2, U+00B3, U+00B9,
    U+00BC..U+00BE) and the underscore. *)
Definition isword (c : ascii) : bool :=
  isalpha c || isdigit c || (code c =? 95)%N
  || (code c =? 178)%N || (code c =? 179)%N || (code c =? 185)%N
  || in_range 188 190 c.

Definition lower_char (c : ascii) : ascii :=
  if isupper c then ascii_of_N (code c + 32) else c.

(** [str.upper] on one character.  The three characters whose upper-case
    form lies outside the range (U+00B5, U+00DF, U+00FF) are left as they
    are; the extractor only upper-cases text captured by [[A-Z0-9\-]+]. *)
Definition upper_char (c : ascii) : ascii :=
  if islower_pair c then ascii_of_N (code c - 32) else c.

(** [s.lower()], [s.upper()]. *)
Definition lower (s : str) : str := map lower_char s.
Definition upper (s : str) : str := map upper_char s.

(** [s.lstrip()], [s.rstrip()], [s.strip()]. *)
Fixpoint lstrip (s : str) : str :=
  match s with
  | c :: s' => if isspace c then lstrip s' else s
  | [] => []
  end.

Definition rstrip (s : str) : str := rev (lstrip (rev s)).

Definition strip (s : str) : str := rstrip (lstrip s).

(** The longest prefix whose characters all satisfy [p]. *)
Fixpoint take_while (p : ascii -> bool) (s : str) : str :=
  match s with
  | c :: s' => if p c then c :: take_while p s' else []
  | [] => []
  end.

(** [s.startswith(p)]. *)
Fixpoint startswith (p s : str) : bool :=
  match p, s with
  | [], _ => true
  | a :: p', b :: s' => Ascii.eqb a b && startswith p' s'
  | _ :: _, [] => false
  end.

(** [s.endswith(p)]. *)
Definition endswith (p s : str) : bool := startswith (rev p) (rev s).

(** [sub in s]. *)
Fixpoint contains (sub s : str) : bool :=
  startswith sub s ||
  match s with
  | [] => false
  | _ :: s' => contains sub s'
  end.

(** Equality test on strings ([==]). *)
Definition str_eqb (a b : str) : bool := bool_decide (a = b).

(** Truth value of a string ([if s:], [not s]). *)
Definition truthy (s : str) : bool :=
  match s with [] => false | _ :: _ => true end.

(** Exceptions (subclasses of [Exception]). *)
Inductive exn :=
| ValueError
| IndexError
| KeyError
| AttributeError
| HTTPException (status_code : Z) (detail : str)
| OtherError (name : str).

(** A computation that returns or raises. *)
Inductive exc (A : Type) :=
| Ok (a : A)
| Raise (e : exn).
Arguments Ok {A} a.
Arguments Raise {A} e.

Definition bind {A B} (m : exc A) (f : A -> exc B) : exc B :=
  match m with
  | Ok a => f a
  | Raise e => Raise e
  end.

(** [round(x, ndigits)] on the exact value of a float: the nearest multiple
    of [10^-ndigits], a tie going to the even multiple.  The float Python
    returns is the double nearest to that decimal. *)
Definition round_half_even (q : Q) : Z :=
  let f := Qfloor q in
  match ((q - inject_Z f) ?= (1 # 2))%Q with
  | Lt => f
  | Gt => (f + 1)%Z
  | Eq => if Z.even f then f else (f + 1)%Z
  end.

Definition py_round (q : Q) (ndigits : nat) : Q :=
  (inject_Z (round_half_even (q * inject_Z (10 ^ Z.of_nat ndigits)))
   / inject_Z (10 ^ Z.of_nat ndigits))%Q.

#[global] Instance exc_ret : MRet exc := fun A a => Ok a.
#[global] Instance exc_bind : MBind exc := fun A B f m => bind m f.

(** Value of a string of decimal digits. *)
Definition digit_val (c : ascii) : Z := Z.of_N (code c) - 48.

Definition Z_of_digits (s : str) : Z :=
  fold_left (fun acc c => 10 * acc + digit_val c)%Z s 0%Z.

(** [int(s)] on a non-empty string of decimal digits, the only strings the
    extractor converts ([(\d+)]).  Conversion of more than 4300 digits is
    refused with [ValueError] (the interpreter's default limit). *)
Definition int_of_str (s : str) : exc Z :=
  if truthy s && forallb isdigit s then
    if (4300 <? length s)%nat then Raise ValueError else Ok (Z_of_digits s)
  else Raise ValueError.

Fixpoint span_digits (s : str) : str * str :=
  match s with
  | c :: s' =>
      if isdigit c then let (ds, rest) := span_digits s' in (c :: ds, rest)
      else ([], s)
  | [] => ([], [])
  end.

(** [float(s)] on strings made of decimal digits with at most one point,
    the only strings the extractor converts ([[\d,]+\.?\d*] without its
    commas, [\d+\.?\d*]): the exact decimal value, and [ValueError] when
    there is no digit at all.  The binary64 number Python returns is the
    double nearest to this value. *)
Definition float_of_str (s : str) : exc Q :=
  let (ip, rest) := span_digits s in
  match rest with
  | [] => if truthy ip then Ok (inject_Z (Z_of_digits ip)) else Raise ValueError
  | c :: fp =>
      if Ascii.eqb c "." && forallb isdigit fp && (truthy ip || truthy fp) then
        Ok (Qred (Qmake (Z_of_digits (ip ++ fp)) (Z.to_pos (10 ^ Z.of_nat (length fp)))))
      else Raise ValueError
  end.

(** Truth value of a non-negative float given by its exact value: the
    nearest double is [0.0] exactly for values up to [2^-1075]. *)
Definition float_truthy (q : Q) : bool :=
  negb (Qle_bool q (Qmake 1 (2 ^ 1075))).

(** Truth value of an [int]. *)
Definition int_truthy (z : Z) : bool := negb (z =? 0)%Z.

(** [s.split(sep)] for a one-character separator. *)
Fixpoint split_on (sep : ascii) (s : str) : list str :=
  match s with
  | [] => [[]]
  | c :: s' =>
      if Ascii.eqb c sep then [] :: split_on sep s'
      else match split_on sep s' with
           | h :: t => (c :: h) :: t
           | [] => [[c]]
           end
  end.

(** [s.split()]: the maximal runs of non-whitespace characters. *)
Fixpoint split_ws_acc (cur : str) (s : str) : list str :=
  match s with
  | [] => if truthy cur then [rev cur] else []
  | c :: s' =>
      if isspace c then
        if truthy cur then rev cur :: split_ws_acc [] s' else split_ws_acc [] s'
      else split_ws_acc (c :: cur) s'
  end.

Definition split_ws (s : str) : list str := split_ws_acc [] s.

(** [s.replace(old, '')] for a one-character [old]. *)
Definition remove_char (old : ascii) (s : str) : str :=
  filter (fun c => c <> old) s.

(** The digits of [n mod 10^w], most significant first ([%04d], [%02d]). *)
Fixpoint zfill (w : nat) (n : nat) : str :=
  match w with
  | O => []
  | S w' => zfill w' (n / 10) ++ [ascii_of_nat (48 + n mod 10)]
  end.

End Py.

Import Py.

(* ===================================================================== *)
(** * classifier.py                                                       *)
(* ===================================================================== *)

Module Classifier.

Definition invoice_keywords : list str :=
  map lit [ "invoice"; "invoice number"; "invoice #"; "bill to";
            "total amount"; "amount due"; "payment terms"; "subtotal";
            "tax"; "vat"; "due date" ]%string.

Definition resume_keywords : list str :=
  map lit [ "resume"; "curriculum vitae"; "cv"; "experience";
            "education"; "skills"; "objective"; "professional summary";
            "work history"; "employment"; "qualifications" ]%string.

Definition utility_keywords : list str :=
  map lit [ "utility"; "electric"; "electricity"; "gas"; "water";
            "kwh"; "kilowatt"; "meter"; "usage"; "service address";
            "account number"; "billing period"; "current charges" ]%string.

(** [sum(1 for kw in keywords if kw in text_lower)] *)
Definition keyword_count (keywords : list str) (text_lower : str) : nat :=
  list_sum (map (fun _ => 1) (filter (fun kw => contains kw text_lower = true) keywords)).

Definition max3 (a b c : nat) : nat := Nat.max a (Nat.max b c).

Open Scope float_scope.

(** [DocumentClassifier._apply_rules] *)
Definition _apply_rules (text predicted_class : str) (confidence : float) : str :=
  let text_lower := lower text in
  let invoice_count := keyword_count invoice_keywords text_lower in
  let resume_count := keyword_count resume_keywords text_lower in
  let utility_count := keyword_count utility_keywords text_lower in
  if (3 <=? invoice_count)%nat && negb (str_eqb predicted_class (lit "Invoice")) then
    lit "Invoice"
  else if (3 <=? resume_count)%nat && negb (str_eqb predicted_class (lit "Resume")) then
    lit "Resume"
  else if (3 <=? utility_count)%nat && negb (str_eqb predicted_class (lit "Utility Bill")) then
    lit "Utility Bill"
  else if (confidence <? 0.5) && (max3 invoice_count resume_count utility_count <? 2)%nat then
    lit "Other"
  else
    predicted_class.

(** What one call of the zero-shot pipeline does: it raises, or it returns
    the dictionary with the ranked [labels] and their [scores]. *)
Inductive outcome :=
| Raises (e : exn)
| Returns (labels : list str) (scores : list float).

(** Calls made by [classify], in order. *)
Inductive event :=
| CallClassifier (text_sample : str)
| CallRules (text predicted_class : str) (confidence : float).

(** The body of the [try] block of [classify]. *)
Definition classify_try (classifier : str -> outcome) (text : str)
  : exc str * list event :=
  let text_sample := take 2000 text in
  let called := [CallClassifier text_sample] in
  match classifier text_sample with
  | Raises e => (Raise e, called)
  | Returns labels scores =>
    match labels with
    | [] => (Raise IndexError, called)
    | predicted_class :: _ =>
      match scores with
      | [] => (Raise IndexError, called)
      | confidence :: _ =>
        if confidence <? 0.3 then (Ok (lit "Unclassifiable"), called)
        else (Ok (_apply_rules text predicted_class confidence),
              called ++ [CallRules text predicted_class confidence])
      end
    end
  end.

(** [DocumentClassifier.classify]: the returned label and the calls made. *)
Definition classify (classifier : str -> outcome) (text filename : str)
  : str * list event :=
  if negb (truthy text) || (length (strip text) <? 10)%nat then
    (lit "Unclassifiable", [])
  else
    match classify_try classifier text with
    | (Ok predicted_class, tr) => (predicted_class, tr)
    | (Raise _, tr) => (lit "Unclassifiable", tr)
    end.

Close Scope float_scope.

End Classifier.

(* ===================================================================== *)
(** * The [re] module: a backtracking matcher                             *)
(* ===================================================================== *)

Module Re.

(** One item of a character class [[...]]. *)
Inductive citem :=
| CChar (c : ascii)
| CRange (lo hi : ascii)
| CDigit
| CSpace.

(** The constructs the patterns of [extractor.py] and of [_strptime] use.
    Alternatives are tried from left to right and repetition is greedy, as
    in Python's engine; group numbers are those of the source pattern. *)
Inductive regex :=
| Eps
| Chr (c : ascii)
| Cls (items : list citem)
| Cat (r1 r2 : regex)
| Alt (r1 r2 : regex)
| Rep (r : regex) (lo : nat) (hi : option nat)
| Grp (g : nat) (r : regex)
| WordB.

(** Captured groups, the most recent first. *)
Abbreviation captures := (list (nat * str)).

Fixpoint group_of (g : nat) (caps : captures) : option str :=
  match caps with
  | [] => None
  | (g', x) :: caps' => if (g =? g')%nat then Some x else group_of g caps'
  end.

Definition item_match (it : citem) (c : ascii) : bool :=
  match it with
  | CChar a => Ascii.eqb a c
  | CRange lo hi => in_range (code lo) (code hi) c
  | CDigit => isdigit c
  | CSpace => isspace c
  end.

(** Under [re.IGNORECASE] the compiled set holds the lower-case image of its
    literal characters and ranges, and the subject character is lower-cased
    before the test. *)
Definition item_match_ic (it : citem) (c : ascii) : bool :=
  match it with
  | CChar a => Ascii.eqb (lower_char a) (lower_char c)
  | CRange lo hi =>
      in_range (code lo) (code hi) (lower_char c)
      || in_range (code lo) (code hi) (upper_char (lower_char c))
  | CDigit => isdigit (lower_char c)
  | CSpace => isspace (lower_char c)
  end.

Definition chr_match (ic : bool) (a c : ascii) : bool :=
  if ic then Ascii.eqb (lower_char a) (lower_char c) else Ascii.eqb a c.

Definition cls_match (ic : bool) (items : list citem) (c : ascii) : bool :=
  existsb (fun it => if ic then item_match_ic it c else item_match it c) items.

(** [\b]: exactly one of the two neighbouring characters is a word
    character (the ends of the text count as non-word). *)
Definition at_boundary (prev : option ascii) (s : str) : bool :=
  xorb (match prev with Some c => isword c | None => false end)
       (match s with c :: _ => isword c | [] => false end).

Definition more (i : nat) (hi : option nat) : bool :=
  match hi with
  | None => true
  | Some h => (i <? h)%nat
  end.

Section Matcher.

Variable ic : bool.
Context {R : Type}.

(** A continuation receives the character before the current position, the
    rest of the subject and the groups captured so far. *)
Definition cont : Type := option ascii -> str -> captures -> option R.

(** The iterations of a greedy repetition [r{lo,hi}] whose body is matched
    by [body]: another iteration is tried first, and the rest of the
    pattern ([k]) once [lo] iterations are done.  Every iteration has to
    consume input (all repeated sub-patterns of the source consume at least
    one character), so [length s] iterations are enough. *)
Fixpoint rep_loop (body : option ascii -> str -> captures -> cont -> option R)
    (lo : nat) (hi : option nat) (k : cont) (fuel i : nat)
    (prev : option ascii) (s : str) (caps : captures) {struct fuel} : option R :=
  let stop := if (lo <=? i)%nat then k prev s caps else None in
  match fuel with
  | O => stop
  | S fuel' =>
      if more i hi then
        match body prev s caps
                (fun prev' s' caps' =>
                   if (length s' <? length s)%nat
                   then rep_loop body lo hi k fuel' (S i) prev' s' caps'
                   else None) with
        | Some x => Some x
        | None => stop
        end
      else stop
  end.

(** [m r prev s caps k]: match [r] at the current position, then [k]; on
    failure of [k] the next way of matching [r] is tried. *)
Fixpoint m (r : regex) (prev : option ascii) (s : str) (caps : captures)
    (k : cont) {struct r} : option R :=
  match r with
  | Eps => k prev s caps
  | Chr a =>
      match s with
      | c :: s' => if chr_match ic a c then k (Some c) s' caps else None
      | [] => None
      end
  | Cls items =>
      match s with
      | c :: s' => if cls_match ic items c then k (Some c) s' caps else None
      | [] => None
      end
  | Cat r1 r2 =>
      m r1 prev s caps (fun prev' s' caps' => m r2 prev' s' caps' k)
  | Alt r1 r2 =>
      match m r1 prev s caps k with
      | Some x => Some x
      | None => m r2 prev s caps k
      end
  | Rep r' lo hi => rep_loop (m r') lo hi k (length s) 0%nat prev s caps
  | Grp g r' =>
      m r' prev s caps
        (fun prev' s' caps' =>
           k prev' s' ((g, take (length s - length s') s) :: caps'))
  | WordB => if at_boundary prev s then k prev s caps else None
  end.

End Matcher.

(** A match object: the whole match and the captured groups. *)
Record rmatch := { group0 : str; groups : captures; consumed : nat }.

(** [match.group(g)] for [g >= 1]: [None] when the group did not take part. *)
Definition group (g : nat) (mo : rmatch) : option str := group_of g (groups mo).

(** [re.match] at a given position. *)
Definition match_at (ic : bool) (r : regex) (prev : option ascii) (s : str)
  : option rmatch :=
  m ic r prev s []
    (fun _ s' caps =>
       Some {| group0 := take (length s - length s') s;
               groups := caps;
               consumed := length s - length s' |}).

Fixpoint search_from (ic : bool) (r : regex) (prev : option ascii) (s : str)
  : option rmatch :=
  match match_at ic r prev s with
  | Some mo => Some mo
  | None =>
      match s with
      | [] => None
      | c :: s' => search_from ic r (Some c) s'
      end
  end.

(** [re.search(pattern, text)] / [re.search(pattern, text, re.IGNORECASE)]:
    the leftmost position at which the pattern matches. *)
Definition search (ic : bool) (r : regex) (text : str) : option rmatch :=
  search_from ic r None text.

(** Pattern syntax. *)
Definition star (r : regex) : regex := Rep r 0 None.
Definition plus (r : regex) : regex := Rep r 1 None.
Definition opt (r : regex) : regex := Rep r 0 (Some 1%nat).
Definition times (n : nat) (r : regex) : regex := Rep r n (Some n).

Fixpoint seq (rs : list regex) : regex :=
  match rs with
  | [] => Eps
  | [r] => r
  | r :: rs' => Cat r (seq rs')
  end.

Fixpoint alts (rs : list regex) : regex :=
  match rs with
  | [] => Cls []
  | [r] => r
  | r :: rs' => Alt r (alts rs')
  end.

(** A literal word of a pattern. *)
Definition word (w : string) : regex := seq (map Chr (lit w)).

Definition d : regex := Cls [CDigit].
Definition sp : regex := Cls [CSpace].

End Re.
(* ===================================================================== *)
(** * datetime.strptime / strftime                                        *)
(* ===================================================================== *)

Module Datetime.

Import Re.

Record datetime := { year : nat; month : nat; day : nat }.

(** The directives and literal text of the format strings in use.  A run of
    whitespace in a format is one [FSpace]. *)
Inductive fitem :=
| FY | Fm | Fd | FB | Fb
| FLit (c : ascii)
| FSpace.

(** Month names of the C locale, lower-cased as [_strptime] holds them. *)
Definition f_month : list string :=
  [ "january"; "february"; "march"; "april"; "may"; "june"; "july";
    "august"; "september"; "october"; "november"; "december" ]%string.

Definition a_month : list string :=
  [ "jan"; "feb"; "mar"; "apr"; "may"; "jun"; "jul"; "aug"; "sep"; "oct";
    "nov"; "dec" ]%string.

(** The names as they stand in the compiled alternation: sorted by
    decreasing length, the sort being stable. *)
Definition f_month_re : list string :=
  [ "september"; "february"; "november"; "december"; "january"; "october";
    "august"; "march"; "april"; "june"; "july"; "may" ]%string.

(** Group numbers of the named groups Y, m, d, B, b. *)
Definition gY := 1%nat.
Definition gm := 2%nat.
Definition gd := 3%nat.
Definition gB := 4%nat.
Definition gb := 5%nat.

Definition digit_range (lo hi : ascii) : regex := Cls [CRange lo hi].

(** The regular expression [_strptime.TimeRE] substitutes for an item. *)
Definition regex_of_item (it : fitem) : regex :=
  match it with
  | FY => Grp gY (seq [d; d; d; d])
  | Fm => Grp gm (alts [ Cat (Chr "1") (digit_range "0" "2");
                         Cat (Chr "0") (digit_range "1" "9");
                         digit_range "1" "9" ])
  | Fd => Grp gd (alts [ Cat (Chr "3") (digit_range "0" "1");
                         Cat (digit_range "1" "2") d;
                         Cat (Chr "0") (digit_range "1" "9");
                         digit_range "1" "9";
                         Cat (Chr " ") (digit_range "1" "9") ])
  | FB => Grp gB (alts (map word f_month_re))
  | Fb => Grp gb (alts (map word a_month))
  | FLit c => Chr c
  | FSpace => plus sp
  end.

Definition regex_of_format (fmt : list fitem) : regex :=
  seq (map regex_of_item fmt).

(** Position (from 1) of a lower-cased month name in a table. *)
Fixpoint index_from (i : nat) (name : str) (table : list string) : option nat :=
  match table with
  | [] => None
  | x :: table' =>
      if str_eqb (lit x) name then Some i else index_from (S i) name table'
  end.

Definition is_leap (y : nat) : bool :=
  (y mod 4 =? 0)%nat && (negb (y mod 100 =? 0)%nat || (y mod 400 =? 0)%nat).

Definition days_in_month (y mo : nat) : nat :=
  match mo with
  | 2 => if is_leap y then 29 else 28
  | 4 | 6 | 9 | 11 => 30
  | _ => 31
  end%nat.

(** The range checks of the [datetime] constructor. *)
Definition valid_date (y mo dy : nat) : bool :=
  (1 <=? y)%nat && (y <=? 9999)%nat && (1 <=? mo)%nat && (mo <=? 12)%nat
  && (1 <=? dy)%nat && (dy <=? days_in_month y mo)%nat.

(** [int(found_dict[...])]; the day may carry a leading blank. *)
Definition nat_of_group (x : str) : nat := Z.to_nat (Z_of_digits (lstrip x)).

(** [datetime.strptime(date_str, fmt)]: the format's expression is matched
    case-insensitively at the start of [date_str] and has to use all of it;
    fields not given default to 1900-01-01; every failure is a
    [ValueError]. *)
Definition strptime (date_str : str) (fmt : list fitem) : exc datetime :=
  match match_at true (regex_of_format fmt) None date_str with
  | None => Raise ValueError
  | Some found =>
      if negb (length date_str =? consumed found)%nat then Raise ValueError
      else
        let y := match group gY found with
                 | Some x => nat_of_group x
                 | None => 1900%nat
                 end in
        let mo := match group gm found, group gB found, group gb found with
                  | Some x, _, _ => Some (nat_of_group x)
                  | None, Some x, _ => index_from 1 (lower x) f_month
                  | None, None, Some x => index_from 1 (lower x) a_month
                  | None, None, None => Some 1%nat
                  end in
        let dy := match group gd found with
                  | Some x => nat_of_group x
                  | None => 1%nat
                  end in
        match mo with
        | Some mo =>
            if valid_date y mo dy
            then Ok {| year := y; month := mo; day := dy |}
            else Raise ValueError
        | None => Raise ValueError
        end
  end.

(** [%Y] as the C library writes it: the decimal digits of the year.
    The GNU C library does not pad the year, so the years below 1000 have
    fewer than four digits (["999"], ["7"]); the year of a [datetime] lies
    in 1..9999. *)
Definition year_digits (y : nat) : str :=
  if (y <? 10)%nat then zfill 1 y
  else if (y <? 100)%nat then zfill 2 y
  else if (y <? 1000)%nat then zfill 3 y
  else zfill 4 y.

(** [dt.strftime('%Y-%m-%d')]: the year as [%Y] writes it, month and day
    zero-filled to two digits. *)
Definition strftime_ymd (dt : datetime) : str :=
  year_digits (year dt) ++ lit "-" ++ zfill 2 (month dt) ++ lit "-"
  ++ zfill 2 (day dt).

End Datetime.

(* ===================================================================== *)
(** * extractor.py                                                        *)
(* ===================================================================== *)

Module Extractor.

Import Re Datetime.

(** A value of the extracted record: [str], [float] or [int]. *)
Inductive value :=
| VStr (s : str)
| VFloat (q : Q)
| VInt (z : Z).

(** [[A-Z0-9\-]+] *)
Definition ident_chars : regex :=
  plus (Cls [CRange "A" "Z"; CRange "0" "9"; CChar "-"]).

(** [[\d,]+\.?\d*] *)
Definition amount_chars : regex :=
  seq [plus (Cls [CDigit; CChar ","]); opt (Chr "."); star d].

Definition invoice_number_patterns : list regex :=
  [ seq [word "invoice"; star sp; opt (Chr "#"); star sp; opt (Chr ":");
         star sp; Grp 1 ident_chars];
    seq [word "inv"; star sp; opt (Chr "#"); star sp; opt (Chr ":");
         star sp; Grp 1 ident_chars];
    seq [word "invoice"; star sp; word "number"; star sp; opt (Chr ":");
         star sp; Grp 1 ident_chars] ].

Definition month_prefix : regex :=
  alts (map word [ "Jan"; "Feb"; "Mar"; "Apr"; "May"; "Jun"; "Jul"; "Aug";
                   "Sep"; "Oct"; "Nov"; "Dec" ]%string).

(** The four date shapes: YYYY-MM-DD, MM/DD/YYYY, DD-MM-YYYY and
    "Month DD, YYYY". *)
Definition date_iso : regex :=
  seq [times 4 d; Chr "-"; times 2 d; Chr "-"; times 2 d].

Definition date_slashes : regex :=
  seq [times 2 d; Chr "/"; times 2 d; Chr "/"; times 4 d].

Definition date_dashes : regex :=
  seq [times 2 d; Chr "-"; times 2 d; Chr "-"; times 4 d].

Definition date_month_name : regex :=
  seq [month_prefix; star (Cls [CRange "a" "z"]); plus sp;
       Rep d 1 (Some 2%nat); opt (Chr ","); plus sp; times 4 d].

Definition date_patterns : list regex :=
  [date_iso; date_slashes; date_dashes; date_month_name].

Definition amount_tail : list regex :=
  [star sp; opt (Chr ":"); star sp; opt (Chr "$"); star sp; Grp 1 amount_chars].

Definition amount_patterns : list regex :=
  [ seq ([word "total"; star sp; word "amount"] ++ amount_tail);
    seq ([word "amount"; star sp; word "due"] ++ amount_tail);
    seq ([word "total"] ++ amount_tail);
    seq ([word "grand"; star sp; word "total"] ++ amount_tail) ].

(** [\b[A-Za-z0-9._%+-]+@[A-Za-z0-9.-]+\.[A-Z|a-z]{2,}\b] *)
Definition email_pattern : regex :=
  seq [ WordB;
        plus (Cls [CRange "A" "Z"; CRange "a" "z"; CRange "0" "9"; CChar ".";
                   CChar "_"; CChar "%"; CChar "+"; CChar "-"]);
        Chr "@";
        plus (Cls [CRange "A" "Z"; CRange "a" "z"; CRange "0" "9"; CChar ".";
                   CChar "-"]);
        Chr ".";
        Rep (Cls [CRange "A" "Z"; CChar "|"; CRange "a" "z"]) 2 None;
        WordB ].

(** [[-.\s]?] *)
Definition phone_sep : regex := opt (Cls [CChar "-"; CChar "."; CSpace]).

Definition phone_patterns : list regex :=
  [ seq [opt (Chr "+"); Rep d 1 (Some 3%nat); phone_sep; opt (Chr "(");
         times 3 d; opt (Chr ")"); phone_sep; times 3 d; phone_sep; times 4 d];
    seq [times 3 d; Chr "-"; times 3 d; Chr "-"; times 4 d];
    seq [Chr "("; times 3 d; Chr ")"; star sp; times 3 d; Chr "-"; times 4 d] ].

Definition account_number_pattern : regex :=
  seq [word "account"; star sp; word "number"; star sp; opt (Chr ":"); star sp;
       Grp 1 ident_chars].

(** The usage pattern: group 1 is [\d+\.?\d*] (the number), then [\s*kwh]. *)
Definition usage_pattern : regex :=
  seq [Grp 1 (seq [plus d; opt (Chr "."); star d]); star sp; word "kwh"].

Definition experience_patterns : list regex :=
  [ seq [Grp 1 (plus d); star sp; opt (Chr "+"); star sp; word "year";
         opt (Chr "s"); star sp; opt (word "of"); star sp; word "experience"];
    seq [word "experience"; star sp; opt (Chr ":"); star sp; Grp 1 (plus d);
         star sp; opt (Chr "+"); star sp; word "year"; opt (Chr "s")] ].

(** [([A-Z][A-Za-z\s&]+(?:Inc|LLC|Ltd|Corporation|Corp|Company|Co)\.?)] *)
Definition company_pattern : regex :=
  Grp 1 (seq [ Cls [CRange "A" "Z"];
               plus (Cls [CRange "A" "Z"; CRange "a" "z"; CSpace; CChar "&"]);
               alts (map word [ "Inc"; "LLC"; "Ltd"; "Corporation"; "Corp";
                                "Company"; "Co" ]%string);
               opt (Chr ".") ]).

(** [match.group(1)] followed by a [str] method: on a group that did not
    take part the method call is made on [None]. *)
Definition group1 (mo : rmatch) : exc str :=
  match group 1 mo with
  | Some x => Ok x
  | None => Raise AttributeError
  end.

(** [DataExtractor._extract_with_patterns] *)
Fixpoint _extract_with_patterns_loop (text_lower : str) (patterns : list regex)
  : exc (option str) :=
  match patterns with
  | [] => Ok None
  | pattern :: rest =>
      match search true pattern text_lower with
      | Some mo => g ← group1 mo; Ok (Some (strip g))
      | None => _extract_with_patterns_loop text_lower rest
      end
  end.

Definition _extract_with_patterns (text : str) (patterns : list regex)
  : exc (option str) :=
  _extract_with_patterns_loop (lower text) patterns.

(** The format strings of [_normalize_date]. *)
Definition formats : list (list fitem) :=
  [ [FY; FLit "-"; Fm; FLit "-"; Fd];
    [Fm; FLit "/"; Fd; FLit "/"; FY];
    [Fd; FLit "-"; Fm; FLit "-"; FY];
    [FB; FSpace; Fd; FLit ","; FSpace; FY];
    [Fb; FSpace; Fd; FLit ","; FSpace; FY];
    [FB; FSpace; Fd; FSpace; FY];
    [Fb; FSpace; Fd; FSpace; FY] ].

(** The loop of [_normalize_date]: [except ValueError: continue]. *)
Fixpoint _normalize_date_loop (date_str : str) (fmts : list (list fitem))
  : exc (option str) :=
  match fmts with
  | [] => Ok None
  | fmt :: rest =>
      match strptime date_str fmt with
      | Ok dt => Ok (Some (strftime_ymd dt))
      | Raise ValueError => _normalize_date_loop date_str rest
      | Raise e => Raise e
      end
  end.

(** [DataExtractor._normalize_date] *)
Definition _normalize_date (date_str : str) : exc (option str) :=
  _normalize_date_loop date_str formats.

(** Truth value of an [Optional[str]]. *)
Definition some_truthy (o : option str) : bool :=
  match o with
  | Some x => truthy x
  | None => false
  end.

(** The loop of [_extract_date] over the remaining patterns. *)
Fixpoint _extract_date_loop (text : str) (patterns : list regex)
  : exc (option str) :=
  match patterns with
  | [] => Ok None
  | pattern :: rest =>
      match search true pattern text with
      | Some mo =>
          let date_str := group0 mo in
          normalized ← _normalize_date date_str;
          if some_truthy normalized then Ok normalized
          else _extract_date_loop text rest
      | None => _extract_date_loop text rest
      end
  end.

(** [DataExtractor._extract_date] *)
Definition _extract_date (text : str) : exc (option str) :=
  _extract_date_loop text date_patterns.

(** [DataExtractor._extract_amount] *)
Fixpoint _extract_amount_loop (text_lower : str) (patterns : list regex)
  : exc (option Q) :=
  match patterns with
  | [] => Ok None
  | pattern :: rest =>
      match search true pattern text_lower with
      | Some mo =>
          g ← group1 mo;
          let amount_str := remove_char "," g in
          match float_of_str amount_str with
          | Ok x => Ok (Some x)
          | Raise ValueError => _extract_amount_loop text_lower rest
          | Raise e => Raise e
          end
      | None => _extract_amount_loop text_lower rest
      end
  end.

Definition _extract_amount (text : str) : exc (option Q) :=
  _extract_amount_loop (lower text) amount_patterns.

(** [DataExtractor._extract_company_name] *)
Definition _extract_company_name (text : str) : exc (option str) :=
  match search false company_pattern text with
  | Some mo => g ← group1 mo; Ok (Some (strip g))
  | None => Ok None
  end.

Definition headers : list str := map lit ["resume"; "cv"; "curriculum"]%string.

(** [all(w[0].isupper() for w in words if w and w[0].isalpha())] *)
Definition all_capitalized (words : list str) : bool :=
  forallb (fun w => match w with
                    | c :: _ => if isalpha c then isupper c else true
                    | [] => true
                    end) words.

(** [DataExtractor._extract_name] *)
Fixpoint _extract_name_loop (lines : list str) : option str :=
  match lines with
  | [] => None
  | line :: rest =>
      let words := split_ws (strip line) in
      if (2 <=? length words)%nat && (length words <=? 4)%nat
         && all_capitalized words
         && negb (existsb (fun header => contains header (lower line)) headers)
      then Some (strip line)
      else _extract_name_loop rest
  end.

Definition _extract_name (text : str) : option str :=
  let lines := split_on "010" text in
  _extract_name_loop (take 5 lines).

(** [DataExtractor._extract_email] *)
Definition _extract_email (text : str) : option str :=
  match search false email_pattern text with
  | Some mo => Some (group0 mo)
  | None => None
  end.

(** [DataExtractor._extract_phone] *)
Fixpoint _extract_phone_loop (text : str) (patterns : list regex) : option str :=
  match patterns with
  | [] => None
  | pattern :: rest =>
      match search false pattern text with
      | Some mo => Some (group0 mo)
      | None => _extract_phone_loop text rest
      end
  end.

Definition _extract_phone (text : str) : option str :=
  _extract_phone_loop text phone_patterns.

(** [DataExtractor._extract_experience_years] *)
Fixpoint _extract_experience_years_loop (text_lower : str) (patterns : list regex)
  : exc (option Z) :=
  match patterns with
  | [] => Ok None
  | pattern :: rest =>
      match search false pattern text_lower with
      | Some mo =>
          g ← group1 mo;
          match int_of_str g with
          | Ok n => Ok (Some n)
          | Raise ValueError => _extract_experience_years_loop text_lower rest
          | Raise e => Raise e
          end
      | None => _extract_experience_years_loop text_lower rest
      end
  end.

Definition _extract_experience_years (text : str) : exc (option Z) :=
  _extract_experience_years_loop (lower text) experience_patterns.

(** [DataExtractor._extract_usage] *)
Definition _extract_usage (text : str) : exc (option Q) :=
  let text_lower := lower text in
  match search false usage_pattern text_lower with
  | Some mo =>
      g ← group1 mo;
      match float_of_str g with
      | Ok x => Ok (Some x)
      | Raise ValueError => Ok None
      | Raise e => Raise e
      end
  | None => Ok None
  end.

(** [if x: data[key] = f(x)] *)
Definition set_if {A} (truth : A -> bool) (key : string) (x : option A)
    (f : A -> value) (data : gmap str value) : gmap str value :=
  match x with
  | Some a => if truth a then <[lit key := f a]> data else data
  | None => data
  end.

(** [DataExtractor._extract_invoice] *)
Definition _extract_invoice (text : str) : exc (gmap str value) :=
  let data : gmap str value := ∅ in
  invoice_number ← _extract_with_patterns text invoice_number_patterns;
  let data := set_if truthy "invoice_number" invoice_number
                (fun x => VStr (upper x)) data in
  date ← _extract_date text;
  let data := set_if truthy "date" date VStr data in
  company ← _extract_company_name text;
  let data := set_if truthy "company" company VStr data in
  amount ← _extract_amount text;
  let data := set_if float_truthy "total_amount" amount VFloat data in
  Ok data.

(** [DataExtractor._extract_resume] *)
Definition _extract_resume (text : str) : exc (gmap str value) :=
  let data : gmap str value := ∅ in
  let name := _extract_name text in
  let data := set_if truthy "name" name VStr data in
  let email := _extract_email text in
  let data := set_if truthy "email" email VStr data in
  let phone := _extract_phone text in
  let data := set_if truthy "phone" phone VStr data in
  experience ← _extract_experience_years text;
  let data := set_if int_truthy "experience_years" experience VInt data in
  Ok data.

(** [DataExtractor._extract_utility_bill] *)
Definition _extract_utility_bill (text : str) : exc (gmap str value) :=
  let data : gmap str value := ∅ in
  account ← _extract_with_patterns text [account_number_pattern];
  let data := set_if truthy "account_number" account
                (fun x => VStr (upper x)) data in
  date ← _extract_date text;
  let data := set_if truthy "date" date VStr data in
  usage ← _extract_usage text;
  let data := set_if float_truthy "usage_kwh" usage VFloat data in
  amount ← _extract_amount text;
  let data := set_if float_truthy "amount_due" amount VFloat data in
  Ok data.

(** [DataExtractor.extract] *)
Definition extract (text doc_type : str) : exc (gmap str value) :=
  if str_eqb doc_type (lit "Invoice") then _extract_invoice text
  else if str_eqb doc_type (lit "Resume") then _extract_resume text
  else if str_eqb doc_type (lit "Utility Bill") then _extract_utility_bill text
  else Ok ∅.

End Extractor.

(* ===================================================================== *)
(** * retrieval.py                                                        *)
(* ===================================================================== *)

Module Retrieval.

(** [langchain.schema.Document] *)
Record Document := { page_content : str; metadata : gmap str str }.

(** What the vector store library does for the index manager.  A FAISS
    store is represented by the documents it holds, in insertion order. *)
Record services := {
  (** embedding the documents, in [FAISS.from_documents] and
      [add_documents], can fail *)
  embed_documents : list Document -> exc unit;
  (** [store.similarity_search_with_score(query, k)] *)
  similarity_search_with_score :
    list Document -> str -> Z -> exc (list (Document * Q));
  (** [os.makedirs] and [store.save_local(index_path)]: whether the call
      returns or raises *)
  save_local : str -> list Document -> exc unit;
  (** what that call leaves under [data/models] besides a completed save
      at [index_path]: the files of a save that failed part-way, and the
      directory it wrote under its other names (["x"] and ["x/"] name one
      directory) *)
  save_local_leaves :
    str -> list Document -> gmap str (list Document) -> gmap str (list Document)
}.

(** The state of a [SemanticRetrieval] object and of [data/models]:
    [disk] gives, for a path, the store saved there. *)
Record SemanticRetrieval := {
  vectorstores : gmap str (list Document);
  disk : gmap str (list Document)
}.

(** [SemanticRetrieval.__init__] *)
Definition init : SemanticRetrieval := {| vectorstores := ∅; disk := ∅ |}.

(** [SemanticRetrieval._save_index] *)
Definition _save_index (svc : services) (self : SemanticRetrieval)
    (index_name : str) : SemanticRetrieval :=
  match vectorstores self !! index_name with
  | None => self
  | Some store =>
      let index_path := lit "data/models/" ++ index_name in
      let files := save_local_leaves svc index_path store (disk self) in
      match save_local svc index_path store with
      | Ok _ => {| vectorstores := vectorstores self;
                   disk := <[index_path := store]> files |}
      | Raise _ => {| vectorstores := vectorstores self; disk := files |}
      end
  end.

(** [SemanticRetrieval.add_document]; when it raises, the object is as
    before. *)
Definition add_document (svc : services) (self : SemanticRetrieval)
    (index_name filename text : str) : exc SemanticRetrieval :=
  let doc := {| page_content := text;
                metadata := {[ lit "filename" := filename ]} |} in
  _ ← embed_documents svc [doc];
  let stores :=
    match vectorstores self !! index_name with
    | None => <[index_name := [doc]]> (vectorstores self)
    | Some store => <[index_name := store ++ [doc]]> (vectorstores self)
    end in
  Ok (_save_index svc {| vectorstores := stores; disk := disk self |} index_name).

(** One formatted search result. *)
Record result := {
  rank : nat;
  filename : str;
  score : Q;
  text_snippet : str
}.

Definition format_result (i : nat) (hit : Document * Q) : result :=
  let (doc, score) := hit in
  {| rank := i + 1;
     filename := default (lit "unknown") (metadata doc !! lit "filename");
     score := py_round score 4;
     text_snippet :=
       if (300 <? length (page_content doc))%nat
       then take 300 (page_content doc) ++ lit "..."
       else page_content doc |}.

(** [SemanticRetrieval.search] *)
Definition search (svc : services) (self : SemanticRetrieval)
    (index_name query : str) (top_k : Z) : list result :=
  match vectorstores self !! index_name with
  | None => []
  | Some store =>
      match similarity_search_with_score svc store query top_k with
      | Ok results => imap format_result results
      | Raise _ => []
      end
  end.

End Retrieval.

(* ===================================================================== *)
(** * main.py                                                             *)
(* ===================================================================== *)

Module SearchRequest.
Record t := { index_name : str; query : str; top_k : Z }.
End SearchRequest.

Module SearchResult.
Record t := {
  rank : nat;
  filename : str;
  similarity_score : Q;
  text_snippet : option str
}.
End SearchResult.

Module SearchResponse.
Record t := {
  query : str;
  results : list SearchResult.t;
  total_results : nat
}.
End SearchResponse.

Module UploadFile.
Record t := { filename : str; content : str }.
End UploadFile.

Module Main.

Import Extractor.

(** The collaborators of the request handlers. *)
Record services := {
  (** the zero-shot classification pipeline *)
  classifier : str -> Classifier.outcome;
  (** [DocumentProcessor._extract_from_pdf] on the bytes of a file: the
      cleaned text, or the empty string when loading fails *)
  pdf_text : str -> str;
  (** writing the uploaded bytes under [data/input] *)
  write_file : str -> str -> exc unit;
  (** [str(e)] *)
  exn_str : exn -> str;
  retrieval_services : Retrieval.services
}.

(** What the handlers act on: the retrieval object, the files saved under
    [data/input], and [output.json] ([None]: the file does not exist). *)
Record world := {
  retrieval : Retrieval.SemanticRetrieval;
  input_folder : gmap str str;
  output_json : option (gmap str (gmap str value))
}.

(** The stages of an upload, recorded as they run. *)
Inductive stage :=
| Saved (path : str)
| TextExtracted (path : str)
| Classified (calls : list Classifier.event)
| Extracted
| Indexed
| OutputWritten.

Definition INPUT_FOLDER : str := lit "data/input".

(** [Path.name]: the final component of a path. *)
Definition path_name (p : str) : str :=
  rev (take_while (fun c => negb (Ascii.eqb c "/")) (rev p)).

(** [Path.suffix]: from the last point of the name on, unless that point
    is the first or the last character of the name. *)
Definition path_suffix (p : str) : str :=
  let name := path_name p in
  let after := length (take_while (fun c => negb (Ascii.eqb c ".")) (rev name)) in
  if (after <? length name)%nat then
    let i := (length name - 1 - after)%nat in
    if (0 <? i)%nat && (0 <? after)%nat then drop i name else []
  else [].

(** [DocumentProcessor.extract_text] *)
Definition extract_text (svc : services) (w : world) (file_path : str) : exc str :=
  if negb (str_eqb (lower (path_suffix file_path)) (lit ".pdf")) then Raise ValueError
  else Ok (pdf_text svc (default [] (input_folder w !! file_path))).

(** The body of the [try] block of [upload_document]. *)
Definition upload_try (svc : services) (w : world) (file : UploadFile.t)
    (index_name : str) : exc (gmap str value) * world * list stage :=
  let filename := UploadFile.filename file in
  if negb (endswith (lit ".pdf") filename) then
    (Raise (HTTPException 400 (lit "Only PDF files are supported")), w, [])
  else
    let temp_path := INPUT_FOLDER ++ lit "/" ++ filename in
    match write_file svc temp_path (UploadFile.content file) with
    | Raise e => (Raise e, w, [])
    | Ok _ =>
      let w1 := {| retrieval := retrieval w;
                   input_folder := <[temp_path := UploadFile.content file]> (input_folder w);
                   output_json := output_json w |} in
      let st1 := [Saved temp_path] in
      match extract_text svc w1 temp_path with
      | Raise e => (Raise e, w1, st1)
      | Ok text =>
        let st2 := st1 ++ [TextExtracted temp_path] in
        if negb (truthy text) then
          (Raise (HTTPException 400 (lit "Failed to extract text from PDF")), w1, st2)
        else
          let (doc_type, calls) := Classifier.classify (classifier svc) text filename in
          let st3 := st2 ++ [Classified calls] in
          match extract text doc_type with
          | Raise e => (Raise e, w1, st3)
          | Ok extracted_data =>
            let st4 := st3 ++ [Extracted] in
            match Retrieval.add_document (retrieval_services svc) (retrieval w1)
                    index_name filename text with
            | Raise e => (Raise e, w1, st4)
            | Ok retrieval' =>
              let st5 := st4 ++ [Indexed] in
              let result : gmap str value :=
                extracted_data ∪
                <[lit "filename" := VStr filename]>
                  (<[lit "index_name" := VStr index_name]>
                     (<[lit "class" := VStr doc_type]> ∅)) in
              let all_results := default ∅ (output_json w1) in
              let w2 := {| retrieval := retrieval';
                           input_folder := input_folder w1;
                           output_json := Some (<[filename := result]> all_results) |} in
              (Ok result, w2, st5 ++ [OutputWritten])
            end
          end
      end
    end.

(** [upload_document]: an [HTTPException] passes, any other exception
    becomes the status 500. *)
Definition upload_document (svc : services) (w : world) (file : UploadFile.t)
    (index_name : str) : exc (gmap str value) * world * list stage :=
  match upload_try svc w file index_name with
  | (Raise (HTTPException c dt), w', st) => (Raise (HTTPException c dt), w', st)
  | (Raise e, w', st) =>
      (Raise (HTTPException 500 (lit "Processing failed: " ++ exn_str svc e)), w', st)
  | (Ok result, w', st) => (Ok result, w', st)
  end.

Definition to_SearchResult (r : Retrieval.result) : SearchResult.t :=
  {| SearchResult.rank := Retrieval.rank r;
     SearchResult.filename := Retrieval.filename r;
     SearchResult.similarity_score := Retrieval.score r;
     SearchResult.text_snippet := Some (Retrieval.text_snippet r) |}.

(** [search_documents] *)
Definition search_documents (svc : services) (w : world)
    (request : SearchRequest.t) : exc SearchResponse.t :=
  let results :=
    Retrieval.search (retrieval_services svc) (retrieval w)
      (SearchRequest.index_name request) (SearchRequest.query request)
      (SearchRequest.top_k request) in
  match results with
  | [] => Ok {| SearchResponse.query := SearchRequest.query request;
                SearchResponse.results := [];
                SearchResponse.total_results := 0 |}
  | _ :: _ =>
      let search_results := map to_SearchResult results in
      Ok {| SearchResponse.query := SearchRequest.query request;
            SearchResponse.results := search_results;
            SearchResponse.total_results := length search_results |}
  end.

End Main.


(* ===================================================================== *)
(** * Facts about the Python primitives                                   *)
(* ===================================================================== *)

Module PyFacts.

(** Number of positions of [s] at which [sub] starts: how often [sub]
    occurs in [s] (the specification's notion of a keyword occurring [k]
    times). *)
Fixpoint occurrences (sub s : str) : nat :=
  (if startswith sub s then 1 else 0) +
  match s with
  | [] => 0
  | _ :: s' => occurrences sub s'
  end.

(** Number of non-whitespace characters of a text. *)
Fixpoint non_whitespace_count (s : str) : nat :=
  match s with
  | [] => 0
  | c :: s' => (if isspace c then 0 else 1) + non_whitespace_count s'
  end.

Lemma non_whitespace_count_app (a b : str) :
  non_whitespace_count (a ++ b)
  = non_whitespace_count a + non_whitespace_count b.
Proof.
  induction a as [|c a IH]; simpl; [reflexivity|]. rewrite IH. lia.
Qed.

Lemma non_whitespace_count_rev (s : str) :
  non_whitespace_count (rev s) = non_whitespace_count s.
Proof.
  induction s as [|c s IH]; simpl; [reflexivity|].
  rewrite non_whitespace_count_app, IH. simpl. lia.
Qed.

Lemma non_whitespace_count_lstrip (s : str) :
  non_whitespace_count (lstrip s) = non_whitespace_count s.
Proof.
  induction s as [|c s IH]; simpl; [reflexivity|].
  destruct (isspace c) eqn:E; simpl; [exact IH | rewrite E; reflexivity].
Qed.

Lemma non_whitespace_count_le (s : str) : non_whitespace_count s <= length s.
Proof.
  induction s as [|c s IH]; simpl; [lia|]. destruct (isspace c); lia.
Qed.

(** Stripping removes whitespace only: the stripped text is at least as
    long as the number of non-whitespace characters of the text. *)
Lemma non_whitespace_count_strip (s : str) :
  non_whitespace_count s <= length (strip s).
Proof.
  assert (H : non_whitespace_count (strip s) = non_whitespace_count s).
  { unfold strip, rstrip.
    rewrite non_whitespace_count_rev, non_whitespace_count_lstrip,
      non_whitespace_count_rev, non_whitespace_count_lstrip. reflexivity. }
  rewrite <- H. apply non_whitespace_count_le.
Qed.

Lemma contains_occurrences (sub s : str) :
  contains sub s = true <-> 0 < occurrences sub s.
Proof.
  induction s as [|c s IH]; simpl.
  - destruct (startswith sub []); simpl; split; (lia || congruence).
  - destruct (startswith sub (c :: s)); simpl.
    + split; [lia | reflexivity].
    + rewrite IH. reflexivity.
Qed.

Lemma startswith_app (p s : str) : startswith p (p ++ s) = true.
Proof.
  induction p as [|a p IH]; simpl; [reflexivity|].
  rewrite Ascii.eqb_refl. exact IH.
Qed.

Lemma startswith_spec (p s : str) :
  startswith p s = true <-> exists rest, s = p ++ rest.
Proof.
  split.
  - revert s. induction p as [|a p IH]; intros s H.
    + exists s. reflexivity.
    + destruct s as [|b s]; simpl in H; [discriminate|].
      apply andb_true_iff in H as [Hab Hps].
      apply Ascii.eqb_eq in Hab. subst b.
      destruct (IH _ Hps) as [rest ->]. exists rest. reflexivity.
  - intros [rest ->]. apply startswith_app.
Qed.

Lemma endswith_spec (p s : str) :
  endswith p s = true <-> exists stem, s = stem ++ p.
Proof.
  unfold endswith. rewrite startswith_spec. split.
  - intros [rest H]. exists (rev rest).
    apply (f_equal (@rev ascii)) in H.
    rewrite rev_involutive, rev_app_distr, rev_involutive in H. exact H.
  - intros [stem ->]. exists (rev stem). apply rev_app_distr.
Qed.

Lemma lstrip_length (s : str) : length (lstrip s) <= length s.
Proof.
  induction s as [|c s IH]; simpl; [lia|].
  destruct (isspace c); simpl; lia.
Qed.

Lemma strip_length (s : str) : length (strip s) <= length s.
Proof.
  unfold strip, rstrip. rewrite length_rev.
  etransitivity; [apply lstrip_length|].
  rewrite length_rev. apply lstrip_length.
Qed.

(** Rounding to the nearest integer moves a number by at most one half. *)
Lemma round_half_even_close (q : Q) :
  (Qabs (inject_Z (round_half_even q) - q) <= 1 # 2)%Q.
Proof.
  unfold round_half_even.
  pose proof (Qfloor_le q) as Hlo.
  pose proof (Qlt_floor q) as Hhi.
  rewrite inject_Z_plus in Hhi. change (inject_Z 1) with 1%Q in Hhi.
  apply Qabs_Qle_condition.
  destruct (Qcompare_spec (q - inject_Z (Qfloor q)) (1 # 2)) as [He|Hl|Hg].
  - destruct (Z.even (Qfloor q)).
    + split; lra.
    + rewrite inject_Z_plus. change (inject_Z 1) with 1%Q. split; lra.
  - split; lra.
  - rewrite inject_Z_plus. change (inject_Z 1) with 1%Q. split; lra.
Qed.

(** [round(x, 4)] is a multiple of 1/10000 at most 1/20000 away from [x]. *)
Lemma py_round_4 (q : Q) :
  (exists n : Z, py_round q 4 == n # 10000)%Q
  /\ (Qabs (py_round q 4 - q) <= 1 # 20000)%Q.
Proof.
  unfold py_round. change (10 ^ Z.of_nat 4)%Z with 10000%Z.
  set (n := round_half_even (q * inject_Z 10000)).
  pose proof (round_half_even_close (q * inject_Z 10000)) as H.
  fold n in H. apply Qabs_Qle_condition in H.
  assert (Hn : (inject_Z n / inject_Z 10000 == n # 10000)%Q).
  { unfold Qdiv, Qeq, Qmult, Qinv, inject_Z. simpl. lia. }
  split.
  - exists n. exact Hn.
  - apply Qabs_Qle_condition.
    assert (Hq : (inject_Z n / inject_Z 10000 - q
                  == (inject_Z n - q * inject_Z 10000) / inject_Z 10000)%Q)
      by field.
    rewrite Hq. destruct H as [Ha Hb].
    set (x := (inject_Z n - q * inject_Z 10000)%Q) in *.
    split.
    + apply Qle_shift_div_l; [reflexivity|].
      change (inject_Z 10000) with (10000 # 1)%Q. lra.
    + apply Qle_shift_div_r; [reflexivity|].
      change (inject_Z 10000) with (10000 # 1)%Q. lra.
Qed.

End PyFacts.

(* ===================================================================== *)
(** * The Rule Engine and the Classification Orchestrator                 *)
(* ===================================================================== *)

Module ClassifierSpec.

Import PyFacts Classifier.

Open Scope float_scope.

(** ** Keyword counts *)

Lemma keyword_count_cons (kw : str) (keywords : list str) (t : str) :
  keyword_count (kw :: keywords) t
  = ((if contains kw t then 1 else 0) + keyword_count keywords t)%nat.
Proof.
  unfold keyword_count. rewrite filter_cons.
  destruct (decide (contains kw t = true)) as [H|H].
  - rewrite H. reflexivity.
  - apply not_true_is_false in H. rewrite H. reflexivity.
Qed.

Lemma keyword_count_le (keywords : list str) (t : str) :
  (keyword_count keywords t <= length keywords)%nat.
Proof.
  induction keywords as [|kw kws IH]; [reflexivity|].
  rewrite keyword_count_cons. simpl length.
  destruct (contains kw t); lia.
Qed.

(** C1, as the specification words it, fails: the keyword "tax" occurs
    three times in the text, yet the Invoice count is 1, below the
    override threshold, and the label is left as it was. *)
Lemma repeated_keyword_counts_once :
  occurrences (lit "tax") (lower (lit "tax tax tax")) = 3%nat
  /\ keyword_count invoice_keywords (lower (lit "tax tax tax")) = 1%nat
  /\ _apply_rules (lit "tax tax tax") (lit "Other") 0.9 = lit "Other".
Proof. vm_compute. repeat split. Qed.

(** C1 (amended): the keyword count of a category is the number of its
    keywords that occur in the lower-cased text; a keyword contributes 1
    when it occurs at least once and 0 otherwise, however often it
    occurs, so the count never exceeds the number of keywords. *)
Theorem keyword_count_counts_presence (keywords : list str) (text_lower : str) :
  keyword_count keywords text_lower
  = length (filter (fun kw => (0 < occurrences kw text_lower)%nat) keywords)
  /\ (keyword_count keywords text_lower <= length keywords)%nat
  /\ (forall kw : str,
        keyword_count [kw] text_lower
        = if decide (0 < occurrences kw text_lower)%nat then 1%nat else 0%nat).
Proof.
  assert (Hone : forall kw : str,
             (if contains kw text_lower then 1%nat else 0%nat)
             = if decide (0 < occurrences kw text_lower)%nat then 1%nat else 0%nat).
  { intros kw. pose proof (contains_occurrences kw text_lower) as H.
    destruct (contains kw text_lower); destruct (decide _) as [Hd|Hd];
      try reflexivity.
    - exfalso. apply Hd, H. reflexivity.
    - apply H in Hd. discriminate. }
  split; [|split].
  - induction keywords as [|kw kws IH]; [reflexivity|].
    rewrite keyword_count_cons, filter_cons, Hone, IH.
    destruct (decide _); reflexivity.
  - apply keyword_count_le.
  - intros kw. rewrite keyword_count_cons, Hone. unfold keyword_count.
    simpl. lia.
Qed.

(** ** The override and demotion rules *)

(** The three categories with their keyword counts, in the order in which
    the override rule is evaluated. *)
Definition category_counts (text : str) : list (str * nat) :=
  let text_lower := lower text in
  [ (lit "Invoice", keyword_count invoice_keywords text_lower);
    (lit "Resume", keyword_count resume_keywords text_lower);
    (lit "Utility Bill", keyword_count utility_keywords text_lower) ].

(** The override rule for one category: its count is at least 3 and the
    current label differs. *)
Definition overrides (label : str) (c : str * nat) : bool :=
  (3 <=? snd c)%nat && negb (str_eqb label (fst c)).

(** [refine] as the specification states it: the first category, in the
    fixed order, whose override rule fires; otherwise [Other] when the
    confidence is below 0.50 and the largest count is below 2; otherwise
    the label unchanged. *)
Definition refine_spec (text label : str) (confidence : float) : str :=
  match List.find (overrides label) (category_counts text) with
  | Some (category, _) => category
  | None =>
      if (confidence <? 0.5)
         && (list_max (map snd (category_counts text)) <? 2)%nat
      then lit "Other"
      else label
  end.

(** C2: the Rule Engine is the specification's [refine]: the first
    category in the order Invoice, Resume, Utility Bill whose count is at
    least 3 and which differs from the label is returned; when none
    qualifies the result is [Other] if the confidence is below 0.50 and
    the largest count is below 2, and the original label otherwise. *)
Theorem apply_rules_refines (text label : str) (confidence : float) :
  _apply_rules text label confidence = refine_spec text label confidence
  /\ (List.find (overrides label) (category_counts text) = None ->
      ((confidence <? 0.5) = true
       /\ (list_max (map snd (category_counts text)) < 2)%nat ->
       _apply_rules text label confidence = lit "Other")
      /\ (~ ((confidence <? 0.5) = true
             /\ (list_max (map snd (category_counts text)) < 2)%nat) ->
          _apply_rules text label confidence = label)).
Proof.
  assert (Heq : _apply_rules text label confidence
                = refine_spec text label confidence).
  { unfold _apply_rules, refine_spec, category_counts, overrides, max3.
    cbn [List.find fst snd map list_max fold_right].
    rewrite Nat.max_0_r.
    repeat (destruct (_ && negb _); [reflexivity|]).
    reflexivity. }
  split; [exact Heq|].
  intros Hnone. rewrite Heq. unfold refine_spec. rewrite Hnone.
  split.
  - intros [Hc Hm]. rewrite Hc.
    apply Nat.ltb_lt in Hm. rewrite Hm. reflexivity.
  - intros Hn.
    destruct (confidence <? 0.5) eqn:Hc; [|reflexivity].
    destruct (list_max _ <? 2)%nat eqn:Hm; [|reflexivity].
    exfalso. apply Hn. split; [reflexivity|]. apply Nat.ltb_lt. exact Hm.
Qed.

(** The scenarios of the specification: four Resume keywords override
    [Other]; three Invoice keywords override any other label, and leave
    [Invoice]; a weak answer without keywords is demoted. *)
Example resume_override :
  _apply_rules (lit "Resume. Experience, Education and Skills.") (lit "Other") 0.91
  = lit "Resume".
Proof. vm_compute. reflexivity. Qed.

Example invoice_override :
  _apply_rules (lit "Invoice: total amount 5, amount due 5") (lit "Resume") 0.8
  = lit "Invoice"
  /\ _apply_rules (lit "Invoice: total amount 5, amount due 5") (lit "Invoice") 0.8
     = lit "Invoice".
Proof. vm_compute. split; reflexivity. Qed.

Example weak_signal_demoted :
  _apply_rules (lit "Minutes of the annual meeting") (lit "Resume") 0.4
  = lit "Other"
  /\ _apply_rules (lit "Minutes of the annual meeting") (lit "Resume") 0.5
     = lit "Resume".
Proof. vm_compute. split; reflexivity. Qed.

(** ** The orchestrator *)

(** A classifier that always answers [Invoice] with confidence 0.9. *)
Definition sure_invoice (text_sample : str) : outcome :=
  Returns (map lit ["Invoice"; "Resume"; "Utility Bill"; "Other";
                    "Unclassifiable"]%string)
          [0.9; 0.04; 0.03; 0.02; 0.01].

(** A classifier whose call fails. *)
Definition failing (text_sample : str) : outcome :=
  Raises (OtherError (lit "timeout")).

(** A classifier that is unsure: [Resume] with confidence 0.29. *)
Definition unsure (text_sample : str) : outcome :=
  Returns (map lit ["Resume"; "Other"]%string) [0.29; 0.28].

(** The input guard of [classify]. *)
Definition insufficient (text : str) : bool :=
  negb (truthy text) || (length (strip text) <? 10)%nat.

Lemma classify_guarded (classifier : str -> outcome) (text filename : str) :
  insufficient text = true ->
  classify classifier text filename = (lit "Unclassifiable", []).
Proof.
  intros H. unfold classify. fold (insufficient text). rewrite H. reflexivity.
Qed.

Lemma classify_unguarded (classifier : str -> outcome) (text filename : str) :
  insufficient text = false ->
  classify classifier text filename
  = match classify_try classifier text with
    | (Ok predicted_class, tr) => (predicted_class, tr)
    | (Raise _, tr) => (lit "Unclassifiable", tr)
    end.
Proof.
  intros H. unfold classify. fold (insufficient text). rewrite H. reflexivity.
Qed.

(** The guard is narrower than "fewer than 10 non-whitespace characters":
    whenever it holds the text has fewer than 10 such characters. *)
Lemma insufficient_few_characters (text : str) :
  insufficient text = true -> (non_whitespace_count text < 10)%nat.
Proof.
  unfold insufficient. intros H. apply orb_true_iff in H as [H | H].
  - destruct text; [simpl; lia | discriminate].
  - apply Nat.ltb_lt in H. pose proof (non_whitespace_count_strip text). lia.
Qed.

(** When the guard does not hold the classifier is called, on the first
    2000 characters. *)
Lemma classify_calls_classifier (classifier : str -> outcome) (text filename : str) :
  insufficient text = false ->
  exists rest,
    snd (classify classifier text filename)
    = CallClassifier (take 2000 text) :: rest.
Proof.
  intros H. rewrite (classify_unguarded _ _ _ H). unfold classify_try.
  destruct (classifier (take 2000 text)) as [e|labels scores]; [eauto|].
  destruct labels as [|l labels]; [eauto|].
  destruct scores as [|c scores]; [eauto|].
  destruct (c <? 0.3); eauto.
Qed.

(** C3, as the specification words it, fails: the text has six
    non-whitespace characters, fewer than 10, yet the classifier is called
    and its label is returned. *)
Lemma sparse_text_reaches_classifier :
  non_whitespace_count (lit "a b c d e f") = 6%nat
  /\ classify sure_invoice (lit "a b c d e f") (lit "f.pdf")
     = (lit "Invoice",
        [ CallClassifier (lit "a b c d e f");
          CallRules (lit "a b c d e f") (lit "Invoice") 0.9 ]).
Proof. vm_compute. split; reflexivity. Qed.

(** C3 (amended): for every text that is empty, or whose length after
    removing leading and trailing whitespace is below 10, [classify]
    returns [Unclassifiable] without calling the external classifier. *)
Theorem classify_short_text (classifier : str -> outcome) (text filename : str) :
  text = [] \/ (length (strip text) < 10)%nat ->
  classify classifier text filename = (lit "Unclassifiable", []).
Proof.
  intros H. apply classify_guarded. unfold insufficient.
  destruct H as [-> | H]; [reflexivity|].
  apply Nat.ltb_lt in H. rewrite H. apply orb_true_r.
Qed.

Lemma classify_short_text_witness :
  (lit "   invoice   " = [] \/ (length (strip (lit "   invoice   ")) < 10)%nat)
  /\ classify sure_invoice (lit "   invoice   ") (lit "f.pdf")
     = (lit "Unclassifiable", []).
Proof.
  assert (H : lit "   invoice   " = []
              \/ (length (strip (lit "   invoice   ")) < 10)%nat).
  { right. vm_compute. lia. }
  split; [exact H|].
  apply (classify_short_text sure_invoice (lit "   invoice   ") (lit "f.pdf") H).
Defined.

(** Whatever the classifier does, it is called at most once, on the first
    2000 characters, and the rules are applied at most once, on the whole
    text and after the classifier. *)
Lemma classify_trace_shape (classifier : str -> outcome) (text filename : str) :
  let tr := snd (classify classifier text filename) in
  tr = []
  \/ tr = [CallClassifier (take 2000 text)]
  \/ exists predicted_class confidence,
       tr = [ CallClassifier (take 2000 text);
              CallRules text predicted_class confidence ].
Proof.
  unfold classify, classify_try.
  destruct (negb (truthy text) || _); [left; reflexivity|].
  destruct (classifier (take 2000 text)) as [e|labels scores];
    [right; left; reflexivity|].
  destruct labels as [|l labels]; [right; left; reflexivity|].
  destruct scores as [|c scores]; [right; left; reflexivity|].
  destruct (c <? 0.3); [right; left; reflexivity|].
  right; right. exists l, c. reflexivity.
Qed.

(** C6: when the call of the external classifier raises (any exception),
    or when the top-ranked confidence is below 0.30, [classify] returns
    [Unclassifiable]; the classifier has been called at most once (no
    retry) and the Rule Engine not at all. *)
Theorem classify_failure_is_unclassifiable
    (classifier : str -> outcome) (text filename : str) :
  (exists e, classifier (take 2000 text) = Raises e)
  \/ (exists label labels confidence scores,
        classifier (take 2000 text)
        = Returns (label :: labels) (confidence :: scores)
        /\ (confidence <? 0.3) = true) ->
  fst (classify classifier text filename) = lit "Unclassifiable"
  /\ (snd (classify classifier text filename) = []
      \/ snd (classify classifier text filename)
         = [CallClassifier (take 2000 text)]).
Proof.
  intros H. unfold classify, classify_try.
  destruct (negb (truthy text) || _); [split; [reflexivity | left; reflexivity]|].
  destruct H as [[e ->] | (l & ls & c & cs & -> & Hc)].
  - split; [reflexivity | right; reflexivity].
  - rewrite Hc. split; [reflexivity | right; reflexivity].
Qed.

Definition long_text : str := lit "A document of sufficient length.".

Lemma classify_failure_is_unclassifiable_witness :
  fst (classify failing long_text (lit "f.pdf")) = lit "Unclassifiable"
  /\ (snd (classify failing long_text (lit "f.pdf")) = []
      \/ snd (classify failing long_text (lit "f.pdf"))
         = [CallClassifier (take 2000 long_text)]).
Proof.
  apply (classify_failure_is_unclassifiable failing long_text (lit "f.pdf")).
  left. exists (OtherError (lit "timeout")). reflexivity.
Defined.

(** The same at a classifier that answers with confidence 0.29, and the
    absence of a label or of a score is a failure like any other. *)
Example classify_unsure :
  classify unsure long_text (lit "f.pdf")
  = (lit "Unclassifiable", [CallClassifier long_text]).
Proof. vm_compute. reflexivity. Qed.

Example classify_no_labels :
  classify (fun _ => Returns [] []) long_text (lit "f.pdf")
  = (lit "Unclassifiable", [CallClassifier long_text]).
Proof. vm_compute. reflexivity. Qed.

(** A text of 2000 filler characters followed by three Invoice keywords. *)
Definition padded_invoice : str :=
  repeat "x"%char 2000 ++ lit " invoice, subtotal and tax".

(** A classifier that answers [Other] with confidence 0.9. *)
Definition sure_other (text_sample : str) : outcome :=
  Returns (map lit ["Other"; "Invoice"]%string) [0.9; 0.05].

(** C9: for every text longer than 2000 characters, the only text the
    external classifier is given is the first 2000 characters (a proper
    prefix), and the only text the Rule Engine is given is the whole text;
    when the input guard passes and the classifier answers with a
    confidence of at least 0.30 both calls are made and the result is the
    Rule Engine's verdict on the whole text. *)
Theorem classify_truncates_for_classifier_only
    (classifier : str -> outcome) (text filename : str) :
  (2000 < length text)%nat ->
  (forall ev, In ev (snd (classify classifier text filename)) ->
     match ev with
     | CallClassifier text_sample =>
         text_sample = take 2000 text /\ length text_sample = 2000%nat
         /\ text_sample <> text
     | CallRules text' _ _ => text' = text
     end)
  /\ (forall label labels confidence scores,
        insufficient text = false ->
        classifier (take 2000 text)
        = Returns (label :: labels) (confidence :: scores) ->
        (confidence <? 0.3) = false ->
        classify classifier text filename
        = (_apply_rules text label confidence,
           [ CallClassifier (take 2000 text);
             CallRules text label confidence ])).
Proof.
  intros Hlen.
  assert (Hsample : length (take 2000 text) = 2000%nat)
    by (rewrite length_take; lia).
  assert (Hne : take 2000 text <> text)
    by (intros Heq; rewrite Heq in Hsample; lia).
  split.
  - intros ev Hin.
    destruct (classify_trace_shape classifier text filename)
      as [H | [H | (l & c & H)]]; cbv zeta in H; rewrite H in Hin.
    + destruct Hin.
    + destruct Hin as [<- | []]. auto.
    + destruct Hin as [<- | [<- | []]]; auto.
  - intros l ls c cs Hguard Hret Hc.
    rewrite (classify_unguarded _ _ _ Hguard).
    unfold classify_try. rewrite Hret, Hc. reflexivity.
Qed.

Lemma classify_truncates_for_classifier_only_witness :
  (2000 < length padded_invoice)%nat
  /\ classify sure_other padded_invoice (lit "f.pdf")
     = (_apply_rules padded_invoice (lit "Other") 0.9,
        [ CallClassifier (take 2000 padded_invoice);
          CallRules padded_invoice (lit "Other") 0.9 ]).
Proof.
  assert (H : (2000 < length padded_invoice)%nat) by (vm_compute; lia).
  split; [exact H|].
  apply (proj2 (classify_truncates_for_classifier_only
                  sure_other padded_invoice (lit "f.pdf") H)
           (lit "Other") [lit "Invoice"] 0.9 [0.05]);
    vm_compute; reflexivity.
Defined.

(** The keywords after position 2000 decide: the classifier saw only the
    filler and answered [Other], the rules override to [Invoice]; on the
    sample the classifier saw they would have left [Other]. *)
Example keywords_beyond_sample_decide :
  fst (classify sure_other padded_invoice (lit "f.pdf")) = lit "Invoice"
  /\ keyword_count invoice_keywords (lower (take 2000 padded_invoice)) = 0%nat
  /\ _apply_rules (take 2000 padded_invoice) (lit "Other") 0.9 = lit "Other".
Proof. vm_compute. repeat split. Qed.

Close Scope float_scope.

End ClassifierSpec.

(* ===================================================================== *)
(** * The Index Manager and the search operation                          *)
(* ===================================================================== *)

Module RetrievalSpec.

Import PyFacts Retrieval.

(** Saving an index leaves the in-memory stores as they are. *)
Lemma save_index_vectorstores (svc : services) (self : SemanticRetrieval)
    (index_name : str) :
  vectorstores (_save_index svc self index_name) = vectorstores self.
Proof.
  unfold _save_index.
  destruct (vectorstores self !! index_name); [|reflexivity].
  destruct (save_local svc _ _); reflexivity.
Qed.

(** Adding to one collection leaves the others as they are. *)
Lemma add_document_other (svc : services) (self self' : SemanticRetrieval)
    (index_name filename text other : str) :
  add_document svc self index_name filename text = Ok self' ->
  other <> index_name ->
  vectorstores self' !! other = vectorstores self !! other.
Proof.
  unfold add_document. intros H Hne.
  destruct (embed_documents svc _); simpl in H; [|discriminate].
  injection H as <-. rewrite save_index_vectorstores. simpl.
  destruct (vectorstores self !! index_name);
    rewrite lookup_insert_ne; congruence.
Qed.

(** After a successful add the collection holds the new document last. *)
Lemma add_document_same (svc : services) (self self' : SemanticRetrieval)
    (index_name filename text : str) :
  add_document svc self index_name filename text = Ok self' ->
  exists store,
    vectorstores self' !! index_name
    = Some (store ++ [ {| page_content := text;
                          metadata := {[ lit "filename" := filename ]} |} ])
    /\ store = default [] (vectorstores self !! index_name).
Proof.
  unfold add_document. intros H.
  destruct (embed_documents svc _); simpl in H; [|discriminate].
  injection H as <-. rewrite save_index_vectorstores. simpl.
  destruct (vectorstores self !! index_name) as [store|] eqn:E.
  - exists store. rewrite lookup_insert_eq. split; reflexivity.
  - exists []. rewrite lookup_insert_eq. split; reflexivity.
Qed.

(** A sequence of [add] calls [(collection, filename, text)], each of
    which changes the object or raises and leaves it as it was. *)
Fixpoint run_adds (svc : services) (self : SemanticRetrieval)
    (adds : list (str * str * str)) : SemanticRetrieval :=
  match adds with
  | [] => self
  | (index_name, filename, text) :: rest =>
      match add_document svc self index_name filename text with
      | Ok self' => run_adds svc self' rest
      | Raise _ => run_adds svc self rest
      end
  end.

(** A collection that received no [add] call has no in-memory index. *)
Lemma never_added_no_index (svc : services) (adds : list (str * str * str))
    (collection : str) :
  ~ In collection (map (fun a => fst (fst a)) adds) ->
  vectorstores (run_adds svc init adds) !! collection = None.
Proof.
  assert (G : forall self,
             vectorstores self !! collection = None ->
             ~ In collection (map (fun a => fst (fst a)) adds) ->
             vectorstores (run_adds svc self adds) !! collection = None).
  { induction adds as [|[[idx fn] text] rest IH]; intros self Hnone Hnin.
    - exact Hnone.
    - simpl in Hnin. simpl.
      destruct (add_document svc self idx fn text) as [self'|e] eqn:E.
      + apply IH; [|tauto].
        rewrite (add_document_other _ _ _ _ _ _ collection E); [exact Hnone|].
        intros ->. tauto.
      + apply IH; [exact Hnone | tauto]. }
  apply G. reflexivity.
Qed.

Lemma search_unknown (svc : services) (self : SemanticRetrieval)
    (index_name query : str) (top_k : Z) :
  vectorstores self !! index_name = None ->
  search svc self index_name query top_k = [].
Proof. intros H. unfold search. rewrite H. reflexivity. Qed.

Lemma snippet_length (content : str) :
  length (if (300 <? length content)%nat
          then take 300 content ++ lit "..." else content) <= 303.
Proof.
  destruct (300 <? length content)%nat eqn:E.
  - rewrite length_app, length_take. change (length (lit "...")) with 3. lia.
  - apply Nat.ltb_ge in E. lia.
Qed.

(** Services for the examples: a store that ranks its documents in
    insertion order with distances 0.123456, 0.2, 0.3, ... and never
    fails. *)
Definition example_services : services :=
  {| embed_documents := fun _ => Ok tt;
     similarity_search_with_score := fun store _ k =>
       Ok (take (Z.to_nat k)
             (imap (fun i doc =>
                      (doc, if (i =? 0)%nat then (123456 # 1000000)%Q
                            else (Z.of_nat (S i) # 10)%Q)) store));
     save_local := fun _ _ => Ok tt;
     save_local_leaves := fun _ _ files => files |}.

Definition long_document : str := repeat "y"%char 450.

Definition two_docs : SemanticRetrieval :=
  run_adds example_services init
    [ (lit "docs", lit "a.pdf", long_document);
      (lit "docs", lit "b.pdf", lit "A short note about water usage.") ].

(** C8: the result at position [i] (from 0) of [search] has rank [i + 1];
    it comes from the hit at the same position of the similarity search,
    its score is that hit's score rounded to four decimal places (a
    multiple of 1/10000 within 1/20000 of it), and its snippet is the
    whole text when that has at most 300 characters and otherwise the
    first 300 characters followed by "...", at most 303 characters. *)
Theorem search_result_format (svc : services) (self : SemanticRetrieval)
    (index_name query : str) (top_k : Z) (i : nat) (r : result) :
  search svc self index_name query top_k !! i = Some r ->
  rank r = i + 1
  /\ exists store hits doc raw,
       vectorstores self !! index_name = Some store
       /\ similarity_search_with_score svc store query top_k = Ok hits
       /\ hits !! i = Some (doc, raw)
       /\ score r = py_round raw 4
       /\ (exists n : Z, score r == n # 10000)%Q
       /\ (Qabs (score r - raw) <= 1 # 20000)%Q
       /\ (length (page_content doc) <= 300 ->
           text_snippet r = page_content doc)
       /\ (300 < length (page_content doc) ->
           text_snippet r = take 300 (page_content doc) ++ lit "...")
       /\ length (text_snippet r) <= 303.
Proof.
  unfold search. intros H.
  destruct (vectorstores self !! index_name) as [store|] eqn:Es;
    [|rewrite lookup_nil in H; discriminate].
  destruct (similarity_search_with_score svc store query top_k)
    as [hits|e] eqn:Eh; [|rewrite lookup_nil in H; discriminate].
  rewrite list_lookup_imap in H.
  destruct (hits !! i) as [[doc raw]|] eqn:Ei; [|discriminate].
  injection H as <-.
  split; [reflexivity|].
  exists store, hits, doc, raw.
  unfold format_result; cbn [score text_snippet].
  split; [reflexivity|]. split; [exact Eh|]. split; [exact Ei|].
  split; [reflexivity|].
  split; [apply py_round_4|]. split; [apply py_round_4|].
  split; [|split; [|apply snippet_length]].
  - intros Hle. apply Nat.ltb_ge in Hle. rewrite Hle. reflexivity.
  - intros Hlt. apply Nat.ltb_lt in Hlt. rewrite Hlt. reflexivity.
Qed.

Lemma search_result_format_witness :
  exists r,
    search example_services two_docs (lit "docs") (lit "water") 1 !! 0%nat
    = Some r
    /\ rank r = 1
    /\ length (text_snippet r) <= 303.
Proof.
  assert (H : search example_services two_docs (lit "docs") (lit "water") 1
              !! 0%nat
              = Some (format_result 0
                        ({| page_content := long_document;
                            metadata := {[ lit "filename" := lit "a.pdf" ]} |},
                         (123456 # 1000000)%Q)))
    by (vm_compute; reflexivity).
  eexists. split; [exact H|].
  destruct (search_result_format _ _ _ _ _ _ _ H)
    as (Hr & st & hits & doc & raw & _ & _ & _ & _ & _ & _ & _ & _ & G).
  split; [exact Hr | exact G].
Defined.

(** The end-to-end scenario of the specification: two documents added to
    "docs", one result asked for. *)
Example search_top_1 :
  search example_services two_docs (lit "docs") (lit "water") 1
  = [ {| rank := 1; filename := lit "a.pdf"; score := (1235 # 10000)%Q;
         text_snippet := repeat "y"%char 300 ++ lit "..." |} ].
Proof. vm_compute. reflexivity. Qed.

End RetrievalSpec.

(* ===================================================================== *)
(** * The request handlers                                                *)
(* ===================================================================== *)

Module MainSpec.

Import PyFacts Main.

(** Collaborators for the examples. *)
Definition example_collaborators : services :=
  {| classifier := ClassifierSpec.sure_invoice;
     pdf_text := fun content => content;
     write_file := fun _ _ => Ok tt;
     exn_str := fun _ => lit "error";
     retrieval_services := RetrievalSpec.example_services |}.

(** The state after start-up. *)
Definition startup : world :=
  {| retrieval := Retrieval.init; input_folder := ∅; output_json := None |}.

(** The state after two uploads into "docs". *)
Definition two_docs_world : world :=
  {| retrieval := RetrievalSpec.two_docs; input_folder := ∅; output_json := None |}.

Definition empty_response (query : str) : SearchResponse.t :=
  {| SearchResponse.query := query;
     SearchResponse.results := [];
     SearchResponse.total_results := 0 |}.

(** C7: for a collection id that has no in-memory index, [search] returns
    the empty sequence, and the search operation answers (it does not
    raise) with [total_results = 0] and an empty result list. *)
Theorem search_unknown_collection (svc : services) (w : world)
    (request : SearchRequest.t) :
  Retrieval.vectorstores (retrieval w) !! SearchRequest.index_name request
  = None ->
  Retrieval.search (retrieval_services svc) (retrieval w)
    (SearchRequest.index_name request) (SearchRequest.query request)
    (SearchRequest.top_k request) = []
  /\ search_documents svc w request
     = Ok (empty_response (SearchRequest.query request)).
Proof.
  intros H.
  pose proof (RetrievalSpec.search_unknown (retrieval_services svc)
                (retrieval w) _ (SearchRequest.query request)
                (SearchRequest.top_k request) H) as Hs.
  split; [exact Hs|].
  unfold search_documents. rewrite Hs. reflexivity.
Qed.

Definition other_request : SearchRequest.t :=
  {| SearchRequest.index_name := lit "other";
     SearchRequest.query := lit "water";
     SearchRequest.top_k := 5 |}.

Lemma search_unknown_collection_witness :
  Retrieval.vectorstores (retrieval two_docs_world) !! lit "other" = None
  /\ search_documents example_collaborators two_docs_world other_request
     = Ok (empty_response (lit "water")).
Proof.
  assert (H : Retrieval.vectorstores (retrieval two_docs_world)
              !! SearchRequest.index_name other_request = None).
  { vm_compute. reflexivity. }
  split; [exact H|].
  exact (proj2 (search_unknown_collection example_collaborators two_docs_world
                  other_request H)).
Defined.

(** In particular a collection that received no [add] call since start-up
    is answered with the empty response. *)
Corollary search_never_added (svc : services) (adds : list (str * str * str))
    (files : gmap str str) (out : option (gmap str (gmap str Extractor.value)))
    (request : SearchRequest.t) :
  ~ In (SearchRequest.index_name request) (map (fun a => fst (fst a)) adds) ->
  search_documents svc
    {| retrieval := RetrievalSpec.run_adds (retrieval_services svc)
                      Retrieval.init adds;
       input_folder := files; output_json := out |} request
  = Ok (empty_response (SearchRequest.query request)).
Proof.
  intros H. unfold search_documents.
  rewrite RetrievalSpec.search_unknown; [reflexivity|].
  apply RetrievalSpec.never_added_no_index. exact H.
Qed.

(** C10: the check of the upload operation is on the exact suffix ".pdf":
    for every file name that is not some stem followed by ".pdf", the
    request is refused with status 400; nothing has been saved, no stage
    of the pipeline has run and the state is as before. *)
Theorem upload_rejects_non_pdf (svc : services) (w : world)
    (file : UploadFile.t) (index_name : str) :
  (forall stem, UploadFile.filename file <> stem ++ lit ".pdf") ->
  upload_document svc w file index_name
  = (Raise (HTTPException 400 (lit "Only PDF files are supported")), w, []).
Proof.
  intros H.
  assert (E : endswith (lit ".pdf") (UploadFile.filename file) = false).
  { apply not_true_is_false. intros Ht.
    apply endswith_spec in Ht as [stem Hs]. exact (H stem Hs). }
  unfold upload_document, upload_try. rewrite E. reflexivity.
Qed.

Definition upper_case_upload : UploadFile.t :=
  {| UploadFile.filename := lit "REPORT.PDF";
     UploadFile.content := lit "%PDF-1.4 ..." |}.

Lemma upload_rejects_non_pdf_witness :
  upload_document example_collaborators startup upper_case_upload (lit "default")
  = (Raise (HTTPException 400 (lit "Only PDF files are supported")),
     startup, []).
Proof.
  apply (upload_rejects_non_pdf example_collaborators startup upper_case_upload
           (lit "default")).
  intros stem Hs.
  apply (f_equal (@rev ascii)) in Hs. rewrite rev_app_distr in Hs.
  vm_compute in Hs. discriminate Hs.
Defined.

(** The suffix ".Pdf" is refused as well, and a lower-case name passes
    the check: the upload runs through all its stages. *)
Example upload_mixed_case :
  fst (fst (upload_document example_collaborators startup
              {| UploadFile.filename := lit "report.Pdf";
                 UploadFile.content := [] |} (lit "default")))
  = Raise (HTTPException 400 (lit "Only PDF files are supported")).
Proof. vm_compute. reflexivity. Qed.

Example upload_lower_case_stages :
  snd (upload_document example_collaborators startup
         {| UploadFile.filename := lit "report.pdf";
            UploadFile.content := lit "Quarterly report of the water board" |}
         (lit "default"))
  = [ Saved (lit "data/input/report.pdf");
      TextExtracted (lit "data/input/report.pdf");
      Classified
        [ Classifier.CallClassifier (lit "Quarterly report of the water board");
          Classifier.CallRules (lit "Quarterly report of the water board")
            (lit "Invoice") 0.9%float ];
      Extracted; Indexed; OutputWritten ].
Proof. vm_compute. reflexivity. Qed.

End MainSpec.

(* ===================================================================== *)
(** * Facts about the matcher                                             *)
(* ===================================================================== *)

Module ReFacts.

Import Re.

Section Captures.

Variable ic : bool.
Context {R : Type}.

(** The group whose capture is followed. *)
Variable g : nat.

(** [sets r]: every way of matching [r] captures group [g]. *)
Fixpoint sets (r : regex) : bool :=
  match r with
  | Grp g' r' => (g =? g')%nat || sets r'
  | Cat r1 r2 => sets r1 || sets r2
  | Alt r1 r2 => sets r1 && sets r2
  | Rep r' lo _ => (1 <=? lo)%nat && sets r'
  | Eps | Chr _ | Cls _ | WordB => false
  end.

Definition has (caps : captures) : Prop := is_Some (group_of g caps).

(** The continuation [k] has answered [x] somewhere, with captures that
    extend [caps] and, when [must] holds, include group [g]. *)
Definition reaches (k : @cont R) (x : R) (caps : captures) (must : bool) : Prop :=
  exists prev' s' caps',
    k prev' s' caps' = Some x
    /\ (has caps -> has caps')
    /\ (must = true -> has caps').

Lemma has_cons (g' : nat) (x : str) (caps : captures) :
  has caps -> has ((g', x) :: caps).
Proof.
  unfold has. simpl. destruct (g =? g')%nat; [eauto | trivial].
Qed.

Lemma has_cons_same (x : str) (caps : captures) (g' : nat) :
  (g =? g')%nat = true -> has ((g', x) :: caps).
Proof. unfold has. simpl. intros ->. eauto. Qed.

(** A successful repetition, given that its body is well behaved. *)
Lemma rep_loop_success
    (body : option ascii -> str -> captures -> @cont R -> option R) (b : bool)
    (lo : nat) (hi : option nat) (k : @cont R) (x : R) :
  (forall prev s caps k' , body prev s caps k' = Some x -> reaches k' x caps b) ->
  forall fuel i prev s caps,
    (1 <= i -> b = true -> has caps) ->
    rep_loop body lo hi k fuel i prev s caps = Some x ->
    reaches k x caps ((1 <=? lo)%nat && b).
Proof.
  intros Hbody.
  assert (Hstop : forall i prev s caps,
             (1 <= i -> b = true -> has caps) ->
             (if (lo <=? i)%nat then k prev s caps else None) = Some x ->
             reaches k x caps ((1 <=? lo)%nat && b)).
  { intros i prev s caps Hinv H.
    destruct (lo <=? i)%nat eqn:Hlo; [|discriminate].
    exists prev, s, caps. split; [exact H|]. split; [trivial|].
    intros Hm. apply andb_true_iff in Hm as [H1 Hb].
    apply Nat.leb_le in H1, Hlo. apply Hinv; [lia | exact Hb]. }
  induction fuel as [|fuel IH]; intros i prev s caps Hinv H; simpl in H.
  - eapply Hstop; eassumption.
  - destruct (more i hi); [|eapply Hstop; eassumption].
    match type of H with
    | match ?call with _ => _ end = _ => destruct call as [y|] eqn:Hcall
    end; [|eapply Hstop; eassumption].
    injection H as ->.
    destruct (Hbody _ _ _ _ Hcall) as (p1 & s1 & c1 & Hk & Hext & Hset).
    destruct (length s1 <? length s)%nat; [|discriminate].
    destruct (IH (S i) p1 s1 c1 (fun _ Hb => Hset Hb) Hk)
      as (p2 & s2 & c2 & Hk2 & Hext2 & Hset2).
    exists p2, s2, c2. split; [exact Hk2|]. split; [auto | exact Hset2].
Qed.

(** A successful match has called its continuation, with group [g]
    captured when the pattern always captures it. *)
Lemma m_success (r : regex) :
  forall prev s caps (k : @cont R) x,
    m ic r prev s caps k = Some x -> reaches k x caps (sets r).
Proof.
  induction r as [ | a | items | r1 IH1 r2 IH2 | r1 IH1 r2 IH2
                   | r' IH lo hi | g' r' IH | ];
    intros prev s caps k x H; simpl in H.
  - exists prev, s, caps. split; [exact H|]. split; [trivial | discriminate].
  - destruct s as [|c s]; [discriminate|].
    destruct (chr_match ic a c); [|discriminate].
    exists (Some c), s, caps. split; [exact H|]. split; [trivial | discriminate].
  - destruct s as [|c s]; [discriminate|].
    destruct (cls_match ic items c); [|discriminate].
    exists (Some c), s, caps. split; [exact H|]. split; [trivial | discriminate].
  - destruct (IH1 _ _ _ _ _ H) as (p1 & s1 & c1 & H1 & Hext1 & Hset1).
    destruct (IH2 _ _ _ _ _ H1) as (p2 & s2 & c2 & H2 & Hext2 & Hset2).
    exists p2, s2, c2. split; [exact H2|]. split; [auto|].
    simpl. intros Hm. apply orb_true_iff in Hm as [Hm | Hm]; auto.
  - destruct (m ic r1 prev s caps k) as [y|] eqn:E1.
    + injection H as ->.
      destruct (IH1 _ _ _ _ _ E1) as (p1 & s1 & c1 & H1 & Hext1 & Hset1).
      exists p1, s1, c1. split; [exact H1|]. split; [exact Hext1|].
      simpl. intros Hm. apply andb_true_iff in Hm as [Hm _]. auto.
    + destruct (IH2 _ _ _ _ _ H) as (p2 & s2 & c2 & H2 & Hext2 & Hset2).
      exists p2, s2, c2. split; [exact H2|]. split; [exact Hext2|].
      simpl. intros Hm. apply andb_true_iff in Hm as [_ Hm]. auto.
  - apply (rep_loop_success (m ic r') (sets r') lo hi k x
             (fun p s0 c k' Hb => IH p s0 c k' x Hb) (length s) 0 prev s caps);
      [|exact H].
    intros Hi. lia.
  - destruct (IH _ _ _ _ _ H) as (p1 & s1 & c1 & H1 & Hext1 & Hset1).
    eexists p1, s1, _. split; [exact H1|]. split.
    + intros Hc. apply has_cons. auto.
    + simpl. intros Hm. apply orb_true_iff in Hm as [Hm | Hm].
      * apply has_cons_same. exact Hm.
      * apply has_cons. auto.
  - destruct (at_boundary prev s); [|discriminate].
    exists prev, s, caps. split; [exact H|]. split; [trivial | discriminate].
Qed.

End Captures.

(** A match object returned for a pattern that always captures group [g]
    has that group. *)
Lemma match_at_group (ic : bool) (g : nat) (r : regex) (prev : option ascii)
    (s : str) (mo : rmatch) :
  sets g r = true ->
  match_at ic r prev s = Some mo ->
  is_Some (group g mo).
Proof.
  intros Hsets H. unfold match_at in H.
  destruct (m_success ic g r _ _ _ _ _ H) as (p & s' & caps & Hk & _ & Hset).
  injection Hk as <-. unfold group. simpl. apply Hset. exact Hsets.
Qed.

Lemma search_from_group (ic : bool) (g : nat) (r : regex) (s : str) :
  sets g r = true ->
  forall prev mo,
    search_from ic r prev s = Some mo -> is_Some (group g mo).
Proof.
  intros Hsets. induction s as [|c s IH]; intros prev mo H; simpl in H.
  - destruct (match_at ic r prev []) as [mo'|] eqn:E; [|discriminate].
    injection H as <-. eapply match_at_group; eassumption.
  - destruct (match_at ic r prev (c :: s)) as [mo'|] eqn:E.
    + injection H as <-. eapply match_at_group; eassumption.
    + eapply IH. exact H.
Qed.

Lemma search_group (ic : bool) (g : nat) (r : regex) (text : str) (mo : rmatch) :
  sets g r = true ->
  search ic r text = Some mo ->
  is_Some (group g mo).
Proof. intros Hsets H. eapply search_from_group; eassumption. Qed.

End ReFacts.

(* ===================================================================== *)
(** * The Field Extraction Cascade                                        *)
(* ===================================================================== *)

Module ExtractorSpec.

Import PyFacts Re ReFacts Datetime Extractor.

(** ** What can be raised *)

Lemma float_of_str_raises (s : str) (e : exn) :
  float_of_str s = Raise e -> e = ValueError.
Proof.
  unfold float_of_str. destruct (span_digits s) as [ip rest].
  destruct rest as [|c fp].
  - destruct (truthy ip); congruence.
  - destruct (_ && _); congruence.
Qed.

Lemma int_of_str_raises (s : str) (e : exn) :
  int_of_str s = Raise e -> e = ValueError.
Proof.
  unfold int_of_str.
  destruct (_ && _); [destruct (_ <? _)%nat|]; congruence.
Qed.

Lemma strptime_raises (date_str : str) (fmt : list fitem) (e : exn) :
  strptime date_str fmt = Raise e -> e = ValueError.
Proof.
  unfold strptime.
  destruct (match_at _ _ _ _) as [found|]; [|congruence].
  destruct (negb _); [congruence|].
  match goal with
  | |- match ?month with _ => _ end = _ -> _ => destruct month as [mo|]
  end; [|congruence].
  destruct (valid_date _ _ _); congruence.
Qed.

(** A pattern whose every match captures group 1. *)
Definition captures_group1 (pattern : regex) : bool := sets 1 pattern.

Lemma group1_ok (ic : bool) (pattern : regex) (text : str) (mo : rmatch) :
  captures_group1 pattern = true ->
  search ic pattern text = Some mo ->
  exists x, group1 mo = Ok x.
Proof.
  intros Hc Hs. destruct (search_group ic 1 pattern text mo Hc Hs) as [x Hx].
  exists x. unfold group1. rewrite Hx. reflexivity.
Qed.

Lemma patterns_capture_group1 :
  forallb captures_group1
    (invoice_number_patterns ++ amount_patterns ++ experience_patterns
     ++ [account_number_pattern; usage_pattern; company_pattern]) = true.
Proof. vm_compute. reflexivity. Qed.

(** ** The extractors return *)

Lemma extract_with_patterns_returns (text : str) (patterns : list regex) :
  forallb captures_group1 patterns = true ->
  exists r, _extract_with_patterns text patterns = Ok r.
Proof.
  unfold _extract_with_patterns. generalize (lower text) as t. intros t.
  induction patterns as [|p ps IH]; intros Hall; simpl.
  - eauto.
  - simpl in Hall. apply andb_true_iff in Hall as [Hp Hps].
    destruct (search true p t) as [mo|] eqn:E; [|auto].
    destruct (group1_ok _ _ _ _ Hp E) as [x ->]. simpl. eauto.
Qed.

Lemma normalize_date_loop_returns (date_str : str) (fmts : list (list fitem)) :
  exists r, _normalize_date_loop date_str fmts = Ok r.
Proof.
  induction fmts as [|fmt rest IH]; simpl; [eauto|].
  destruct (strptime date_str fmt) as [dt|e] eqn:E; [eauto|].
  apply strptime_raises in E. subst e. exact IH.
Qed.

Lemma extract_date_loop_returns (text : str) (patterns : list regex) :
  exists r, _extract_date_loop text patterns = Ok r.
Proof.
  induction patterns as [|p ps IH]; simpl; [eauto|].
  destruct (search true p text) as [mo|]; [|exact IH].
  destruct (normalize_date_loop_returns (group0 mo) formats) as [n Hn].
  unfold _normalize_date. rewrite Hn. simpl.
  destruct (some_truthy n); [eauto | exact IH].
Qed.

Lemma extract_amount_returns (text : str) :
  exists r, _extract_amount text = Ok r.
Proof.
  unfold _extract_amount. generalize (lower text) as t. intros t.
  assert (Hall : forallb captures_group1 amount_patterns = true)
    by (vm_compute; reflexivity).
  revert Hall. generalize amount_patterns as patterns.
  induction patterns as [|p ps IH]; intros Hall; simpl; [eauto|].
  simpl in Hall. apply andb_true_iff in Hall as [Hp Hps].
  destruct (search true p t) as [mo|] eqn:E; [|auto].
  destruct (group1_ok _ _ _ _ Hp E) as [x ->]. simpl.
  destruct (float_of_str _) as [q|e] eqn:Ef; [eauto|].
  apply float_of_str_raises in Ef. subst e. auto.
Qed.

Lemma extract_company_name_returns (text : str) :
  exists r, _extract_company_name text = Ok r.
Proof.
  unfold _extract_company_name.
  destruct (search false company_pattern text) as [mo|] eqn:E; [|eauto].
  destruct (group1_ok false company_pattern text mo eq_refl E) as [x ->].
  simpl. eauto.
Qed.

Lemma extract_experience_years_returns (text : str) :
  exists r, _extract_experience_years text = Ok r.
Proof.
  unfold _extract_experience_years. generalize (lower text) as t. intros t.
  assert (Hall : forallb captures_group1 experience_patterns = true)
    by (vm_compute; reflexivity).
  revert Hall. generalize experience_patterns as patterns.
  induction patterns as [|p ps IH]; intros Hall; simpl; [eauto|].
  simpl in Hall. apply andb_true_iff in Hall as [Hp Hps].
  destruct (search false p t) as [mo|] eqn:E; [|auto].
  destruct (group1_ok _ _ _ _ Hp E) as [x ->]. simpl.
  destruct (int_of_str x) as [n|e] eqn:Ei; [eauto|].
  apply int_of_str_raises in Ei. subst e. auto.
Qed.

Lemma extract_usage_returns (text : str) :
  exists r, _extract_usage text = Ok r.
Proof.
  unfold _extract_usage.
  destruct (search false usage_pattern (lower text)) as [mo|] eqn:E; [|eauto].
  destruct (group1_ok false usage_pattern _ mo eq_refl E) as [x ->]. simpl.
  destruct (float_of_str x) as [q|e] eqn:Ef; [eauto|].
  apply float_of_str_raises in Ef. subst e. eauto.
Qed.

Lemma extract_invoice_returns (text : str) :
  exists data, _extract_invoice text = Ok data.
Proof.
  unfold _extract_invoice.
  destruct (extract_with_patterns_returns text invoice_number_patterns eq_refl)
    as [n ->].
  destruct (extract_date_loop_returns text date_patterns) as [dt Hd].
  unfold _extract_date. rewrite Hd.
  destruct (extract_company_name_returns text) as [c ->].
  destruct (extract_amount_returns text) as [a ->].
  simpl. eauto.
Qed.

Lemma extract_resume_returns (text : str) :
  exists data, _extract_resume text = Ok data.
Proof.
  unfold _extract_resume.
  destruct (extract_experience_years_returns text) as [y ->].
  simpl. eauto.
Qed.

Lemma extract_utility_bill_returns (text : str) :
  exists data, _extract_utility_bill text = Ok data.
Proof.
  unfold _extract_utility_bill.
  destruct (extract_with_patterns_returns text [account_number_pattern] eq_refl)
    as [n ->].
  destruct (extract_date_loop_returns text date_patterns) as [dt Hd].
  unfold _extract_date. rewrite Hd.
  destruct (extract_usage_returns text) as [u ->].
  destruct (extract_amount_returns text) as [a ->].
  simpl. eauto.
Qed.

(** C5: [extract] is total.  For every text and every label it returns a
    field mapping and raises nothing, and for every label other than
    Invoice, Resume and Utility Bill the mapping is empty. *)
Theorem extract_never_raises (text doc_type : str) :
  (exists data, extract text doc_type = Ok data)
  /\ (doc_type <> lit "Invoice" /\ doc_type <> lit "Resume"
      /\ doc_type <> lit "Utility Bill" ->
      extract text doc_type = Ok ∅).
Proof.
  unfold extract, str_eqb. split.
  - repeat case_bool_decide;
      eauto using extract_invoice_returns, extract_resume_returns,
        extract_utility_bill_returns.
  - intros (H1 & H2 & H3).
    repeat (case_bool_decide; [congruence|]). reflexivity.
Qed.

(** The labels Other and Unclassifiable, and an unknown one, on a text
    full of near-matches. *)
Example extract_other_labels :
  let text := lit "invoice # : total amount: $,,. kwh 99-99-9999 Feb 30, 2023" in
  extract text (lit "Other") = Ok ∅
  /\ extract text (lit "Unclassifiable") = Ok ∅
  /\ extract text (lit "invoice") = Ok ∅.
Proof. vm_compute. repeat split. Qed.

(** ** Date extraction *)

(** The form YYYY-MM-DD: four digits, a hyphen, two digits, a hyphen, two
    digits. *)
Definition is_ymd (s : str) : bool :=
  match s with
  | [y1; y2; y3; y4; h1; m1; m2; h2; d1; d2] =>
      forallb isdigit [y1; y2; y3; y4; m1; m2; d1; d2]
      && Ascii.eqb h1 "-" && Ascii.eqb h2 "-"
  | _ => false
  end.












(** A year below 1000 is written without its leading zeros. *)
Example short_year_is_not_padded :
  _extract_date (lit "dated 0999-01-15") = Ok (Some (lit "999-01-15"))
  /\ _extract_date (lit "dated 01/15/0007") = Ok (Some (lit "7-01-15"))
  /\ is_ymd (lit "999-01-15") = false.
Proof. vm_compute. repeat split. Qed.

(** The four shapes, one text each, and dates that do not exist. *)
Example date_shapes :
  _extract_date (lit "issued 2024-01-15") = Ok (Some (lit "2024-01-15"))
  /\ _extract_date (lit "issued 01/15/2024") = Ok (Some (lit "2024-01-15"))
  /\ _extract_date (lit "issued 15-01-2024") = Ok (Some (lit "2024-01-15"))
  /\ _extract_date (lit "issued January 15, 2024") = Ok (Some (lit "2024-01-15"))
  /\ _extract_date (lit "issued jan 5 2024") = Ok (Some (lit "2024-01-05"))
  /\ _extract_date (lit "issued 2023-02-29") = Ok None
  /\ _extract_date (lit "issued 15/01/2024") = Ok None
  /\ _extract_date (lit "no date here") = Ok None.
Proof. vm_compute. repeat split. Qed.

(** ** The scenarios of the specification *)

Definition field (key : string) (r : exc (gmap str value)) : option value :=
  match r with
  | Ok data => data !! lit key
  | Raise _ => None
  end.

Definition acme_invoice : str :=
  lit "INVOICE #12345 Date: 2024-01-15 Acme Corp Inc. Total Amount: $250.00".

Example extract_acme_invoice :
  let r := extract acme_invoice (lit "Invoice") in
  field "invoice_number" r = Some (VStr (lit "12345"))
  /\ field "date" r = Some (VStr (lit "2024-01-15"))
  /\ field "company" r = Some (VStr (lit "Acme Corp Inc."))
  /\ field "total_amount" r = Some (VFloat 250).
Proof. vm_compute. repeat split. Qed.

Example extract_resume_fields :
  let r := extract (lit "Jane Q Public
jane.public@example.org  (555) 123-4567
10+ years of experience in accounting") (lit "Resume") in
  field "name" r = Some (VStr (lit "Jane Q Public"))
  /\ field "email" r = Some (VStr (lit "jane.public@example.org"))
  /\ field "phone" r = Some (VStr (lit "(555) 123-4567"))
  /\ field "experience_years" r = Some (VInt 10).
Proof. vm_compute. repeat split. Qed.

Example extract_utility_bill_fields :
  let r := extract (lit "Account Number: ab-12, 350.5 kWh used, amount due: $1,234.50 by 03/04/2024")
             (lit "Utility Bill") in
  field "account_number" r = Some (VStr (lit "AB-12"))
  /\ field "date" r = Some (VStr (lit "2024-03-04"))
  /\ field "usage_kwh" r = Some (VFloat (701 # 2))
  /\ field "amount_due" r = Some (VFloat (2469 # 2)).
Proof. vm_compute. repeat split. Qed.

(** A field whose value does not convert, or is zero, is left out. *)
Example extract_omits_fields :
  let r := extract (lit "Invoice total: , and nothing else") (lit "Invoice") in
  field "total_amount" r = None
  /\ field "total_amount" (extract (lit "Invoice total: 0.00") (lit "Invoice")) = None
  /\ field "date" r = None.
Proof. vm_compute. repeat split. Qed.

End ExtractorSpec.

(* ===================================================================== *)
(** * Further properties of the Rule Engine and the orchestrator          *)
(* ===================================================================== *)

Module ClassifierMore.

Import PyFacts Classifier ClassifierSpec.

Open Scope float_scope.

(** [DocumentClassifier.DOCUMENT_TYPES] *)
Definition DOCUMENT_TYPES : list str :=
  map lit ["Invoice"; "Resume"; "Utility Bill"; "Other"; "Unclassifiable"]%string.

(** [DocumentClassifier.classify_batch]: the dictionary of the labels, one
    per file name. *)
Definition classify_batch (classifier : str -> outcome)
    (documents : gmap str str) : gmap str str :=
  map_imap (fun filename text => Some (fst (classify classifier text filename)))
    documents.

(** ** Substrings *)

Lemma contains_spec (sub s : str) :
  contains sub s = true <-> exists before after, s = before ++ sub ++ after.
Proof.
  split.
  - induction s as [|c s IH]; simpl; intros H.
    + rewrite orb_false_r in H. apply startswith_spec in H as [rest ->].
      exists [], rest. reflexivity.
    + apply orb_true_iff in H as [H | H].
      * apply startswith_spec in H as [rest ->]. exists [], rest. reflexivity.
      * destruct (IH H) as (before & after & ->).
        exists (c :: before), after. reflexivity.
  - intros (before & after & ->).
    induction before as [|c before IH].
    + pose proof (startswith_app sub after) as H. cbn [app].
      destruct (sub ++ after); simpl; rewrite H; reflexivity.
    + cbn [app contains]. rewrite IH. apply orb_true_r.
Qed.

Lemma contains_trans (a b s : str) :
  contains a b = true -> contains b s = true -> contains a s = true.
Proof.
  intros Hab Hbs.
  apply contains_spec in Hab as (p1 & q1 & ->).
  apply contains_spec in Hbs as (p2 & q2 & ->).
  apply contains_spec. exists (p2 ++ p1), (q1 ++ q2).
  rewrite <- !app_assoc. reflexivity.
Qed.

Lemma contains_extend (sub s before after : str) :
  contains sub s = true -> contains sub (before ++ s ++ after) = true.
Proof.
  intros H. apply (contains_trans sub s); [exact H|].
  apply contains_spec. exists before, after. reflexivity.
Qed.

Lemma keyword_count_extend (keywords : list str) (s before after : str) :
  (keyword_count keywords s <= keyword_count keywords (before ++ s ++ after))%nat.
Proof.
  induction keywords as [|kw kws IH]; [reflexivity|].
  rewrite !keyword_count_cons.
  destruct (contains kw s) eqn:E.
  - rewrite (contains_extend _ _ before after E). lia.
  - destruct (contains kw (before ++ s ++ after)); lia.
Qed.

Lemma lower_char_idempotent (c : ascii) :
  lower_char (lower_char c) = lower_char c.
Proof. destruct c as [[] [] [] [] [] [] [] []]; reflexivity. Qed.

Lemma lower_idempotent (s : str) : lower (lower s) = lower s.
Proof.
  unfold lower. rewrite map_map. apply map_ext. apply lower_char_idempotent.
Qed.

Lemma lower_app (a b : str) : lower (a ++ b) = lower a ++ lower b.
Proof. apply map_app. Qed.

(** ** The labels that can come out *)

Lemma apply_rules_range (text label : str) (confidence : float) :
  In (_apply_rules text label confidence)
     [lit "Invoice"; lit "Resume"; lit "Utility Bill"; lit "Other"; label].
Proof.
  unfold _apply_rules.
  repeat match goal with
         | |- context [if ?b then _ else _] => destruct b
         end; simpl; auto 6.
Qed.

(** X1: when the label the external classifier ranks first is one of the
    five document types (it is given these as its candidate labels), the
    label [classify] returns is one of the five document types, whatever
    the classifier does otherwise. *)
Theorem classify_label_is_document_type
    (classifier : str -> outcome) (text filename : str) :
  (forall label labels scores,
      classifier (take 2000 text) = Returns (label :: labels) scores ->
      In label DOCUMENT_TYPES) ->
  In (fst (classify classifier text filename)) DOCUMENT_TYPES.
Proof.
  intros Htop. unfold classify, classify_try.
  destruct (negb (truthy text) || _); [simpl; auto 6|].
  destruct (classifier (take 2000 text)) as [e|labels scores] eqn:E;
    [simpl; auto 6|].
  destruct labels as [|l labels]; [simpl; auto 6|].
  destruct scores as [|c scores]; [simpl; auto 6|].
  destruct (c <? 0.3); [simpl; auto 6|].
  cbn [fst].
  pose proof (Htop _ _ _ eq_refl) as Hl.
  destruct (apply_rules_range text l c) as [<- | [<- | [<- | [<- | [<- | []]]]]];
    simpl; auto 6.
Qed.

Lemma classify_label_is_document_type_witness :
  In (fst (classify sure_other padded_invoice (lit "f.pdf"))) DOCUMENT_TYPES.
Proof.
  apply (classify_label_is_document_type sure_other padded_invoice (lit "f.pdf")).
  intros label labels scores H. injection H as <- _ _. simpl. auto.
Defined.

(** X2: when the text holds at least three Invoice keywords and at least
    three Resume keywords, the Rule Engine never returns the label it was
    given: [Invoice] becomes [Resume] and every other label becomes
    [Invoice], whatever the confidence. *)
Theorem apply_rules_two_strong_categories
    (text label : str) (confidence : float) :
  (3 <= keyword_count invoice_keywords (lower text))%nat ->
  (3 <= keyword_count resume_keywords (lower text))%nat ->
  _apply_rules text label confidence
  = (if str_eqb label (lit "Invoice") then lit "Resume" else lit "Invoice")
  /\ _apply_rules text label confidence <> label.
Proof.
  intros Hi Hr. apply Nat.leb_le in Hi, Hr.
  unfold _apply_rules. rewrite Hi, Hr. cbn [andb].
  unfold str_eqb.
  destruct (bool_decide (label = lit "Invoice")) eqn:E; cbn [negb].
  - apply bool_decide_eq_true in E. subst label.
    split; [reflexivity | discriminate].
  - apply bool_decide_eq_false in E.
    split; [reflexivity | congruence].
Qed.

Definition invoice_and_resume : str :=
  lit "Invoice, subtotal and tax. Resume: education and skills.".

Lemma apply_rules_two_strong_categories_witness :
  _apply_rules invoice_and_resume (lit "Invoice") 0.95 = lit "Resume"
  /\ _apply_rules invoice_and_resume (lit "Invoice") 0.95 <> lit "Invoice".
Proof.
  apply (apply_rules_two_strong_categories invoice_and_resume (lit "Invoice") 0.95);
    vm_compute; lia.
Defined.

(** X3: the Rule Engine reads the text only through its lower-cased form:
    two texts with the same lower-cased form get the same label, and
    lower-casing a text beforehand changes nothing. *)
Theorem apply_rules_case_insensitive
    (text text' label : str) (confidence : float) :
  (lower text = lower text' ->
   _apply_rules text label confidence = _apply_rules text' label confidence)
  /\ _apply_rules (lower text) label confidence
     = _apply_rules text label confidence.
Proof.
  assert (H : forall t t', lower t = lower t' ->
                _apply_rules t label confidence
                = _apply_rules t' label confidence).
  { intros t t' E. unfold _apply_rules. rewrite E. reflexivity. }
  split; [apply H|]. apply H. apply lower_idempotent.
Qed.

Lemma apply_rules_case_insensitive_witness :
  _apply_rules (lit "INVOICE, Subtotal, TAX") (lit "Other") 0.9
  = _apply_rules (lit "invoice, subtotal, tax") (lit "Other") 0.9.
Proof.
  apply (proj1 (apply_rules_case_insensitive
                  (lit "INVOICE, Subtotal, TAX") (lit "invoice, subtotal, tax")
                  (lit "Other") 0.9)).
  reflexivity.
Defined.

(** X4: an override to [Invoice] survives any text put before or after:
    when a text holds at least three Invoice keywords and the label is not
    [Invoice], every text that contains it is labelled [Invoice]. *)
Theorem invoice_override_stable
    (text before after label : str) (confidence : float) :
  (3 <= keyword_count invoice_keywords (lower text))%nat ->
  label <> lit "Invoice" ->
  _apply_rules (before ++ text ++ after) label confidence = lit "Invoice".
Proof.
  intros Hc Hl. unfold _apply_rules.
  rewrite !lower_app.
  pose proof (keyword_count_extend invoice_keywords (lower text)
                (lower before) (lower after)) as Hm.
  assert (Hi : (3 <=? keyword_count invoice_keywords
                        (lower before ++ lower text ++ lower after))%nat = true)
    by (apply Nat.leb_le; lia).
  rewrite Hi. unfold str_eqb. rewrite bool_decide_eq_false_2 by exact Hl.
  reflexivity.
Qed.

Lemma invoice_override_stable_witness :
  _apply_rules (lit "Resume, education and skills. "
                ++ lit "Invoice, subtotal, tax" ++ lit " - employment")
    (lit "Resume") 0.9 = lit "Invoice".
Proof.
  apply (invoice_override_stable (lit "Invoice, subtotal, tax")).
  - vm_compute. lia.
  - discriminate.
Defined.

(** X5: some keywords lie inside others, so one phrase counts twice: a
    text that contains "invoice number" or "invoice #" has an Invoice
    count of at least 2, one that contains both has at least 3, and a
    text that contains "electricity" has a Utility Bill count of at
    least 2. *)
Theorem nested_keywords_count_twice (text_lower : str) :
  (contains (lit "invoice number") text_lower = true ->
   (2 <= keyword_count invoice_keywords text_lower)%nat)
  /\ (contains (lit "invoice #") text_lower = true ->
      (2 <= keyword_count invoice_keywords text_lower)%nat)
  /\ (contains (lit "invoice number") text_lower = true ->
      contains (lit "invoice #") text_lower = true ->
      (3 <= keyword_count invoice_keywords text_lower)%nat)
  /\ (contains (lit "electricity") text_lower = true ->
      (2 <= keyword_count utility_keywords text_lower)%nat).
Proof.
  assert (Hin : forall phrase,
             contains (lit "invoice") phrase = true ->
             contains phrase text_lower = true ->
             contains (lit "invoice") text_lower = true)
    by (intros phrase; apply contains_trans).
  assert (Hel : contains (lit "electricity") text_lower = true ->
                contains (lit "electric") text_lower = true)
    by (apply contains_trans; reflexivity).
  unfold invoice_keywords, utility_keywords. cbn [map].
  repeat split.
  - intros H. do 2 rewrite keyword_count_cons.
    rewrite (Hin (lit "invoice number") eq_refl H), H. cbv iota. lia.
  - intros H. do 3 rewrite keyword_count_cons.
    rewrite (Hin (lit "invoice #") eq_refl H), H. cbv iota.
    destruct (contains _ text_lower); lia.
  - intros H1 H2. do 3 rewrite keyword_count_cons.
    rewrite (Hin (lit "invoice number") eq_refl H1), H1, H2. cbv iota. lia.
  - intros H. do 3 rewrite keyword_count_cons.
    rewrite (Hel H), H. cbv iota.
    destruct (contains _ text_lower); lia.
Qed.

Lemma nested_keywords_count_twice_witness :
  (3 <= keyword_count invoice_keywords
          (lit "invoice number 7, invoice # 7, electricity"))%nat
  /\ (2 <= keyword_count utility_keywords
            (lit "invoice number 7, invoice # 7, electricity"))%nat.
Proof.
  destruct (nested_keywords_count_twice
              (lit "invoice number 7, invoice # 7, electricity"))
    as (_ & _ & Hboth & Hel).
  split; [apply Hboth; reflexivity | apply Hel; reflexivity].
Defined.

Close Scope float_scope.

End ClassifierMore.

(* ===================================================================== *)
(** * What a match consumes                                               *)
(* ===================================================================== *)

Module ReSound.

Import Re.

(** All characters. *)
Definition all_ascii : list ascii := map ascii_of_nat (List.seq 0 256).

Lemma in_all_ascii (c : ascii) : In c all_ascii.
Proof.
  unfold all_ascii. rewrite <- (ascii_nat_embedding c).
  apply in_map. apply in_seq. pose proof (nat_ascii_bounded c). lia.
Qed.

Section Sound.

Variable ic : bool.
Context {R : Type}.

(** A property of characters, a character and a group that are followed
    through a match. *)
Variable P : ascii -> bool.
Variable c0 : ascii.
Variable g : nat.

(** Every character [r] can consume satisfies [P]. *)
Fixpoint all_chars (r : regex) : bool :=
  match r with
  | Eps | WordB => true
  | Chr a => forallb (fun c => implb (chr_match ic a c) (P c)) all_ascii
  | Cls items => forallb (fun c => implb (cls_match ic items c) (P c)) all_ascii
  | Cat r1 r2 | Alt r1 r2 => all_chars r1 && all_chars r2
  | Rep r' _ _ | Grp _ r' => all_chars r'
  end.

(** Every match of [r] consumes the character [c0]. *)
Fixpoint must (r : regex) : bool :=
  match r with
  | Eps | WordB | Cls _ => false
  | Chr a => forallb (fun c => implb (chr_match ic a c) (Ascii.eqb c c0)) all_ascii
  | Cat r1 r2 => must r1 || must r2
  | Alt r1 r2 => must r1 && must r2
  | Rep r' lo _ => (1 <=? lo)%nat && must r'
  | Grp _ r' => must r'
  end.

(** Every character group [g] of [r] can capture satisfies [P]. *)
Fixpoint grp_chars (r : regex) : bool :=
  match r with
  | Eps | WordB | Chr _ | Cls _ => true
  | Cat r1 r2 | Alt r1 r2 => grp_chars r1 && grp_chars r2
  | Rep r' _ _ => grp_chars r'
  | Grp g' r' => (if (g =? g')%nat then all_chars r' else true) && grp_chars r'
  end.

Definition good (caps : captures) : Prop :=
  forall x, group_of g caps = Some x -> forallb P x = true.

(** The continuation [k] has answered [x] after [r] consumed [pre]. *)
Definition consumed_by (r : regex) (s : str) (caps : captures)
    (k : @cont R) (x : R) (also : bool) : Prop :=
  exists pre prev' s' caps',
    s = pre ++ s'
    /\ k prev' s' caps' = Some x
    /\ (all_chars r = true -> forallb P pre = true)
    /\ (also = true -> In c0 pre)
    /\ (grp_chars r = true -> good caps -> good caps').

Lemma forallb_all_ascii (f : ascii -> bool) (c : ascii) :
  forallb f all_ascii = true -> f c = true.
Proof. intros H. apply (proj1 (forallb_forall _ _) H). apply in_all_ascii. Qed.

Lemma take_consumed (pre s' : str) :
  take (length (pre ++ s') - length s') (pre ++ s') = pre.
Proof.
  rewrite length_app. replace (length pre + length s' - length s') with (length pre) by lia.
  apply take_app_length.
Qed.

Lemma good_cons (g' : nat) (x : str) (caps : captures) :
  ((g =? g')%nat = true -> forallb P x = true) -> good caps ->
  good ((g', x) :: caps).
Proof.
  intros Hx Hc y. simpl. destruct (g =? g')%nat.
  - intros [= <-]. auto.
  - apply Hc.
Qed.

(** Repetition, given that its body is sound. *)
Lemma rep_loop_sound
    (body : option ascii -> str -> captures -> @cont R -> option R)
    (r' : regex) (lo : nat) (hi : option nat) (k : @cont R) (x : R) :
  (forall prev s caps k',
      body prev s caps k' = Some x -> consumed_by r' s caps k' x (must r')) ->
  forall fuel i prev s caps,
    rep_loop body lo hi k fuel i prev s caps = Some x ->
    exists pre prev' s' caps',
      s = pre ++ s'
      /\ k prev' s' caps' = Some x
      /\ (all_chars r' = true -> forallb P pre = true)
      /\ ((i <? lo)%nat && must r' = true -> In c0 pre)
      /\ (grp_chars r' = true -> good caps -> good caps').
Proof.
  intros Hbody.
  assert (Hstop : forall i prev s caps,
             (if (lo <=? i)%nat then k prev s caps else None) = Some x ->
             exists pre prev' s' caps',
               s = pre ++ s'
               /\ k prev' s' caps' = Some x
               /\ (all_chars r' = true -> forallb P pre = true)
               /\ ((i <? lo)%nat && must r' = true -> In c0 pre)
               /\ (grp_chars r' = true -> good caps -> good caps')).
  { intros i prev s caps H.
    destruct (lo <=? i)%nat eqn:Hlo; [|discriminate].
    exists [], prev, s, caps. repeat split; auto.
    intros Hm. apply andb_true_iff in Hm as [Hm _].
    apply Nat.leb_le in Hlo. apply Nat.ltb_lt in Hm. lia. }
  induction fuel as [|fuel IH]; intros i prev s caps H; simpl in H.
  - apply Hstop with (prev := prev). exact H.
  - destruct (more i hi); [|apply Hstop with (prev := prev); exact H].
    match type of H with
    | match ?call with _ => _ end = _ => destruct call as [y|] eqn:Hcall
    end; [|apply Hstop with (prev := prev); exact H].
    injection H as ->.
    destruct (Hbody _ _ _ _ Hcall)
      as (pre1 & p1 & s1 & c1 & -> & Hk & Hall1 & Hmust1 & Hgood1).
    destruct (length s1 <? length (pre1 ++ s1))%nat; [|discriminate].
    destruct (IH (S i) p1 s1 c1 Hk)
      as (pre2 & p2 & s2 & c2 & -> & Hk2 & Hall2 & Hmust2 & Hgood2).
    exists (pre1 ++ pre2), p2, s2, c2.
    split; [apply app_assoc|]. split; [exact Hk2|]. split; [|split].
    + intros Ha. rewrite forallb_app, Hall1, Hall2 by exact Ha. reflexivity.
    + intros Hm. apply andb_true_iff in Hm as [_ Hm].
      apply in_or_app. left. auto.
    + auto.
Qed.

(** A successful match has consumed a prefix of the subject, then called
    its continuation on the rest. *)
Lemma m_sound (r : regex) :
  forall prev s caps (k : @cont R) x,
    m ic r prev s caps k = Some x -> consumed_by r s caps k x (must r).
Proof.
  induction r as [ | a | items | r1 IH1 r2 IH2 | r1 IH1 r2 IH2
                   | r' IH lo hi | g' r' IH | ];
    intros prev s caps k x H; simpl in H.
  - exists [], prev, s, caps. repeat split; auto. discriminate.
  - destruct s as [|c s]; [discriminate|].
    destruct (chr_match ic a c) eqn:E; [|discriminate].
    exists [c], (Some c), s, caps. repeat split; auto.
    + cbn [all_chars]. intros Ha.
      apply (forallb_all_ascii _ c) in Ha. cbv beta in Ha.
      rewrite E in Ha. cbn [implb] in Ha. cbn [forallb]. rewrite Ha. reflexivity.
    + cbn [must]. intros Ha.
      apply (forallb_all_ascii _ c) in Ha. cbv beta in Ha.
      rewrite E in Ha. cbn [implb] in Ha.
      apply Ascii.eqb_eq in Ha. left. exact Ha.
  - destruct s as [|c s]; [discriminate|].
    destruct (cls_match ic items c) eqn:E; [|discriminate].
    exists [c], (Some c), s, caps. repeat split; auto.
    + cbn [all_chars]. intros Ha.
      apply (forallb_all_ascii _ c) in Ha. cbv beta in Ha.
      rewrite E in Ha. cbn [implb] in Ha. cbn [forallb]. rewrite Ha. reflexivity.
    + discriminate.
  - destruct (IH1 _ _ _ _ _ H)
      as (pre1 & p1 & s1 & c1 & -> & H1 & Hall1 & Hmust1 & Hgood1).
    destruct (IH2 _ _ _ _ _ H1)
      as (pre2 & p2 & s2 & c2 & -> & H2 & Hall2 & Hmust2 & Hgood2).
    exists (pre1 ++ pre2), p2, s2, c2.
    split; [apply app_assoc|]. split; [exact H2|]. cbn [all_chars must grp_chars].
    split; [|split].
    + intros Ha. apply andb_true_iff in Ha as [Ha1 Ha2].
      rewrite forallb_app, Hall1, Hall2 by assumption. reflexivity.
    + intros Hm. apply in_or_app.
      apply orb_true_iff in Hm as [Hm | Hm]; auto.
    + intros Hg. apply andb_true_iff in Hg as [Hg1 Hg2]. auto.
  - cbn [all_chars must grp_chars].
    destruct (m ic r1 prev s caps k) as [y|] eqn:E1.
    + injection H as ->.
      destruct (IH1 _ _ _ _ _ E1)
        as (pre1 & p1 & s1 & c1 & -> & H1 & Hall1 & Hmust1 & Hgood1).
      exists pre1, p1, s1, c1. repeat split; auto.
      * intros Ha. apply andb_true_iff in Ha as [Ha _]. auto.
      * intros Hm. apply andb_true_iff in Hm as [Hm _]. auto.
      * intros Hg. apply andb_true_iff in Hg as [Hg _]. auto.
    + destruct (IH2 _ _ _ _ _ H)
        as (pre2 & p2 & s2 & c2 & -> & H2 & Hall2 & Hmust2 & Hgood2).
      exists pre2, p2, s2, c2. repeat split; auto.
      * intros Ha. apply andb_true_iff in Ha as [_ Ha]. auto.
      * intros Hm. apply andb_true_iff in Hm as [_ Hm]. auto.
      * intros Hg. apply andb_true_iff in Hg as [_ Hg]. auto.
  - destruct (rep_loop_sound (m ic r') r' lo hi k x
                (fun p s0 c k' Hb => IH p s0 c k' x Hb) _ _ _ _ _ H)
      as (pre & p1 & s1 & c1 & -> & Hk & Hall & Hmust & Hgood).
    exists pre, p1, s1, c1. repeat split; auto.
  - destruct (IH _ _ _ _ _ H)
      as (pre & p1 & s1 & c1 & -> & Hk & Hall & Hmust & Hgood).
    rewrite take_consumed in Hk.
    exists pre, p1, s1, ((g', pre) :: c1). cbn [all_chars must grp_chars].
    repeat split; auto.
    intros Hg Hc. apply andb_true_iff in Hg as [Hg1 Hg2].
    apply good_cons; [|auto].
    intros Hgg. rewrite Hgg in Hg1. auto.
  - destruct (at_boundary prev s); [|discriminate].
    exists [], prev, s, caps. repeat split; auto. discriminate.
Qed.

End Sound.

(** The match object of a search: the whole match is a piece of the
    text, made of characters the pattern can consume. *)
Lemma match_at_sound (ic : bool) (P : ascii -> bool) (c0 : ascii) (g : nat)
    (r : regex) (prev : option ascii) (s : str) (mo : rmatch) :
  match_at ic r prev s = Some mo ->
  exists after,
    s = group0 mo ++ after
    /\ consumed mo = length (group0 mo)
    /\ (all_chars ic P r = true -> forallb P (group0 mo) = true)
    /\ (must ic c0 r = true -> In c0 (group0 mo))
    /\ (grp_chars ic P g r = true ->
        forall x, group g mo = Some x -> forallb P x = true).
Proof.
  unfold match_at. intros H.
  destruct (m_sound ic P c0 g r _ _ _ _ _ H)
    as (pre & p1 & s1 & c1 & -> & Hk & Hall & Hmust & Hgood).
  rewrite take_consumed in Hk.
  rewrite length_app in Hk.
  replace (length pre + length s1 - length s1) with (length pre) in Hk by lia.
  injection Hk as <-. cbn [group0 consumed]. unfold group. cbn [groups].
  exists s1. repeat split; auto.
  intros Hg. apply Hgood; [exact Hg|]. intros x. discriminate.
Qed.

Lemma search_from_sound (ic : bool) (P : ascii -> bool) (c0 : ascii) (g : nat)
    (r : regex) (s : str) :
  forall prev mo,
    search_from ic r prev s = Some mo ->
    exists before after,
      s = before ++ group0 mo ++ after
      /\ (all_chars ic P r = true -> forallb P (group0 mo) = true)
      /\ (must ic c0 r = true -> In c0 (group0 mo))
      /\ (grp_chars ic P g r = true ->
          forall x, group g mo = Some x -> forallb P x = true).
Proof.
  induction s as [|c s IH]; intros prev mo H; simpl in H.
  - destruct (match_at ic r prev []) as [mo'|] eqn:E; [|discriminate].
    injection H as <-.
    destruct (match_at_sound ic P c0 g _ _ _ _ E) as (after & Hs & _ & Hrest).
    exists [], after. split; [exact Hs | exact Hrest].
  - destruct (match_at ic r prev (c :: s)) as [mo'|] eqn:E.
    + injection H as <-.
      destruct (match_at_sound ic P c0 g _ _ _ _ E) as (after & Hs & _ & Hrest).
      exists [], after. split; [exact Hs | exact Hrest].
    + destruct (IH _ _ H) as (before & after & -> & Hrest).
      exists (c :: before), after. split; [reflexivity | exact Hrest].
Qed.

Lemma search_sound (ic : bool) (P : ascii -> bool) (c0 : ascii) (g : nat)
    (r : regex) (text : str) (mo : rmatch) :
  search ic r text = Some mo ->
  exists before after,
    text = before ++ group0 mo ++ after
    /\ (all_chars ic P r = true -> forallb P (group0 mo) = true)
    /\ (must ic c0 r = true -> In c0 (group0 mo))
    /\ (grp_chars ic P g r = true ->
        forall x, group g mo = Some x -> forallb P x = true).
Proof. apply search_from_sound. Qed.

End ReSound.

(* ===================================================================== *)
(** * Further properties of the extraction cascade                        *)
(* ===================================================================== *)

Module ExtractorMore.

Import PyFacts Re ReFacts ReSound Datetime Extractor ExtractorSpec.

(** [v] occurs in [text] as a contiguous piece. *)
Definition substring (v text : str) : Prop :=
  exists before after, text = before ++ v ++ after.

Lemma substring_refl (s : str) : substring s s.
Proof. exists [], []. rewrite app_nil_r. reflexivity. Qed.

Lemma substring_trans (a b c : str) :
  substring a b -> substring b c -> substring a c.
Proof.
  intros (p1 & q1 & ->) (p2 & q2 & ->).
  exists (p2 ++ p1), (q1 ++ q2). rewrite <- !app_assoc. reflexivity.
Qed.

(** ** Stripping *)

Lemma lstrip_split (s : str) :
  exists ws, s = ws ++ lstrip s /\ forallb isspace ws = true.
Proof.
  induction s as [|c s IH]; simpl.
  - exists []. split; reflexivity.
  - destruct (isspace c) eqn:E.
    + destruct IH as (ws & Hs & Hw). exists (c :: ws). split.
      * simpl. rewrite <- Hs. reflexivity.
      * simpl. rewrite E, Hw. reflexivity.
    + exists []. split; reflexivity.
Qed.

Lemma rstrip_split (s : str) :
  exists ws, s = rstrip s ++ ws /\ forallb isspace ws = true.
Proof.
  unfold rstrip. destruct (lstrip_split (rev s)) as (ws & Hs & Hw).
  exists (rev ws). split.
  - rewrite <- rev_app_distr, <- Hs, rev_involutive. reflexivity.
  - rewrite forallb_forall in *. intros c Hc. apply Hw.
    apply in_rev. exact Hc.
Qed.

Lemma strip_split (s : str) :
  exists before after,
    s = before ++ strip s ++ after
    /\ forallb isspace before = true /\ forallb isspace after = true.
Proof.
  unfold strip.
  destruct (lstrip_split s) as (before & Hs & Hb).
  destruct (rstrip_split (lstrip s)) as (after & Hl & Ha).
  exists before, after. split; [|split; assumption].
  rewrite <- Hl. exact Hs.
Qed.

Lemma strip_substring (s : str) : substring (strip s) s.
Proof. destruct (strip_split s) as (b & a & H & _). exists b, a. exact H. Qed.

Lemma forallb_strip (P : ascii -> bool) (s : str) :
  forallb P s = true -> forallb P (strip s) = true.
Proof.
  intros H. destruct (strip_split s) as (b & a & Hs & _).
  rewrite Hs in H. rewrite !forallb_app in H.
  apply andb_true_iff in H as [_ H]. apply andb_true_iff in H as [H _].
  exact H.
Qed.

(** ** Lines *)

Lemma substring_cons (c : ascii) (v s : str) :
  substring v s -> substring v (c :: s).
Proof. intros (b & a & ->). exists (c :: b), a. reflexivity. Qed.

Lemma split_on_pieces (sep : ascii) (s : str) :
  match split_on sep s with
  | [] => True
  | h :: t =>
      (exists after, s = h ++ after)
      /\ forall line, In line t -> substring line s
  end.
Proof.
  induction s as [|c s IH]; simpl.
  - split; [exists []; reflexivity | intros line []].
  - destruct (Ascii.eqb c sep).
    + split; [exists (c :: s); reflexivity|].
      intros line Hin. apply substring_cons.
      destruct (split_on sep s) as [|h t]; [destruct Hin|].
      destruct IH as [[after Hh] Ht].
      destruct Hin as [<- | Hin]; [|auto].
      exists [], after. exact Hh.
    + destruct (split_on sep s) as [|h t].
      * split; [exists s; reflexivity | intros line []].
      * destruct IH as [[after Hh] Ht]. split.
        -- exists after. simpl. rewrite <- Hh. reflexivity.
        -- intros line Hin. apply substring_cons. auto.
Qed.

Lemma split_on_substring (sep : ascii) (s line : str) :
  In line (split_on sep s) -> substring line s.
Proof.
  intros Hin. pose proof (split_on_pieces sep s) as H.
  destruct (split_on sep s) as [|h t]; [destruct Hin|].
  destruct H as [[after Hh] Ht].
  destruct Hin as [<- | Hin]; [|auto].
  exists [], after. exact Hh.
Qed.

(** ** Records *)

Lemma lookup_set_if {A} (truth : A -> bool) (key : string) (x : option A)
    (f : A -> value) (data : gmap str value) (k : str) (v : value) :
  set_if truth key x f data !! k = Some v ->
  (k = lit key /\ exists a, x = Some a /\ truth a = true /\ v = f a)
  \/ data !! k = Some v.
Proof.
  unfold set_if. destruct x as [a|]; [|auto].
  destruct (truth a) eqn:E; [|auto].
  destruct (decide (lit key = k)) as [<- | Hne].
  - rewrite lookup_insert_eq. intros [= <-]. left. eauto.
  - rewrite lookup_insert_ne by exact Hne. auto.
Qed.

(** The four steps of each extractor, laid bare. *)
Lemma extract_invoice_inv (text : str) (data : gmap str value) :
  _extract_invoice text = Ok data ->
  exists n d c a,
    _extract_with_patterns text invoice_number_patterns = Ok n
    /\ _extract_date text = Ok d
    /\ _extract_company_name text = Ok c
    /\ _extract_amount text = Ok a
    /\ data = set_if float_truthy "total_amount" a VFloat
                (set_if truthy "company" c VStr
                   (set_if truthy "date" d VStr
                      (set_if truthy "invoice_number" n
                         (fun x => VStr (upper x)) ∅))).
Proof.
  unfold _extract_invoice. intros H.
  destruct (_extract_with_patterns text invoice_number_patterns) as [n|];
    [|discriminate].
  destruct (_extract_date text) as [d|]; [|discriminate].
  destruct (_extract_company_name text) as [c|]; [|discriminate].
  destruct (_extract_amount text) as [a|]; [|discriminate].
  injection H as <-. exists n, d, c, a. repeat split; reflexivity.
Qed.

Lemma extract_resume_inv (text : str) (data : gmap str value) :
  _extract_resume text = Ok data ->
  exists y,
    _extract_experience_years text = Ok y
    /\ data = set_if int_truthy "experience_years" y VInt
                (set_if truthy "phone" (_extract_phone text) VStr
                   (set_if truthy "email" (_extract_email text) VStr
                      (set_if truthy "name" (_extract_name text) VStr ∅))).
Proof.
  unfold _extract_resume. intros H.
  destruct (_extract_experience_years text) as [y|]; [|discriminate].
  injection H as <-. exists y. split; reflexivity.
Qed.

Lemma extract_utility_bill_inv (text : str) (data : gmap str value) :
  _extract_utility_bill text = Ok data ->
  exists n d u a,
    _extract_with_patterns text [account_number_pattern] = Ok n
    /\ _extract_date text = Ok d
    /\ _extract_usage text = Ok u
    /\ _extract_amount text = Ok a
    /\ data = set_if float_truthy "amount_due" a VFloat
                (set_if float_truthy "usage_kwh" u VFloat
                   (set_if truthy "date" d VStr
                      (set_if truthy "account_number" n
                         (fun x => VStr (upper x)) ∅))).
Proof.
  unfold _extract_utility_bill. intros H.
  destruct (_extract_with_patterns text [account_number_pattern]) as [n|];
    [|discriminate].
  destruct (_extract_date text) as [d|]; [|discriminate].
  destruct (_extract_usage text) as [u|]; [|discriminate].
  destruct (_extract_amount text) as [a|]; [|discriminate].
  injection H as <-. exists n, d, u, a. repeat split; reflexivity.
Qed.

(** The cases of [extract]. *)
Lemma extract_cases (text doc_type : str) (data : gmap str value) :
  extract text doc_type = Ok data ->
  (doc_type = lit "Invoice" /\ _extract_invoice text = Ok data)
  \/ (doc_type = lit "Resume" /\ _extract_resume text = Ok data)
  \/ (doc_type = lit "Utility Bill" /\ _extract_utility_bill text = Ok data)
  \/ (doc_type <> lit "Invoice" /\ doc_type <> lit "Resume"
      /\ doc_type <> lit "Utility Bill" /\ data = ∅).
Proof.
  unfold extract, str_eqb. intros H.
  repeat case_bool_decide; auto.
  injection H as <-. auto 10.
Qed.

Lemma extract_returns (text doc_type : str) :
  exists data, extract text doc_type = Ok data.
Proof.
  unfold extract, str_eqb.
  repeat case_bool_decide;
    eauto using extract_invoice_returns, extract_resume_returns,
      extract_utility_bill_returns.
Qed.

(** The field names of each document type. *)
Definition field_names (doc_type : str) : list str :=
  if str_eqb doc_type (lit "Invoice") then
    map lit ["invoice_number"; "date"; "company"; "total_amount"]%string
  else if str_eqb doc_type (lit "Resume") then
    map lit ["name"; "email"; "phone"; "experience_years"]%string
  else if str_eqb doc_type (lit "Utility Bill") then
    map lit ["account_number"; "date"; "usage_kwh"; "amount_due"]%string
  else [].

Ltac neq_lit := let E := fresh in intros E; vm_compute in E; discriminate E.

Ltac invert_lookup H :=
  repeat match type of H with
         | set_if _ _ _ _ _ !! _ = Some _ =>
             apply lookup_set_if in H as [(-> & ? & ? & ? & ->) | H]
         | ∅ !! _ = Some _ => rewrite lookup_empty in H; discriminate H
         end.

(** No field is called "class", "filename" or "index_name". *)
Lemma extract_not_reserved (text doc_type : str) (data : gmap str value)
    (k : str) (v : value) :
  extract text doc_type = Ok data ->
  data !! k = Some v ->
  k <> lit "class" /\ k <> lit "filename" /\ k <> lit "index_name".
Proof.
  intros He Hk.
  destruct (extract_cases _ _ _ He)
    as [[-> H] | [[-> H] | [[-> H] | (_ & _ & _ & ->)]]].
  - apply extract_invoice_inv in H as (n & d & c & a & _ & _ & _ & _ & ->).
    invert_lookup Hk; repeat split; neq_lit.
  - apply extract_resume_inv in H as (y & _ & ->).
    invert_lookup Hk; repeat split; neq_lit.
  - apply extract_utility_bill_inv in H as (n & d & u & a & _ & _ & _ & _ & ->).
    invert_lookup Hk; repeat split; neq_lit.
  - rewrite lookup_empty in Hk. discriminate Hk.
Qed.

(** X6: the record [extract] returns has only fields of the document
    type: the four Invoice fields for an Invoice, the four Resume fields
    for a Resume, the four Utility Bill fields for a Utility Bill, and no
    field for any other label; in particular never "class", "filename" or
    "index_name". *)
Theorem extract_fields_of_type (text doc_type : str) (data : gmap str value)
    (k : str) (v : value) :
  extract text doc_type = Ok data ->
  data !! k = Some v ->
  In k (field_names doc_type)
  /\ k <> lit "class" /\ k <> lit "filename" /\ k <> lit "index_name".
Proof.
  intros He Hk.
  destruct (extract_cases _ _ _ He)
    as [[-> H] | [[-> H] | [[-> H] | (_ & _ & _ & ->)]]].
  - apply extract_invoice_inv in H as (n & d & c & a & _ & _ & _ & _ & ->).
    invert_lookup Hk; (split; [vm_compute; auto 6 | repeat split; neq_lit]).
  - apply extract_resume_inv in H as (y & _ & ->).
    invert_lookup Hk; (split; [vm_compute; auto 6 | repeat split; neq_lit]).
  - apply extract_utility_bill_inv in H as (n & d & u & a & _ & _ & _ & _ & ->).
    invert_lookup Hk; (split; [vm_compute; auto 6 | repeat split; neq_lit]).
  - rewrite lookup_empty in Hk. discriminate Hk.
Qed.

Lemma extract_fields_of_type_witness :
  In (lit "company") (field_names (lit "Invoice"))
  /\ lit "company" <> lit "class" /\ lit "company" <> lit "filename"
  /\ lit "company" <> lit "index_name".
Proof.
  assert (Hf : field "company" (extract acme_invoice (lit "Invoice"))
               = Some (VStr (lit "Acme Corp Inc.")))
    by (vm_compute; reflexivity).
  destruct (extract acme_invoice (lit "Invoice")) as [data|e] eqn:He;
    [|discriminate Hf].
  exact (extract_fields_of_type acme_invoice (lit "Invoice") data
           (lit "company") (VStr (lit "Acme Corp Inc.")) He Hf).
Defined.

(** ** Where the values come from *)

Lemma extract_with_patterns_inv (text : str) (patterns : list regex) (v : str) :
  _extract_with_patterns text patterns = Ok (Some v) ->
  exists p mo g,
    In p patterns /\ search true p (lower text) = Some mo
    /\ group 1 mo = Some g /\ v = strip g.
Proof.
  unfold _extract_with_patterns. generalize (lower text) as t. intros t.
  induction patterns as [|p ps IH]; simpl; [discriminate|].
  destruct (search true p t) as [mo|] eqn:E.
  - unfold group1. destruct (group 1 mo) as [g|] eqn:Eg; [|discriminate].
    simpl. intros [= <-]. exists p, mo, g. auto.
  - intros H. destruct (IH H) as (p' & mo & g & Hin & Hrest).
    exists p', mo, g. auto.
Qed.

Lemma extract_experience_years_inv (text : str) (z : Z) :
  _extract_experience_years text = Ok (Some z) ->
  exists g, int_of_str g = Ok z.
Proof.
  unfold _extract_experience_years. generalize (lower text) as t. intros t.
  generalize experience_patterns as patterns.
  induction patterns as [|p ps IH]; simpl; [discriminate|].
  destruct (search false p t) as [mo|]; [|exact IH].
  destruct (group1 mo) as [g|]; [|discriminate]. simpl.
  destruct (int_of_str g) as [n|e] eqn:E.
  - intros [= <-]. eauto.
  - destruct e; try discriminate. exact IH.
Qed.




(** A pattern that is one group: the group is the whole match. *)
Lemma match_at_whole_group (ic : bool) (g : nat) (r : regex)
    (prev : option ascii) (s : str) (mo : rmatch) :
  match_at ic (Grp g r) prev s = Some mo -> group g mo = Some (group0 mo).
Proof.
  unfold match_at. cbn [m]. intros H.
  destruct (m_sound ic (fun _ => true) "000"%char 0 r _ _ _ _ _ H)
    as (pre & p1 & s1 & c1 & -> & Hk & _).
  injection Hk as <-. unfold group. cbn [groups group0 group_of].
  rewrite Nat.eqb_refl. reflexivity.
Qed.

Lemma search_whole_group (ic : bool) (g : nat) (r : regex) (text : str)
    (mo : rmatch) :
  search ic (Grp g r) text = Some mo -> group g mo = Some (group0 mo).
Proof.
  unfold search. generalize (@None ascii) as prev. revert mo.
  induction text as [|c s IH]; intros mo prev H; simpl in H.
  - destruct (match_at ic (Grp g r) prev []) as [mo'|] eqn:E; [|discriminate].
    injection H as <-. eapply match_at_whole_group. exact E.
  - destruct (match_at ic (Grp g r) prev (c :: s)) as [mo'|] eqn:E.
    + injection H as <-. eapply match_at_whole_group. exact E.
    + eapply IH. exact H.
Qed.

Lemma search_substring (ic : bool) (r : regex) (text : str) (mo : rmatch) :
  search ic r text = Some mo -> substring (group0 mo) text.
Proof.
  intros H.
  destruct (search_sound ic (fun _ => true) "000"%char 0 _ _ _ H)
    as (b & a & Hs & _).
  exists b, a. exact Hs.
Qed.

Lemma extract_company_name_inv (text v : str) :
  _extract_company_name text = Ok (Some v) ->
  exists mo,
    search false company_pattern text = Some mo /\ v = strip (group0 mo).
Proof.
  unfold _extract_company_name.
  destruct (search false company_pattern text) as [mo|] eqn:E; [|discriminate].
  unfold group1. rewrite (search_whole_group _ _ _ _ _ E). simpl.
  intros [= <-]. eauto.
Qed.

Lemma extract_phone_inv (text v : str) :
  _extract_phone text = Some v ->
  exists p mo,
    In p phone_patterns /\ search false p text = Some mo /\ v = group0 mo.
Proof.
  unfold _extract_phone. generalize phone_patterns as patterns.
  induction patterns as [|p ps IH]; simpl; [discriminate|].
  destruct (search false p text) as [mo|] eqn:E.
  - intros [= <-]. exists p, mo. auto.
  - intros H. destruct (IH H) as (p' & mo & Hin & Hrest). exists p', mo. auto.
Qed.

Lemma extract_email_inv (text v : str) :
  _extract_email text = Some v ->
  exists mo, search false email_pattern text = Some mo /\ v = group0 mo.
Proof.
  unfold _extract_email.
  destruct (search false email_pattern text) as [mo|]; [|discriminate].
  intros [= <-]. eauto.
Qed.

Lemma extract_name_loop_inv (lines : list str) (v : str) :
  _extract_name_loop lines = Some v ->
  exists line,
    In line lines /\ v = strip line
    /\ (2 <= length (split_ws v) <= 4)
    /\ all_capitalized (split_ws v) = true
    /\ forall header, In header headers ->
         contains header (lower line) = false.
Proof.
  induction lines as [|line rest IH]; cbn [_extract_name_loop];
    [discriminate|].
  match goal with
  | |- (if ?c then _ else _) = _ -> _ => destruct c eqn:E
  end.
  - intros [= <-]. exists line.
    apply andb_true_iff in E as [E Hh].
    apply andb_true_iff in E as [E Hc].
    apply andb_true_iff in E as [Hlo Hhi].
    apply Nat.leb_le in Hlo, Hhi.
    split; [left; reflexivity|]. split; [reflexivity|].
    split; [split; assumption|]. split; [exact Hc|].
    intros header Hin. apply negb_true_iff in Hh.
    destruct (contains header (lower line)) eqn:Ec; [|reflexivity].
    assert (Hex : existsb (fun h => contains h (lower line)) headers = true)
      by (apply existsb_exists; eauto).
    congruence.
  - intros H. destruct (IH H) as (l & Hin & Hrest). exists l.
    split; [right; exact Hin | exact Hrest].
Qed.

(** ** Values *)

Lemma truthy_nonempty (x : str) : truthy x = true -> x <> [].
Proof. destruct x; [discriminate | discriminate]. Qed.

Lemma upper_nonempty (x : str) : truthy x = true -> upper x <> [].
Proof. destruct x; [discriminate | discriminate]. Qed.

Lemma float_truthy_positive (q : Q) : float_truthy q = true -> (0 < q)%Q.
Proof.
  unfold float_truthy. intros H. apply negb_true_iff in H.
  generalize dependent (2 ^ 1075)%positive. intros p H.
  destruct (Qlt_le_dec (1 # p) q) as [Hlt | Hle].
  - apply Qlt_trans with (1 # p); [reflexivity | exact Hlt].
  - apply Qle_bool_iff in Hle. congruence.
Qed.

Lemma digit_val_nonneg (c : ascii) : isdigit c = true -> (0 <= digit_val c)%Z.
Proof.
  unfold isdigit, in_range, digit_val. intros H.
  apply andb_true_iff in H as [H _]. apply N.leb_le in H. lia.
Qed.

Lemma Z_of_digits_nonneg (s : str) :
  forallb isdigit s = true -> (0 <= Z_of_digits s)%Z.
Proof.
  unfold Z_of_digits.
  assert (G : forall acc, (0 <= acc)%Z -> forallb isdigit s = true ->
                (0 <= fold_left (fun acc c => 10 * acc + digit_val c) s acc)%Z).
  { induction s as [|c s IH]; intros acc Ha H; simpl in *; [exact Ha|].
    apply andb_true_iff in H as [Hc Hs]. apply IH; [|exact Hs].
    pose proof (digit_val_nonneg c Hc). lia. }
  apply G. lia.
Qed.

Lemma int_of_str_nonneg (g : str) (z : Z) :
  int_of_str g = Ok z -> (0 <= z)%Z.
Proof.
  unfold int_of_str.
  destruct (truthy g && forallb isdigit g) eqn:E; [|discriminate].
  destruct (4300 <? length g)%nat; [discriminate|].
  intros [= <-]. apply andb_true_iff in E as [_ E].
  apply Z_of_digits_nonneg. exact E.
Qed.

(** A value that counts as present: a non-empty string, a number above
    zero. *)
Definition present (v : value) : Prop :=
  match v with
  | VStr s => s <> []
  | VFloat q => (0 < q)%Q
  | VInt z => (0 < z)%Z
  end.

(** X7: no field of a record is a placeholder: every string in it is
    non-empty and every number (amount, usage, years of experience) is
    greater than zero; a total of 0 or "0 years" is left out. *)
Theorem extract_values_present (text doc_type : str) (data : gmap str value)
    (k : str) (v : value) :
  extract text doc_type = Ok data ->
  data !! k = Some v ->
  present v.
Proof.
  intros He Hk.
  destruct (extract_cases _ _ _ He)
    as [[-> H] | [[-> H] | [[-> H] | (_ & _ & _ & ->)]]].
  - apply extract_invoice_inv in H as (n & d & c & a & _ & _ & _ & _ & ->).
    invert_lookup Hk; cbn [present];
      auto using truthy_nonempty, upper_nonempty, float_truthy_positive.
  - apply extract_resume_inv in H as (y & Hy & ->).
    invert_lookup Hk; cbn [present];
      auto using truthy_nonempty, upper_nonempty, float_truthy_positive.
    subst y. apply extract_experience_years_inv in Hy as [g Hg].
    apply int_of_str_nonneg in Hg.
    match goal with
    | Ht : int_truthy _ = true |- _ =>
        unfold int_truthy in Ht; apply negb_true_iff, Z.eqb_neq in Ht
    end. lia.
  - apply extract_utility_bill_inv in H as (n & d & u & a & _ & _ & _ & _ & ->).
    invert_lookup Hk; cbn [present];
      auto using truthy_nonempty, upper_nonempty, float_truthy_positive.
  - rewrite lookup_empty in Hk. discriminate Hk.
Qed.

Definition zero_total : str := lit "Invoice INV-7 total: 0.00 due 2024-02-29".

Lemma extract_values_present_witness :
  present (VStr (lit "INV-7")).
Proof.
  assert (Hf : field "invoice_number" (extract zero_total (lit "Invoice"))
               = Some (VStr (lit "INV-7")))
    by (vm_compute; reflexivity).
  destruct (extract zero_total (lit "Invoice")) as [data|e] eqn:He;
    [|discriminate Hf].
  exact (extract_values_present zero_total (lit "Invoice") data
           (lit "invoice_number") (VStr (lit "INV-7")) He Hf).
Defined.

Example zero_total_is_left_out :
  field "total_amount" (extract zero_total (lit "Invoice")) = None
  /\ field "date" (extract zero_total (lit "Invoice"))
     = Some (VStr (lit "2024-02-29")).
Proof. vm_compute. split; reflexivity. Qed.

Ltac invert_field H :=
  repeat match type of H with
         | set_if _ _ _ _ _ !! _ = Some _ =>
             let E := fresh "E" in
             apply lookup_set_if in H as [(E & ? & ? & ? & ->) | H];
             [ first [ exfalso; vm_compute in E; discriminate E | clear E ] | ]
         | ∅ !! _ = Some _ => rewrite lookup_empty in H; discriminate H
         end.




(** ** Character sets *)

Lemma forallb_map_compose {A B} (f : B -> bool) (h : A -> B) (l : list A) :
  forallb f (map h l) = forallb (fun a => f (h a)) l.
Proof. induction l as [|a l IH]; simpl; [reflexivity|]. rewrite IH. reflexivity. Qed.

(** An upper-case letter A-Z, a digit or a hyphen. *)
Definition ident_char (c : ascii) : bool :=
  in_range 65 90 c || isdigit c || Ascii.eqb c "-".

Lemma identifier_patterns_chars :
  forallb (grp_chars true (fun c => ident_char (upper_char c)) 1)
    (invoice_number_patterns ++ [account_number_pattern]) = true.
Proof. vm_compute. reflexivity. Qed.

Lemma extract_with_patterns_identifier (text : str) (patterns : list regex)
    (n : option str) (x : str) :
  forallb (grp_chars true (fun c => ident_char (upper_char c)) 1) patterns = true ->
  _extract_with_patterns text patterns = Ok n ->
  n = Some x ->
  forallb ident_char (upper x) = true.
Proof.
  intros Hall Hn ->.
  apply extract_with_patterns_inv in Hn as (p & mo & g & Hin & Hs & Hg & ->).
  destruct (search_sound true (fun c => ident_char (upper_char c)) "000"%char 1
              _ _ _ Hs) as (_ & _ & _ & _ & _ & Hgrp).
  unfold upper. rewrite forallb_map_compose.
  apply forallb_strip. apply Hgrp; [|exact Hg].
  apply (proj1 (forallb_forall _ _) Hall). exact Hin.
Qed.

(** X9: the "invoice_number" of an Invoice record and the
    "account_number" of a Utility Bill record are non-empty and consist
    of upper-case letters A-Z, digits and hyphens only. *)
Theorem extract_identifier_characters (text doc_type : str)
    (data : gmap str value) (k : str) (v : value) :
  k = lit "invoice_number" \/ k = lit "account_number" ->
  extract text doc_type = Ok data ->
  data !! k = Some v ->
  exists s, v = VStr s /\ s <> [] /\ forallb ident_char s = true.
Proof.
  intros Hkey He Hk.
  pose proof identifier_patterns_chars as Hall.
  rewrite forallb_app in Hall. apply andb_true_iff in Hall as [Hinv Hacc].
  destruct (extract_cases _ _ _ He)
    as [[-> H] | [[-> H] | [[-> H] | (_ & _ & _ & ->)]]].
  - apply extract_invoice_inv in H as (n & d & c & a & Hn & _ & _ & _ & ->).
    destruct Hkey as [-> | ->]; invert_field Hk.
    eexists. split; [reflexivity|]. split; [apply upper_nonempty; assumption|].
    apply (extract_with_patterns_identifier text invoice_number_patterns n);
      assumption.
  - apply extract_resume_inv in H as (y & Hy & ->).
    destruct Hkey as [-> | ->]; invert_field Hk.
  - apply extract_utility_bill_inv in H as (n & d & u & a & Hn & _ & _ & _ & ->).
    destruct Hkey as [-> | ->]; invert_field Hk.
    eexists. split; [reflexivity|]. split; [apply upper_nonempty; assumption|].
    apply (extract_with_patterns_identifier text [account_number_pattern] n);
      assumption.
  - rewrite lookup_empty in Hk. discriminate Hk.
Qed.

Lemma extract_identifier_characters_witness :
  exists s, VStr (lit "INV-7") = VStr s /\ s <> []
            /\ forallb ident_char s = true.
Proof.
  assert (Hf : field "invoice_number" (extract zero_total (lit "Invoice"))
               = Some (VStr (lit "INV-7")))
    by (vm_compute; reflexivity).
  destruct (extract zero_total (lit "Invoice")) as [data|e] eqn:He;
    [|discriminate Hf].
  exact (extract_identifier_characters zero_total (lit "Invoice") data
           (lit "invoice_number") (VStr (lit "INV-7"))
           (or_introl eq_refl) He Hf).
Defined.

(** ** Verbatim values *)

Lemma in_take {A} (x : A) (n : nat) (l : list A) : In x (take n l) -> In x l.
Proof.
  revert n. induction l as [|a l IH]; intros [|n]; simpl; try tauto.
  intros [H | H]; [auto | right; eapply IH; exact H].
Qed.

Lemma extract_name_substring (text v : str) :
  _extract_name text = Some v -> substring v text.
Proof.
  unfold _extract_name. intros H.
  apply extract_name_loop_inv in H as (line & Hin & -> & _).
  apply substring_trans with line; [apply strip_substring|].
  apply (split_on_substring "010"%char).
  eapply in_take. exact Hin.
Qed.

(** X10: the "name", "email" and "phone" of a Resume record and the
    "company" of an Invoice record are taken verbatim from the text: each
    is a contiguous piece of it, in its original letter case. *)
Theorem extract_verbatim_fields (text doc_type : str)
    (data : gmap str value) (k : str) (v : value) :
  In k (map lit ["name"; "email"; "phone"; "company"]%string) ->
  extract text doc_type = Ok data ->
  data !! k = Some v ->
  exists s, v = VStr s /\ substring s text.
Proof.
  intros Hkey He Hk.
  assert (Hkeys : k = lit "name" \/ k = lit "email" \/ k = lit "phone"
                  \/ k = lit "company").
  { simpl in Hkey. intuition auto. }
  clear Hkey.
  destruct (extract_cases _ _ _ He)
    as [[-> H] | [[-> H] | [[-> H] | (_ & _ & _ & ->)]]].
  - apply extract_invoice_inv in H as (n & d & c & a & _ & _ & Hc & _ & ->).
    destruct Hkeys as [-> | [-> | [-> | ->]]]; invert_field Hk.
    subst c. apply extract_company_name_inv in Hc as (mo & Hs & ->).
    eexists. split; [reflexivity|].
    eapply substring_trans; [apply strip_substring|].
    eapply search_substring. exact Hs.
  - apply extract_resume_inv in H as (y & Hy & ->).
    destruct Hkeys as [-> | [-> | [-> | ->]]]; invert_field Hk;
      (eexists; split; [reflexivity|]).
    + apply extract_name_substring. assumption.
    + match goal with
      | Hx : _extract_email text = Some _ |- _ =>
          apply extract_email_inv in Hx as (mo & Hs & ->)
      end.
      eapply search_substring. exact Hs.
    + match goal with
      | Hx : _extract_phone text = Some _ |- _ =>
          apply extract_phone_inv in Hx as (p & mo & _ & Hs & ->)
      end.
      eapply search_substring. exact Hs.
  - apply extract_utility_bill_inv in H as (n & d & u & a & _ & _ & _ & _ & ->).
    destruct Hkeys as [-> | [-> | [-> | ->]]]; invert_field Hk.
  - rewrite lookup_empty in Hk. discriminate Hk.
Qed.

Lemma extract_verbatim_fields_witness :
  exists s, VStr (lit "Acme Corp Inc.") = VStr s /\ substring s acme_invoice.
Proof.
  assert (Hf : field "company" (extract acme_invoice (lit "Invoice"))
               = Some (VStr (lit "Acme Corp Inc.")))
    by (vm_compute; reflexivity).
  destruct (extract acme_invoice (lit "Invoice")) as [data|e] eqn:He;
    [|discriminate Hf].
  apply (extract_verbatim_fields acme_invoice (lit "Invoice") data
           (lit "company") (VStr (lit "Acme Corp Inc.")));
    [simpl; auto | exact He | exact Hf].
Defined.

(** A character of an e-mail address as the pattern allows it. *)
Definition email_char (c : ascii) : bool :=
  in_range 65 90 c || in_range 97 122 c || isdigit c
  || existsb (Ascii.eqb c) (lit "._%+-@|").

(** A character of a phone number as the patterns allow it. *)
Definition phone_char (c : ascii) : bool :=
  isdigit c || isspace c || existsb (Ascii.eqb c) (lit "+-.()").

Lemma email_pattern_chars :
  all_chars false email_char email_pattern = true
  /\ must false "@"%char email_pattern = true
  /\ must false "."%char email_pattern = true.
Proof. vm_compute. repeat split. Qed.

Lemma phone_patterns_chars :
  forallb (all_chars false phone_char) phone_patterns = true.
Proof. vm_compute. reflexivity. Qed.

(** X11: the "email" of a Resume record contains an "@" and a ".", and
    consists only of ASCII letters, digits and the characters
    . _ % + - @ |; it holds no whitespace. *)
Theorem extract_email_shape (text : str) (data : gmap str value) (v : value) :
  extract text (lit "Resume") = Ok data ->
  data !! lit "email" = Some v ->
  exists e,
    v = VStr e /\ In "@"%char e /\ In "."%char e
    /\ forallb email_char e = true
    /\ forallb (fun c => negb (isspace c)) e = true.
Proof.
  intros He Hk.
  destruct (extract_cases _ _ _ He)
    as [[E H] | [[_ H] | [[E H] | (_ & E & _)]]];
    try (vm_compute in E; discriminate E); try (exfalso; apply E; reflexivity).
  apply extract_resume_inv in H as (y & Hy & ->).
  invert_field Hk.
  match goal with
  | Hx : _extract_email text = Some _ |- _ =>
      apply extract_email_inv in Hx as (mo & Hs & ->)
  end.
  destruct email_pattern_chars as (Hall & Hat & Hdot).
  destruct (search_sound false email_char "@"%char 0 _ _ _ Hs)
    as (_ & _ & _ & Hc & Hm & _).
  destruct (search_sound false email_char "."%char 0 _ _ _ Hs)
    as (_ & _ & _ & _ & Hm' & _).
  exists (group0 mo). split; [reflexivity|].
  split; [auto|]. split; [auto|]. split; [auto|].
  specialize (Hc Hall). rewrite forallb_forall in *.
  intros c Hin. specialize (Hc c Hin).
  revert Hc. clear. destruct c as [[] [] [] [] [] [] [] []]; vm_compute; congruence.
Qed.

Definition jane_resume : str :=
  lit "Jane Q Public
  jane.public@example.org  (555) 123-4567
  10+ years of experience in accounting".

Lemma extract_email_shape_witness :
  exists e,
    VStr (lit "jane.public@example.org") = VStr e
    /\ In "@"%char e /\ In "."%char e
    /\ forallb email_char e = true
    /\ forallb (fun c => negb (isspace c)) e = true.
Proof.
  assert (Hf : field "email" (extract jane_resume (lit "Resume"))
               = Some (VStr (lit "jane.public@example.org")))
    by (vm_compute; reflexivity).
  destruct (extract jane_resume (lit "Resume")) as [data|e] eqn:He;
    [|discriminate Hf].
  exact (extract_email_shape jane_resume data
           (VStr (lit "jane.public@example.org")) He Hf).
Defined.

(** X12: the "phone" of a Resume record consists only of digits, the
    characters + - . ( ) and whitespace. *)
Theorem extract_phone_shape (text : str) (data : gmap str value) (v : value) :
  extract text (lit "Resume") = Ok data ->
  data !! lit "phone" = Some v ->
  exists p, v = VStr p /\ p <> [] /\ forallb phone_char p = true.
Proof.
  intros He Hk.
  destruct (extract_cases _ _ _ He)
    as [[E H] | [[_ H] | [[E H] | (_ & E & _)]]];
    try (vm_compute in E; discriminate E); try (exfalso; apply E; reflexivity).
  apply extract_resume_inv in H as (y & Hy & ->).
  invert_field Hk.
  match goal with
  | Hx : _extract_phone text = Some ?x, Ht : truthy ?x = true |- _ =>
      pose proof (truthy_nonempty _ Ht) as Hne;
      apply extract_phone_inv in Hx as (p & mo & Hin & Hs & ->)
  end.
  exists (group0 mo). split; [reflexivity|]. split; [exact Hne|].
  destruct (search_sound false phone_char "000"%char 0 _ _ _ Hs)
    as (_ & _ & _ & Hc & _).
  apply Hc.
  apply (proj1 (forallb_forall _ _) phone_patterns_chars). exact Hin.
Qed.

Lemma extract_phone_shape_witness :
  exists p, VStr (lit "(555) 123-4567") = VStr p /\ p <> []
            /\ forallb phone_char p = true.
Proof.
  assert (Hf : field "phone" (extract jane_resume (lit "Resume"))
               = Some (VStr (lit "(555) 123-4567")))
    by (vm_compute; reflexivity).
  destruct (extract jane_resume (lit "Resume")) as [data|e] eqn:He;
    [|discriminate Hf].
  exact (extract_phone_shape jane_resume data
           (VStr (lit "(555) 123-4567")) He Hf).
Defined.

(** X13: the "name" of a Resume record is one of the first five lines of
    the text with the surrounding whitespace removed; it has two to four
    words, each word that starts with a letter starts with an upper-case
    letter, and in no letter case does it contain "resume", "cv" or
    "curriculum". *)
Theorem extract_name_shape (text : str) (data : gmap str value) (v : value) :
  extract text (lit "Resume") = Ok data ->
  data !! lit "name" = Some v ->
  exists line,
    In line (take 5 (split_on "010" text))
    /\ v = VStr (strip line)
    /\ 2 <= length (split_ws (strip line)) <= 4
    /\ all_capitalized (split_ws (strip line)) = true
    /\ forall header, In header headers ->
         contains header (lower (strip line)) = false.
Proof.
  intros He Hk.
  destruct (extract_cases _ _ _ He)
    as [[E H] | [[_ H] | [[E H] | (_ & E & _)]]];
    try (vm_compute in E; discriminate E); try (exfalso; apply E; reflexivity).
  apply extract_resume_inv in H as (y & Hy & ->).
  invert_field Hk.
  match goal with
  | Hx : _extract_name text = Some _ |- _ =>
      unfold _extract_name in Hx;
      apply extract_name_loop_inv in Hx as (line & Hin & -> & Hw & Hc & Hh)
  end.
  exists line. repeat split; try assumption; try apply Hw.
  intros header Hhd.
  destruct (contains header (lower (strip line))) eqn:Ec; [|reflexivity].
  destruct (strip_split line) as (b & a & Hs & _).
  rewrite <- (Hh header Hhd). symmetry.
  rewrite Hs at 1. rewrite !ClassifierMore.lower_app.
  apply ClassifierMore.contains_extend. exact Ec.
Qed.

Lemma extract_name_shape_witness :
  exists line,
    In line (take 5 (split_on "010" jane_resume))
    /\ VStr (lit "Jane Q Public") = VStr (strip line)
    /\ 2 <= length (split_ws (strip line)) <= 4
    /\ all_capitalized (split_ws (strip line)) = true
    /\ forall header, In header headers ->
         contains header (lower (strip line)) = false.
Proof.
  assert (Hf : field "name" (extract jane_resume (lit "Resume"))
               = Some (VStr (lit "Jane Q Public")))
    by (vm_compute; reflexivity).
  destruct (extract jane_resume (lit "Resume")) as [data|e] eqn:He;
    [|discriminate Hf].
  exact (extract_name_shape jane_resume data (VStr (lit "Jane Q Public")) He Hf).
Defined.

(** A name with "cv" inside is passed over. *)
Example name_with_cv_inside :
  field "name" (extract (lit "Victor McVey
    Senior Accountant") (lit "Resume"))
  = Some (VStr (lit "Senior Accountant")).
Proof. vm_compute. reflexivity. Qed.

End ExtractorMore.

(* ===================================================================== *)
(** * The batch operations                                                *)
(* ===================================================================== *)

Module Batch.

Import Classifier Extractor ExtractorSpec ExtractorMore.

(** [{"class": doc_type, **extracted_data}] *)
Definition record (doc_type : str) (extracted_data : gmap str value)
  : gmap str value :=
  extracted_data ∪ {[ lit "class" := VStr doc_type ]}.

(** The loop of [DataExtractor.extract_batch] over the items of
    [documents]. *)
Fixpoint extract_batch_loop (items : list (str * str))
    (classifications : gmap str str) (results : gmap str (gmap str value))
  : exc (gmap str (gmap str value)) :=
  match items with
  | [] => Ok results
  | (filename, text) :: rest =>
      let doc_type :=
        default (lit "Unclassifiable") (classifications !! filename) in
      extracted_data ← extract text doc_type;
      extract_batch_loop rest classifications
        (<[filename := record doc_type extracted_data]> results)
  end.

(** [DataExtractor.extract_batch] *)
Definition extract_batch (documents : gmap str str)
    (classifications : gmap str str) : exc (gmap str (gmap str value)) :=
  extract_batch_loop (map_to_list documents) classifications ∅.

Lemma record_class (doc_type : str) (data : gmap str value) (text : str) :
  extract text doc_type = Ok data ->
  record doc_type data !! lit "class" = Some (VStr doc_type).
Proof.
  intros He. unfold record.
  destruct (data !! lit "class") as [v|] eqn:E.
  - exfalso.
    destruct (extract_not_reserved text doc_type data (lit "class") v He E)
      as [Hne _].
    apply Hne. reflexivity.
  - rewrite lookup_union_r by exact E. apply lookup_singleton_eq.
Qed.

(** What the loop leaves in [results]: a record for each item, the other
    entries as they were. *)
Lemma extract_batch_loop_spec (classifications : gmap str str)
    (items : list (str * str)) :
  NoDup (items.*1) ->
  forall results,
  exists res,
    extract_batch_loop items classifications results = Ok res
    /\ (forall filename text,
          (filename, text) ∈ items ->
          exists data,
            extract text
              (default (lit "Unclassifiable") (classifications !! filename))
            = Ok data
            /\ res !! filename
               = Some (record
                         (default (lit "Unclassifiable")
                            (classifications !! filename)) data))
    /\ (forall filename,
          filename ∉ items.*1 -> res !! filename = results !! filename).
Proof.
  induction items as [|[f0 t0] rest IH]; intros Hnd results.
  - exists results. split; [reflexivity|]. split; [|reflexivity].
    intros filename text Hin. apply elem_of_nil in Hin. destruct Hin.
  - cbn [fmap list_fmap fst] in Hnd. apply NoDup_cons in Hnd as [Hf0 Hnd].
    cbn [extract_batch_loop].
    destruct (extract_returns t0
                (default (lit "Unclassifiable") (classifications !! f0)))
      as [data0 He0].
    rewrite He0. cbn [mbind exc_bind bind].
    destruct (IH Hnd
                (<[f0 := record (default (lit "Unclassifiable")
                                   (classifications !! f0)) data0]> results))
      as (res & Hres & Hin & Hout).
    exists res. split; [exact Hres|]. split.
    + intros filename text Hel. apply elem_of_cons in Hel as [[= -> ->] | Hel].
      * exists data0. split; [exact He0|].
        rewrite (Hout f0 Hf0). apply lookup_insert_eq.
      * apply Hin. exact Hel.
    + intros filename Hnot. cbn [fmap list_fmap fst] in Hnot.
      apply not_elem_of_cons in Hnot as [Hne Hnot].
      rewrite (Hout filename Hnot). apply lookup_insert_ne. congruence.
Qed.

Lemma not_in_items (documents : gmap str str) (filename : str) :
  documents !! filename = None -> filename ∉ (map_to_list documents).*1.
Proof.
  intros Hnone Hin. apply list_elem_of_fmap in Hin as [[f t] [-> Hin]].
  apply elem_of_map_to_list in Hin. simpl in Hnone. congruence.
Qed.

(** X14: [extract_batch] returns one record per document and no other
    entry; the record of a document is [extract] of its text under the
    label [classifications] gives for its file name, together with that
    label under "class"; a document without classification is treated as
    [Unclassifiable] and its record holds the class alone. *)
Theorem extract_batch_records (documents classifications : gmap str str) :
  exists results,
    extract_batch documents classifications = Ok results
    /\ forall filename,
         match documents !! filename with
         | None => results !! filename = None
         | Some text =>
             exists data,
               extract text
                 (default (lit "Unclassifiable") (classifications !! filename))
               = Ok data
               /\ results !! filename
                  = Some (record
                            (default (lit "Unclassifiable")
                               (classifications !! filename)) data)
               /\ record
                    (default (lit "Unclassifiable")
                       (classifications !! filename)) data !! lit "class"
                  = Some (VStr (default (lit "Unclassifiable")
                                  (classifications !! filename)))
               /\ (classifications !! filename = None ->
                   results !! filename
                   = Some {[ lit "class" := VStr (lit "Unclassifiable") ]})
         end.
Proof.
  unfold extract_batch.
  destruct (extract_batch_loop_spec classifications (map_to_list documents)
              (NoDup_fst_map_to_list documents) ∅)
    as (res & Hres & Hin & Hout).
  exists res. split; [exact Hres|]. intros filename.
  destruct (documents !! filename) as [text|] eqn:Ed.
  - apply elem_of_map_to_list in Ed.
    destruct (Hin filename text Ed) as (data & He & Hr).
    exists data. split; [exact He|]. split; [exact Hr|].
    split; [eapply record_class; exact He|].
    intros Hnone. rewrite Hr. rewrite Hnone in He |- *. cbn [default] in *.
    assert (Hd : data = ∅).
    { unfold extract, str_eqb in He.
      repeat (case_bool_decide as Hb; [vm_compute in Hb; discriminate Hb|]).
      injection He as <-. reflexivity. }
    subst data. unfold record. rewrite (left_id_L ∅ (∪)). reflexivity.
  - rewrite (Hout filename (not_in_items _ _ Ed)). apply lookup_empty.
Qed.

(** X15: classification and extraction in sequence: for every document,
    [extract_batch] applied to the labels of [classify_batch] gives a
    record whose "class" is the label [classify] returns for that
    document, and whose other fields are [extract] of the text under that
    label. *)
Theorem classify_then_extract_batch (classifier : str -> outcome)
    (documents : gmap str str) (filename text : str) :
  documents !! filename = Some text ->
  exists results data,
    extract_batch documents
      (ClassifierMore.classify_batch classifier documents) = Ok results
    /\ extract text (fst (classify classifier text filename)) = Ok data
    /\ results !! filename
       = Some (record (fst (classify classifier text filename)) data)
    /\ (forall k v, data !! k = Some v ->
          record (fst (classify classifier text filename)) data !! k = Some v)
    /\ record (fst (classify classifier text filename)) data !! lit "class"
       = Some (VStr (fst (classify classifier text filename))).
Proof.
  intros Hd. unfold extract_batch.
  destruct (extract_batch_loop_spec
              (ClassifierMore.classify_batch classifier documents)
              (map_to_list documents) (NoDup_fst_map_to_list documents) ∅)
    as (res & Hres & Hin & _).
  assert (Hc : ClassifierMore.classify_batch classifier documents !! filename
               = Some (fst (classify classifier text filename))).
  { unfold ClassifierMore.classify_batch. rewrite map_lookup_imap, Hd.
    reflexivity. }
  destruct (Hin filename text (proj2 (elem_of_map_to_list _ _ _) Hd))
    as (data & He & Hr).
  rewrite Hc in He, Hr. cbn [default] in He, Hr.
  exists res, data. split; [exact Hres|]. split; [exact He|].
  split; [exact Hr|]. split.
  - intros k v Hk. unfold record. apply lookup_union_Some_l. exact Hk.
  - eapply record_class. exact He.
Qed.

Definition two_documents : gmap str str :=
  {[ lit "a.pdf" := ExtractorSpec.acme_invoice;
     lit "b.pdf" := lit "Minutes of the annual meeting of the board" ]}.

Lemma classify_then_extract_batch_witness :
  exists results data,
    extract_batch two_documents
      (ClassifierMore.classify_batch ClassifierSpec.sure_invoice two_documents)
    = Ok results
    /\ extract ExtractorSpec.acme_invoice
         (fst (classify ClassifierSpec.sure_invoice ExtractorSpec.acme_invoice
                 (lit "a.pdf"))) = Ok data
    /\ results !! lit "a.pdf"
       = Some (record
                 (fst (classify ClassifierSpec.sure_invoice
                         ExtractorSpec.acme_invoice (lit "a.pdf"))) data)
    /\ (forall k v, data !! k = Some v ->
          record (fst (classify ClassifierSpec.sure_invoice
                         ExtractorSpec.acme_invoice (lit "a.pdf"))) data !! k
          = Some v)
    /\ record (fst (classify ClassifierSpec.sure_invoice
                      ExtractorSpec.acme_invoice (lit "a.pdf"))) data
       !! lit "class"
       = Some (VStr (fst (classify ClassifierSpec.sure_invoice
                            ExtractorSpec.acme_invoice (lit "a.pdf")))).
Proof.
  apply (classify_then_extract_batch ClassifierSpec.sure_invoice two_documents
           (lit "a.pdf") ExtractorSpec.acme_invoice).
  vm_compute. reflexivity.
Defined.

End Batch.

(* ===================================================================== *)
(** * Further properties of the Index Manager                             *)
(* ===================================================================== *)

Module RetrievalMore.

Import PyFacts Retrieval RetrievalSpec.

(** The path an index is saved under. *)
Definition index_path (index_name : str) : str := lit "data/models/" ++ index_name.

(** The document [add_document] builds. *)
Definition new_document (filename text : str) : Document :=
  {| page_content := text; metadata := {[ lit "filename" := filename ]} |}.

(** [SemanticRetrieval.load_index]: the object afterwards and the result.
    [load_local] stands for [FAISS.load_local] on a path that exists and
    on what is saved there. *)
Definition load_index
    (load_local : str -> list Document -> exc (list Document))
    (self : SemanticRetrieval) (index_name : str)
  : SemanticRetrieval * bool :=
  let index_path := lit "data/models/" ++ index_name in
  match disk self !! index_path with
  | Some saved =>
      match load_local index_path saved with
      | Ok store =>
          ({| vectorstores := <[index_name := store]> (vectorstores self);
              disk := disk self |}, true)
      | Raise _ => (self, false)
      end
  | None => (self, false)
  end.

Lemma index_path_inj (a b : str) : index_path a = index_path b -> a = b.
Proof. unfold index_path. apply app_inv_head. Qed.

(** What a successful [add_document] leaves behind. *)
Lemma add_document_result (svc : services) (self self' : SemanticRetrieval)
    (index_name filename text : str) :
  add_document svc self index_name filename text = Ok self' ->
  let store := default [] (vectorstores self !! index_name)
               ++ [new_document filename text] in
  let files := save_local_leaves svc (index_path index_name) store (disk self) in
  vectorstores self' = <[index_name := store]> (vectorstores self)
  /\ disk self'
     = match save_local svc (index_path index_name) store with
       | Ok _ => <[index_path index_name := store]> files
       | Raise _ => files
       end.
Proof.
  unfold add_document, new_document, index_path. intros H.
  destruct (embed_documents svc _); cbn [mbind exc_bind bind] in H;
    [|discriminate].
  injection H as <-. cbv zeta. unfold _save_index.
  destruct (vectorstores self !! index_name) as [old|];
    cbn [vectorstores disk default]; rewrite lookup_insert_eq;
    destruct (save_local svc _ _); split; reflexivity.
Qed.

(** X16: [add_document] only appends, and a failure to save the index is
    swallowed.  The call raises exactly when embedding the document
    raises; otherwise the collection holds its former documents followed
    by the new one and every other collection is as before, whether or
    not the index could be saved; when it was saved, the path of the
    collection holds the new store. *)
Theorem add_document_appends (svc : services) (self : SemanticRetrieval)
    (index_name filename text : str) :
  match add_document svc self index_name filename text with
  | Ok self' =>
      embed_documents svc [new_document filename text] = Ok tt
      /\ vectorstores self' !! index_name
         = Some (default [] (vectorstores self !! index_name)
                 ++ [new_document filename text])
      /\ (forall other, other <> index_name ->
            vectorstores self' !! other = vectorstores self !! other)
      /\ (save_local svc (index_path index_name)
            (default [] (vectorstores self !! index_name)
             ++ [new_document filename text]) = Ok tt ->
          disk self' !! index_path index_name
          = vectorstores self' !! index_name)
  | Raise e => embed_documents svc [new_document filename text] = Raise e
  end.
Proof.
  destruct (add_document svc self index_name filename text) as [self'|e] eqn:H.
  - destruct (add_document_result _ _ _ _ _ _ H) as [Hv Hd].
    cbv zeta in Hv, Hd. rewrite Hv, Hd.
    split; [|split; [|split]].
    + unfold add_document in H. fold (new_document filename text) in H.
      destruct (embed_documents svc [new_document filename text]) as [[]|e];
        [reflexivity | discriminate H].
    + apply lookup_insert_eq.
    + intros other Hne. apply lookup_insert_ne. congruence.
    + intros ->. rewrite !lookup_insert_eq. reflexivity.
  - unfold add_document in H. fold (new_document filename text) in H.
    destruct (embed_documents svc [new_document filename text]) as [[]|e'];
      cbn [mbind exc_bind bind] in H; [discriminate H|].
    injection H as ->. reflexivity.
Qed.

(** Services whose disk is full: saving fails and leaves a truncated
    index behind. *)
Definition disk_full : services :=
  {| embed_documents := fun _ => Ok tt;
     similarity_search_with_score := fun _ _ _ => Ok [];
     save_local := fun _ _ => Raise (OtherError (lit "No space left on device"));
     save_local_leaves := fun index_path _ files => <[index_path := []]> files |}.

Lemma add_document_appends_witness :
  exists self',
    add_document disk_full two_docs (lit "docs") (lit "c.pdf") (lit "third")
    = Ok self'
    /\ vectorstores self' !! lit "docs"
       = Some (default [] (vectorstores two_docs !! lit "docs")
               ++ [new_document (lit "c.pdf") (lit "third")])
    /\ vectorstores self' !! lit "other" = vectorstores two_docs !! lit "other".
Proof.
  pose proof (add_document_appends disk_full two_docs (lit "docs")
                (lit "c.pdf") (lit "third")) as H.
  destruct (add_document disk_full two_docs (lit "docs") (lit "c.pdf")
              (lit "third")) as [self'|e];
    [|vm_compute in H; discriminate H].
  exists self'. split; [reflexivity|].
  destruct H as (_ & Hv & Hother & _).
  split; [exact Hv|]. apply Hother. intros E. vm_compute in E. discriminate E.
Defined.

(** X17: save and load round trip.  When [add_document] succeeded and the
    index was saved, a new object that finds the same files on disk and
    loads the collection ([load_local] returning what was saved) reports
    success, holds the same store for the collection, and answers every
    search on it as the old object did. *)
Theorem load_index_after_add (svc : services)
    (load_local : str -> list Document -> exc (list Document))
    (self self' : SemanticRetrieval) (index_name filename text : str) :
  add_document svc self index_name filename text = Ok self' ->
  save_local svc (index_path index_name)
    (default [] (vectorstores self !! index_name)
     ++ [new_document filename text]) = Ok tt ->
  (forall path saved, load_local path saved = Ok saved) ->
  let restarted := {| vectorstores := ∅; disk := disk self' |} in
  snd (load_index load_local restarted index_name) = true
  /\ vectorstores (fst (load_index load_local restarted index_name))
     !! index_name
     = vectorstores self' !! index_name
  /\ forall query top_k,
       search svc (fst (load_index load_local restarted index_name))
         index_name query top_k
       = search svc self' index_name query top_k.
Proof.
  intros H Hsave Hload restarted.
  destruct (add_document_result _ _ _ _ _ _ H) as [Hv Hd].
  cbv zeta in Hv, Hd. rewrite Hsave in Hd.
  assert (Hl : load_index load_local restarted index_name
               = ({| vectorstores :=
                       <[index_name := default [] (vectorstores self !! index_name)
                                       ++ [new_document filename text]]> ∅;
                     disk := disk self' |}, true)).
  { unfold load_index, restarted. cbn [disk vectorstores].
    fold (index_path index_name). rewrite Hd, lookup_insert_eq, Hload.
    reflexivity. }
  rewrite Hl. cbn [fst snd vectorstores].
  assert (Hs : (<[index_name := default [] (vectorstores self !! index_name)
                                ++ [new_document filename text]]> ∅
                 : gmap str (list Document)) !! index_name
               = vectorstores self' !! index_name)
    by (rewrite Hv, !lookup_insert_eq; reflexivity).
  split; [reflexivity|]. split; [exact Hs|].
  intros query top_k. unfold search. cbn [vectorstores]. rewrite Hs.
  reflexivity.
Qed.

Lemma load_index_after_add_witness :
  exists self',
    add_document example_services two_docs (lit "docs") (lit "c.pdf")
      (lit "third") = Ok self'
    /\ snd (load_index (fun _ saved => Ok saved)
              {| vectorstores := ∅; disk := disk self' |} (lit "docs")) = true.
Proof.
  destruct (add_document example_services two_docs (lit "docs") (lit "c.pdf")
              (lit "third")) as [self'|e] eqn:E;
    [|vm_compute in E; discriminate E].
  exists self'. split; [reflexivity|].
  apply (load_index_after_add example_services (fun _ saved => Ok saved)
           two_docs self' (lit "docs") (lit "c.pdf") (lit "third") E);
    reflexivity.
Defined.

(** A collection that was never saved cannot be loaded: the result is
    [False] and the object is as before. *)
Lemma load_index_missing
    (load_local : str -> list Document -> exc (list Document))
    (self : SemanticRetrieval) (index_name : str) :
  disk self !! index_path index_name = None ->
  load_index load_local self index_name = (self, false).
Proof.
  intros H. unfold load_index. fold (index_path index_name). rewrite H.
  reflexivity.
Qed.

(** X18: [search] returns one result per hit of the similarity search, in
    the same order; it returns the empty list exactly when the collection
    is unknown, the similarity search raises, or it finds nothing: a
    failure of the search cannot be told from an empty answer. *)
Theorem search_empty_cases (svc : services) (self : SemanticRetrieval)
    (index_name query : str) (top_k : Z) :
  (search svc self index_name query top_k = [] <->
   vectorstores self !! index_name = None
   \/ exists store,
        vectorstores self !! index_name = Some store
        /\ ((exists e, similarity_search_with_score svc store query top_k
                       = Raise e)
            \/ similarity_search_with_score svc store query top_k = Ok []))
  /\ (forall store hits,
        vectorstores self !! index_name = Some store ->
        similarity_search_with_score svc store query top_k = Ok hits ->
        length (search svc self index_name query top_k) = length hits
        /\ map filename (search svc self index_name query top_k)
           = map (fun hit => default (lit "unknown")
                               (metadata (fst hit) !! lit "filename")) hits).
Proof.
  unfold search. split.
  - destruct (vectorstores self !! index_name) as [store|]; [|tauto].
    destruct (similarity_search_with_score svc store query top_k)
      as [hits|e] eqn:E.
    + split.
      * intros H. right. exists store. split; [reflexivity|]. right.
        destruct hits; [exact E | discriminate H].
      * intros [H | (st & [= <-] & [[e He] | He])];
          [discriminate H | rewrite E in He; discriminate He |].
        rewrite E in He. injection He as ->. reflexivity.
    + split; [|reflexivity]. intros _. right. exists store.
      split; [reflexivity|]. left. exists e. exact E.
  - intros store hits -> ->. split; [apply length_imap|].
    assert (G : forall (f : nat -> nat) (l : list (Document * Q)),
               map filename (imap (fun i => format_result (f i)) l)
               = map (fun hit => default (lit "unknown")
                                   (metadata (fst hit) !! lit "filename")) l).
    { intros f l. revert f.
      induction l as [|[doc sc] l IH]; intros f; [reflexivity|].
      cbn [imap map]. f_equal. apply (IH (fun i => f (S i))). }
    apply (G (fun i => i)).
Qed.

Lemma search_empty_cases_witness :
  search disk_full two_docs (lit "docs") (lit "water") 5 = []
  /\ length (search example_services two_docs (lit "docs") (lit "water") 2)
     = 2%nat.
Proof.
  assert (Hs : vectorstores two_docs !! lit "docs"
               = Some [ new_document (lit "a.pdf") long_document;
                        new_document (lit "b.pdf")
                          (lit "A short note about water usage.") ])
    by (vm_compute; reflexivity).
  split.
  - apply (proj1 (search_empty_cases disk_full two_docs (lit "docs")
                    (lit "water") 5)).
    right. eexists. split; [exact Hs|]. right. reflexivity.
  - exact (proj1 (proj2 (search_empty_cases example_services two_docs
                           (lit "docs") (lit "water") 2) _ _ Hs eq_refl)).
Defined.

(** Every document of a store built by [add_document] calls carries the
    file name it was added under. *)
Lemma run_adds_documents (svc : services) (adds : list (str * str * str))
    (index_name : str) (store : list Document) (doc : Document) :
  vectorstores (run_adds svc init adds) !! index_name = Some store ->
  In doc store ->
  exists filename text,
    In (index_name, filename, text) adds
    /\ doc = new_document filename text.
Proof.
  assert (G : forall self,
             (forall st d, vectorstores self !! index_name = Some st ->
                In d st ->
                exists filename text,
                  In (index_name, filename, text) adds
                  /\ d = new_document filename text) ->
             forall rest, (forall a, In a rest -> In a adds) ->
             vectorstores (run_adds svc self rest) !! index_name = Some store ->
             In doc store ->
             exists filename text,
               In (index_name, filename, text) adds
               /\ doc = new_document filename text).
  { intros self Hinv rest. revert self Hinv.
    induction rest as [|[[idx fn] text] rest IH]; intros self Hinv Hsub Hs Hin.
    - eapply Hinv; eassumption.
    - cbn [run_adds] in Hs.
      destruct (add_document svc self idx fn text) as [self'|e] eqn:E.
      + apply (IH self'); [|intros a Ha; apply Hsub; right; exact Ha | exact Hs
                           | exact Hin].
        intros st d Hst Hd.
        destruct (add_document_result _ _ _ _ _ _ E) as [Hv _].
        cbv zeta in Hv. rewrite Hv in Hst.
        destruct (decide (idx = index_name)) as [-> | Hne].
        * rewrite lookup_insert_eq in Hst. injection Hst as <-.
          apply in_app_or in Hd as [Hd | [<- | []]].
          -- destruct (vectorstores self !! index_name) as [old|] eqn:Eo;
               [|destruct Hd].
             eapply Hinv; [reflexivity | exact Hd].
          -- exists fn, text. split; [apply Hsub; left|]; reflexivity.
        * rewrite lookup_insert_ne in Hst by exact Hne.
          eapply Hinv; eassumption.
      + apply (IH self); [exact Hinv | intros a Ha; apply Hsub; right; exact Ha
                          | exact Hs | exact Hin]. }
  intros Hs Hin. refine (G init _ adds (fun a Ha => Ha) Hs Hin).
  intros st d Hst. cbn [init vectorstores] in Hst.
  rewrite lookup_empty in Hst. discriminate Hst.
Qed.

(** X19: when the collections were built by [add_document] calls and the
    similarity search returns documents of the store it is given, every
    search result names a file that was added to that collection, never
    "unknown", and its snippet is cut from the text that was added under
    that name. *)
Theorem search_results_come_from_adds (svc : services)
    (adds : list (str * str * str)) (index_name query : str) (top_k : Z)
    (i : nat) (r : result) :
  (forall store hits doc sc,
      similarity_search_with_score svc store query top_k = Ok hits ->
      In (doc, sc) hits -> In doc store) ->
  search svc (run_adds svc init adds) index_name query top_k !! i = Some r ->
  exists text,
    In (index_name, filename r, text) adds
    /\ text_snippet r
       = (if (300 <? length text)%nat then take 300 text ++ lit "..." else text).
Proof.
  intros Horacle H. unfold search in H.
  destruct (vectorstores (run_adds svc init adds) !! index_name)
    as [store|] eqn:Es; [|rewrite lookup_nil in H; discriminate H].
  destruct (similarity_search_with_score svc store query top_k)
    as [hits|e] eqn:Eh; [|rewrite lookup_nil in H; discriminate H].
  rewrite list_lookup_imap in H.
  destruct (hits !! i) as [[doc sc]|] eqn:Ei; [|discriminate H].
  injection H as <-.
  assert (Hin : In (doc, sc) hits).
  { apply list_elem_of_In. eapply list_elem_of_lookup_2. exact Ei. }
  destruct (run_adds_documents svc adds index_name store doc Es
              (Horacle _ _ _ _ Eh Hin)) as (fn & text & Hadd & ->).
  exists text. unfold format_result, new_document.
  cbn [filename text_snippet metadata page_content].
  rewrite lookup_singleton_eq. cbn [default]. split; [exact Hadd | reflexivity].
Qed.

Definition two_adds : list (str * str * str) :=
  [ (lit "docs", lit "a.pdf", long_document);
    (lit "docs", lit "b.pdf", lit "A short note about water usage.") ].

Lemma search_results_come_from_adds_witness :
  exists r text,
    search example_services (run_adds example_services init two_adds)
      (lit "docs") (lit "water") 2 !! 1%nat = Some r
    /\ In (lit "docs", filename r, text) two_adds
    /\ text_snippet r
       = (if (300 <? length text)%nat then take 300 text ++ lit "..." else text).
Proof.
  assert (H : search example_services (run_adds example_services init two_adds)
                (lit "docs") (lit "water") 2 !! 1%nat
              = Some (format_result 1
                        (new_document (lit "b.pdf")
                           (lit "A short note about water usage."),
                         (2 # 10)%Q)))
    by (vm_compute; reflexivity).
  assert (Horacle : forall store hits doc sc,
             similarity_search_with_score example_services store
               (lit "water") 2 = Ok hits ->
             In (doc, sc) hits -> In doc store).
  { intros store hits doc sc Hs Hin. cbn in Hs. injection Hs as <-.
    apply list_elem_of_In in Hin. apply elem_of_take in Hin as (j & Hj & _).
    rewrite list_lookup_imap in Hj.
    destruct (store !! j) as [d|] eqn:Ed; [|discriminate Hj].
    injection Hj as <- _. apply list_elem_of_In.
    eapply list_elem_of_lookup_2. exact Ed. }
  destruct (search_results_come_from_adds example_services two_adds
              (lit "docs") (lit "water") 2 1 _ Horacle H) as (text & Ha & Hs).
  eexists _, text. split; [exact H|]. split; [exact Ha | exact Hs].
Defined.

End RetrievalMore.

(* ===================================================================== *)
(** * Further properties of the upload operation                          *)
(* ===================================================================== *)

Module MainMore.

Import PyFacts Extractor ExtractorMore Main MainSpec.

(** The path an upload is saved under, the text read back from it and the
    label it gets. *)
Definition upload_path (file : UploadFile.t) : str :=
  INPUT_FOLDER ++ lit "/" ++ UploadFile.filename file.

Definition upload_text (svc : services) (file : UploadFile.t) : str :=
  pdf_text svc (UploadFile.content file).

Definition upload_label (svc : services) (file : UploadFile.t) : str :=
  fst (Classifier.classify (classifier svc) (upload_text svc file)
         (UploadFile.filename file)).

(** The record of a successful upload. *)
Definition upload_record (file : UploadFile.t) (index_name doc_type : str)
    (extracted_data : gmap str value) : gmap str value :=
  extracted_data ∪
  <[lit "filename" := VStr (UploadFile.filename file)]>
    (<[lit "index_name" := VStr index_name]>
       (<[lit "class" := VStr doc_type]> ∅)).

(** A successful run of the [try] block, step by step. *)
Lemma upload_try_ok (svc : services) (w w' : world) (file : UploadFile.t)
    (index_name : str) (result : gmap str value) (stages : list stage) :
  upload_try svc w file index_name = (Ok result, w', stages) ->
  endswith (lit ".pdf") (UploadFile.filename file) = true
  /\ upload_text svc file <> []
  /\ exists extracted_data retrieval',
       extract (upload_text svc file) (upload_label svc file) = Ok extracted_data
       /\ Retrieval.add_document (retrieval_services svc) (retrieval w)
            index_name (UploadFile.filename file) (upload_text svc file)
          = Ok retrieval'
       /\ result = upload_record file index_name (upload_label svc file)
                     extracted_data
       /\ w' = {| retrieval := retrieval';
                  input_folder := <[upload_path file := UploadFile.content file]>
                                    (input_folder w);
                  output_json := Some (<[UploadFile.filename file := result]>
                                         (default ∅ (output_json w))) |}
       /\ stages = [ Saved (upload_path file); TextExtracted (upload_path file);
                     Classified
                       (snd (Classifier.classify (classifier svc)
                               (upload_text svc file) (UploadFile.filename file)));
                     Extracted; Indexed; OutputWritten ].
Proof.
  unfold upload_try, upload_label, upload_text.
  fold (upload_path file).
  destruct (endswith (lit ".pdf") (UploadFile.filename file));
    cbv beta iota delta [negb]; [|intros HH; discriminate HH].
  destruct (write_file svc _ _) as [[]|e]; [|intros HH; discriminate HH].
  unfold extract_text. cbn [input_folder].
  destruct (negb (str_eqb _ _)); [intros HH; discriminate HH|].
  rewrite lookup_insert_eq. cbn [default from_option id].
  destruct (pdf_text svc (UploadFile.content file)) as [|c text] eqn:Et;
    cbv beta iota delta [negb truthy]; [intros HH; discriminate HH|].
  destruct (Classifier.classify _ _ _) as [doc_type calls] eqn:Ec.
  destruct (extract _ _) as [extracted_data|e] eqn:Ee; [|intros HH; discriminate HH].
  cbn [retrieval].
  destruct (Retrieval.add_document _ _ _ _ _) as [retrieval'|e] eqn:Ea;
    [|intros HH; discriminate HH].
  cbn [output_json input_folder fst snd].
  intros [= <- <- <-].
  split; [reflexivity|]. split; [intros HH; discriminate HH|].
  exists extracted_data, retrieval'. repeat split; assumption || reflexivity.
Qed.

Lemma upload_document_ok (svc : services) (w w' : world) (file : UploadFile.t)
    (index_name : str) (result : gmap str value) (stages : list stage) :
  upload_document svc w file index_name = (Ok result, w', stages) ->
  upload_try svc w file index_name = (Ok result, w', stages).
Proof.
  unfold upload_document.
  destruct (upload_try svc w file index_name) as [[[r|e] w1] st].
  - intros H. exact H.
  - destruct e; intros HH; discriminate HH.
Qed.

(** X20: what a successful upload leaves behind.  The file name ends in
    ".pdf" and the text is not empty; the record holds the file name, the
    collection and the label of [classify] under "filename", "index_name"
    and "class", and besides them exactly the fields [extract] found;
    [output.json] holds this record under the file name, replacing an
    earlier record of that name and keeping the others; the document is
    the last of its collection; all six stages ran, in order. *)
Theorem upload_success (svc : services) (w w' : world) (file : UploadFile.t)
    (index_name : str) (result : gmap str value) (stages : list stage) :
  upload_document svc w file index_name = (Ok result, w', stages) ->
  endswith (lit ".pdf") (UploadFile.filename file) = true
  /\ upload_text svc file <> []
  /\ result !! lit "filename" = Some (VStr (UploadFile.filename file))
  /\ result !! lit "index_name" = Some (VStr index_name)
  /\ result !! lit "class" = Some (VStr (upload_label svc file))
  /\ (exists extracted_data,
        extract (upload_text svc file) (upload_label svc file)
        = Ok extracted_data
        /\ forall k,
             k <> lit "filename" -> k <> lit "index_name" -> k <> lit "class" ->
             result !! k = extracted_data !! k)
  /\ (exists earlier,
        output_json w' = Some (<[UploadFile.filename file := result]> earlier)
        /\ earlier = default ∅ (output_json w))
  /\ (exists store,
        Retrieval.vectorstores (retrieval w') !! index_name
        = Some (store ++ [RetrievalMore.new_document (UploadFile.filename file)
                            (upload_text svc file)])
        /\ store = default [] (Retrieval.vectorstores (retrieval w) !! index_name))
  /\ exists path calls,
       stages = [ Saved path; TextExtracted path; Classified calls;
                  Extracted; Indexed; OutputWritten ].
Proof.
  intros H. apply upload_document_ok, upload_try_ok in H
    as (Hpdf & Htext & data & retrieval' & He & Ha & -> & -> & ->).
  assert (Hres : forall k v,
             data !! k = Some v ->
             k <> lit "class" /\ k <> lit "filename" /\ k <> lit "index_name")
    by (intros k v; apply (extract_not_reserved _ _ _ _ _ He)).
  assert (Hnone : forall k,
             k = lit "class" \/ k = lit "filename" \/ k = lit "index_name" ->
             data !! k = None).
  { intros k Hk. destruct (data !! k) as [v|] eqn:E; [|reflexivity].
    destruct (Hres k v E) as (H1 & H2 & H3). tauto. }
  split; [exact Hpdf|]. split; [exact Htext|].
  unfold upload_record.
  split; [|split; [|split; [|split; [|split; [|split]]]]].
  - rewrite lookup_union_r by auto. apply lookup_insert_eq.
  - rewrite lookup_union_r by auto.
    rewrite lookup_insert_ne by neq_lit. apply lookup_insert_eq.
  - rewrite lookup_union_r by auto.
    rewrite !lookup_insert_ne by neq_lit. apply lookup_insert_eq.
  - exists data. split; [exact He|]. intros k H1 H2 H3.
    destruct (data !! k) as [v|] eqn:E.
    + apply lookup_union_Some_l. exact E.
    + rewrite lookup_union_r by exact E.
      rewrite !lookup_insert_ne by congruence. apply lookup_empty.
  - eexists. split; reflexivity.
  - cbn [retrieval].
    destruct (RetrievalMore.add_document_result _ _ _ _ _ _ Ha) as [Hv _].
    cbv zeta in Hv. rewrite Hv, lookup_insert_eq.
    eexists. split; reflexivity.
  - eexists _, _. reflexivity.
Qed.

Definition acme_upload : UploadFile.t :=
  {| UploadFile.filename := lit "acme.pdf";
     UploadFile.content := ExtractorSpec.acme_invoice |}.

Lemma upload_success_witness :
  exists result w' stages,
    upload_document example_collaborators startup acme_upload (lit "default")
    = (Ok result, w', stages)
    /\ result !! lit "class"
       = Some (VStr (upload_label example_collaborators acme_upload)).
Proof.
  destruct (upload_document example_collaborators startup acme_upload
              (lit "default")) as [[[result|e] w'] stages] eqn:E.
  - exists result, w', stages. split; [reflexivity|].
    apply (upload_success example_collaborators startup w' acme_upload
             (lit "default") result stages E).
  - exfalso.
    assert (H : match fst (fst (upload_document example_collaborators startup
                                  acme_upload (lit "default"))) with
                | Ok _ => true
                | Raise _ => false
                end = true) by (vm_compute; reflexivity).
    rewrite E in H. discriminate H.
Defined.

(** The run stopped with an exception before indexing. *)
Ltac stopped :=
  intros [= <- <- <-]; cbn [retrieval output_json input_folder];
  split; [reflexivity|]; split; [reflexivity|];
  split; [cbn [In app]; intuition discriminate|];
  split; [cbn [In app]; intuition discriminate|];
  first [left; reflexivity | right; reflexivity].

(** A failed run of the [try] block leaves the indexes and [output.json]
    alone and has not reached the indexing stage. *)
Lemma upload_try_raise (svc : services) (w w' : world) (file : UploadFile.t)
    (index_name : str) (e : exn) (stages : list stage) :
  upload_try svc w file index_name = (Raise e, w', stages) ->
  retrieval w' = retrieval w
  /\ output_json w' = output_json w
  /\ ~ In Indexed stages /\ ~ In OutputWritten stages
  /\ (input_folder w' = input_folder w
      \/ input_folder w'
         = <[upload_path file := UploadFile.content file]> (input_folder w)).
Proof.
  unfold upload_try. fold (upload_path file).
  destruct (negb (endswith _ _)); [stopped|].
  destruct (write_file svc _ _) as [[]|e1]; [|stopped].
  destruct (extract_text svc _ _) as [text|e1]; [|stopped].
  destruct (negb (truthy text)); [stopped|].
  destruct (Classifier.classify _ _ _) as [doc_type calls].
  destruct (extract text doc_type) as [data|e1]; [|stopped].
  destruct (Retrieval.add_document _ _ _ _ _) as [r|e1]; [|stopped].
  intros HH. discriminate HH.
Qed.

(** X21: an upload that fails at the name check, while the file is saved,
    while its text is read, in the extraction or in the indexing is
    answered with an HTTP error, and the handler has then changed neither
    the search indexes nor [output.json]; the uploaded file, however, may
    already lie in the input folder.  (Reading and rewriting [output.json],
    the last step, are taken to succeed.) *)
Theorem upload_failure_keeps_state (svc : services) (w w' : world)
    (file : UploadFile.t) (index_name : str) (e : exn) (stages : list stage) :
  upload_document svc w file index_name = (Raise e, w', stages) ->
  (exists status_code detail, e = HTTPException status_code detail)
  /\ retrieval w' = retrieval w
  /\ output_json w' = output_json w
  /\ ~ In Indexed stages /\ ~ In OutputWritten stages
  /\ (input_folder w' = input_folder w
      \/ exists path,
           input_folder w' = <[path := UploadFile.content file]> (input_folder w)).
Proof.
  unfold upload_document.
  destruct (upload_try svc w file index_name) as [[[r|e1] w1] st] eqn:E;
    [intros HH; discriminate HH|].
  pose proof (upload_try_raise _ _ _ _ _ _ _ E) as (Hr & Ho & Hi & Hw & Hf).
  assert (Hf' : input_folder w1 = input_folder w
                \/ exists path,
                     input_folder w1
                     = <[path := UploadFile.content file]> (input_folder w))
    by (destruct Hf as [Hf|Hf]; [left; exact Hf | right; eexists; exact Hf]).
  destruct e1; intros [= <- <- <-]; (split; [eauto | auto]).
Qed.

(** Collaborators whose text extraction finds nothing. *)
Definition unreadable_pdf : services :=
  {| classifier := ClassifierSpec.sure_invoice;
     pdf_text := fun _ => [];
     write_file := fun _ _ => Ok tt;
     exn_str := fun _ => lit "error";
     retrieval_services := RetrievalSpec.example_services |}.

Lemma upload_failure_keeps_state_witness :
  upload_document unreadable_pdf startup acme_upload (lit "default")
  = (Raise (HTTPException 400 (lit "Failed to extract text from PDF")),
     {| retrieval := retrieval startup;
        input_folder := {[ upload_path acme_upload
                           := UploadFile.content acme_upload ]};
        output_json := None |},
     [Saved (upload_path acme_upload); TextExtracted (upload_path acme_upload)])
  /\ retrieval startup = retrieval startup.
Proof.
  assert (E : upload_document unreadable_pdf startup acme_upload (lit "default")
              = (Raise (HTTPException 400 (lit "Failed to extract text from PDF")),
                 {| retrieval := retrieval startup;
                    input_folder := <[ upload_path acme_upload
                                       := UploadFile.content acme_upload ]> ∅;
                    output_json := None |},
                 [Saved (upload_path acme_upload);
                  TextExtracted (upload_path acme_upload)]))
    by reflexivity.
  split; [exact E|].
  exact (proj1 (proj2 (upload_failure_keeps_state _ _ _ _ _ _ _ E))).
Defined.

End MainMore.

(* ===================================================================== *)
(** * document_processor.py: cleaning the extracted text                  *)
(* ===================================================================== *)

Module DocumentProcessor.

(** [re.sub(p, repl, s)] for a pattern [p] that is one character class
    repeated at least once ([\s+], [ +]; the repetition is greedy): from
    left to right, every maximal run of characters of the class is
    replaced by [repl].  [in_run] tells that the character before belongs
    to a run that is already replaced. *)
Fixpoint sub_plus_from (cls : ascii -> bool) (repl : str) (in_run : bool)
    (s : str) : str :=
  match s with
  | [] => []
  | c :: s' =>
      if cls c then
        (if in_run then [] else repl) ++ sub_plus_from cls repl true s'
      else c :: sub_plus_from cls repl false s'
  end.

Definition sub_plus (cls : ascii -> bool) (repl : str) (s : str) : str :=
  sub_plus_from cls repl false s.

(** [re.sub(p, repl, s)] for a pattern [p] that is one character class:
    every character of the class is replaced by [repl]. *)
Definition sub_class (cls : ascii -> bool) (repl : str) (s : str) : str :=
  flat_map (fun c => if cls c then repl else [c]) s.

(** [s.replace(old, new)] for one-character [old] and [new]. *)
Definition replace_char (old new : ascii) (s : str) : str :=
  map (fun c => if Ascii.eqb c old then new else c) s.

(** [sep.join(parts)]. *)
Fixpoint join (sep : str) (parts : list str) : str :=
  match parts with
  | [] => []
  | [p] => p
  | p :: parts' => p ++ sep ++ join sep parts'
  end.

(** The class [[^\w\s@.$,;:()\-\/]]: what is neither a word character,
    nor whitespace, nor one of the ten listed signs. *)
Definition removed (c : ascii) : bool :=
  negb (isword c || isspace c || existsb (Ascii.eqb c) (lit "@.$,;:()-/")).

Definition LF : ascii := "010"%char.
Definition CR : ascii := "013"%char.

(** [DocumentProcessor._clean_text] *)
Definition _clean_text (text : str) : str :=
  let text := sub_plus isspace (lit " ") text in
  let text := sub_class removed [] text in
  let text := replace_char CR " " (replace_char LF " " text) in
  let text := sub_plus (Ascii.eqb " ") (lit " ") text in
  strip text.

(** [DocumentProcessor._extract_from_pdf]; [load] stands for
    [PyMuPDFLoader(file_path).load()] and gives the text of each page. *)
Definition _extract_from_pdf (load : str -> exc (list str)) (file_path : str)
  : str :=
  match load file_path with
  | Ok text_parts => _clean_text (join [LF] text_parts)
  | Raise _ => []
  end.

End DocumentProcessor.

(* ===================================================================== *)
(** * Properties of the text cleaning                                     *)
(* ===================================================================== *)

Module DocumentProcessorSpec.

Import PyFacts Re ExtractorMore DocumentProcessor.

(** ** The substitutions and the matcher *)

(** The end of the run of class characters at the head of [s]: the
    character before it and the rest of the subject. *)
Fixpoint after_run (cls : ascii -> bool) (prev : option ascii) (s : str)
  : option ascii * str :=
  match s with
  | c :: s' => if cls c then after_run cls (Some c) s' else (prev, s)
  | [] => (prev, [])
  end.

Lemma after_run_rest (cls : ascii -> bool) (prev : option ascii) (s : str) :
  snd (after_run cls prev s) = drop (length (take_while cls s)) s.
Proof.
  revert prev. induction s as [|c s IH]; intros prev; simpl; [reflexivity|].
  destruct (cls c); simpl; [apply IH | reflexivity].
Qed.

Lemma take_while_split (cls : ascii -> bool) (s : str) :
  s = take_while cls s ++ drop (length (take_while cls s)) s.
Proof.
  induction s as [|c s IH]; simpl; [reflexivity|].
  destruct (cls c); simpl; [f_equal; exact IH | reflexivity].
Qed.

(** A greedy repetition of a class, followed by something that always
    matches, takes the whole run. *)
Lemma rep_loop_class {R} (items : list citem) (lo : nat) (k : cont (R := R))
    (fuel i : nat) (prev : option ascii) (s : str) (caps : captures) :
  length s <= fuel -> lo <= i ->
  (forall p s' c, k p s' c <> None) ->
  rep_loop (m false (Cls items)) lo None k fuel i prev s caps
  = k (fst (after_run (cls_match false items) prev s))
      (snd (after_run (cls_match false items) prev s)) caps.
Proof.
  intros Hf Hlo Hk. revert i prev s Hf Hlo.
  induction fuel as [|fuel IH]; intros i prev s Hf Hlo.
  - destruct s; [|simpl in Hf; lia]. simpl.
    apply Nat.leb_le in Hlo. rewrite Hlo. reflexivity.
  - cbn [rep_loop more]. apply Nat.leb_le in Hlo as Hlo'. rewrite Hlo'.
    destruct s as [|c s]; [reflexivity|].
    cbn [m after_run]. destruct (cls_match false items c); [|reflexivity].
    assert (Hlt : (length s <? length (c :: s))%nat = true)
      by (apply Nat.ltb_lt; simpl; lia).
    rewrite Hlt. rewrite IH by (simpl in Hf; lia).
    destruct (k _ _ caps) eqn:E; [reflexivity|].
    exfalso. exact (Hk _ _ _ E).
Qed.

Lemma m_class_cons {R} (items : list citem) (prev : option ascii) (c : ascii)
    (s : str) (caps : captures) (k : cont (R := R)) :
  m false (Cls items) prev (c :: s) caps k
  = if cls_match false items c then k (Some c) s caps else None.
Proof. reflexivity. Qed.

(** At a character of the class the pattern [[...]+] matches the whole
    run that starts there, and it matches nowhere else: the runs
    [sub_plus] replaces are the matches [re.sub] finds. *)
Lemma match_at_plus_class (items : list citem) (prev : option ascii) (s : str) :
  match_at false (plus (Cls items)) prev s
  = match s with
    | c :: s' =>
        if cls_match false items c then
          let run := c :: take_while (cls_match false items) s' in
          Some {| group0 := run; groups := []; consumed := length run |}
        else None
    | [] => None
    end.
Proof.
  unfold match_at, plus.
  match goal with
  | |- m false (Rep ?r ?lo ?hi) ?p ?s0 ?c0 ?k = _ =>
      change (m false (Rep r lo hi) p s0 c0 k)
        with (rep_loop (m false r) lo hi k (length s0) 0 p s0 c0)
  end.
  destruct s as [|c s]; [reflexivity|].
  cbn [length rep_loop more]. rewrite m_class_cons.
  destruct (cls_match false items c); [|reflexivity].
  assert (Hlt : (length s <? S (length s))%nat = true)
    by (apply Nat.ltb_lt; lia).
  rewrite Hlt.
  rewrite rep_loop_class by (lia || discriminate).
  rewrite after_run_rest.
  set (P := cls_match false items).
  pose proof (take_while_split P s) as Hs.
  set (run := take_while P s) in *.
  assert (Hlen : length (drop (length run) s) = length s - length run)
    by apply length_drop.
  assert (Hle : length run <= length s).
  { rewrite Hs at 1. rewrite length_app. lia. }
  cbv zeta.
  replace (S (length s) - length (drop (length run) s))
    with (S (length run)) by lia.
  cbn [take length]. f_equal. f_equal.
  rewrite Hs at 1. rewrite take_app_length. reflexivity.
Qed.

(** ** Characters *)

(** The ten signs the cleaning keeps besides word characters. *)
Definition sign (c : ascii) : bool :=
  existsb (Ascii.eqb c) (lit "@.$,;:()-/").

(** What the cleaning keeps as it is: word characters and signs. *)
Definition solid (c : ascii) : bool := isword c || sign c.

(** What a cleaned text is made of. *)
Definition allowed (c : ascii) : bool := solid c || Ascii.eqb " " c.

Lemma solid_not_space (c : ascii) : solid c = true -> isspace c = false.
Proof.
  destruct c as [[] [] [] [] [] [] [] []]; vm_compute; congruence.
Qed.

Lemma removed_solid (c : ascii) : removed c = negb (solid c || isspace c).
Proof.
  unfold removed, solid. fold (sign c).
  destruct (isword c), (isspace c), (sign c); reflexivity.
Qed.

Lemma space_isspace (c : ascii) : Ascii.eqb " " c = true -> isspace c = true.
Proof. intros H. apply Ascii.eqb_eq in H. subst c. reflexivity. Qed.

Lemma allowed_space (c : ascii) :
  allowed c = true -> isspace c = true -> c = " "%char.
Proof.
  unfold allowed. intros H Hs.
  apply orb_true_iff in H as [H|H]; [|apply Ascii.eqb_eq in H; auto].
  apply solid_not_space in H. congruence.
Qed.

Lemma allowed_kept (c : ascii) : allowed c = true -> removed c = false.
Proof.
  unfold allowed. intros H. rewrite removed_solid.
  apply orb_true_iff in H as [H|H].
  - rewrite H. reflexivity.
  - rewrite (space_isspace _ H), orb_true_r. reflexivity.
Qed.

(** ** The substitutions *)

Lemma sub_class_filter (cls : ascii -> bool) (s : str) :
  sub_class cls [] s = List.filter (fun c => negb (cls c)) s.
Proof.
  unfold sub_class. induction s as [|c s IH]; simpl; [reflexivity|].
  destruct (cls c); simpl; rewrite IH; reflexivity.
Qed.

Definition head_not (cls : ascii -> bool) (s : str) : bool :=
  match s with
  | c :: _ => negb (cls c)
  | [] => true
  end.

(** No two characters of the class in a row. *)
Fixpoint no_adjacent (cls : ascii -> bool) (s : str) : bool :=
  match s with
  | c :: s' => (negb (cls c) || head_not cls s') && no_adjacent cls s'
  | [] => true
  end.

Lemma sub_plus_from_forallb (Q cls : ascii -> bool) (repl : str) (b : bool)
    (s : str) :
  forallb Q repl = true ->
  (forall c, In c s -> cls c = false -> Q c = true) ->
  forallb Q (sub_plus_from cls repl b s) = true.
Proof.
  intros Hr. revert b. induction s as [|c s IH]; intros b Hs; simpl;
    [reflexivity|].
  destruct (cls c) eqn:E.
  - rewrite forallb_app, IH by (intros; apply Hs; simpl; auto).
    destruct b; simpl; rewrite ?Hr; reflexivity.
  - simpl. rewrite Hs by (simpl; auto).
    apply IH. intros; apply Hs; simpl; auto.
Qed.

Lemma sub_plus_from_no_adjacent (cls : ascii -> bool) (x : ascii) (b : bool)
    (s : str) :
  no_adjacent cls (sub_plus_from cls [x] b s) = true
  /\ (b = true -> head_not cls (sub_plus_from cls [x] b s) = true).
Proof.
  revert b. induction s as [|c s IH]; intros b; simpl; [auto|].
  destruct (cls c) eqn:E.
  - destruct (IH true) as [Hn Hh]. destruct b; simpl.
    + auto.
    + rewrite Hn, Hh by reflexivity. rewrite orb_true_r.
      split; [reflexivity | discriminate].
  - destruct (IH false) as [Hn _]. simpl. rewrite E, Hn. auto.
Qed.

Lemma sub_plus_from_fixed (cls : ascii -> bool) (x : ascii) (b : bool)
    (s : str) :
  (forall c, In c s -> cls c = true -> c = x) ->
  no_adjacent cls s = true ->
  (b = true -> head_not cls s = true) ->
  sub_plus_from cls [x] b s = s.
Proof.
  revert b. induction s as [|c s IH]; intros b Hx Hn Hh; simpl;
    [reflexivity|].
  simpl in Hn. apply andb_true_iff in Hn as [Hc Hn].
  destruct (cls c) eqn:E.
  - destruct b; [simpl in Hh; rewrite E in Hh; discriminate (Hh eq_refl)|].
    simpl. rewrite (Hx c) by (simpl; auto). f_equal.
    apply IH; [intros; apply Hx; simpl; auto | exact Hn | intros _; exact Hc].
  - f_equal.
    apply IH; [intros; apply Hx; simpl; auto | exact Hn | discriminate].
Qed.

(** Replacing runs of whitespace by one whitespace character keeps the
    words. *)
Lemma split_ws_acc_sub_plus_from (cls : ascii -> bool) (x : ascii) (b : bool)
    (cur s : str) :
  (forall c, cls c = true -> isspace c = true) ->
  isspace x = true ->
  (b = true -> cur = []) ->
  split_ws_acc cur (sub_plus_from cls [x] b s) = split_ws_acc cur s.
Proof.
  intros Hc Hx. revert b cur. induction s as [|c s IH]; intros b cur Hb;
    simpl; [reflexivity|].
  destruct (cls c) eqn:E.
  - rewrite (Hc c E). destruct b; simpl.
    + rewrite (Hb eq_refl). simpl. apply IH. reflexivity.
    + rewrite Hx. rewrite (IH true []) by reflexivity. reflexivity.
  - simpl. destruct (isspace c).
    + rewrite (IH false []) by discriminate. reflexivity.
    + apply IH. discriminate.
Qed.

Lemma truthy_rev (s : str) : truthy (rev s) = truthy s.
Proof.
  destruct s as [|c s]; [reflexivity|]. simpl.
  destruct (rev s); reflexivity.
Qed.

Lemma flush_filter (keep : ascii -> bool) (cur : str) :
  (if truthy (List.filter keep cur) then [rev (List.filter keep cur)] else [])
  = List.filter truthy
      (map (List.filter keep) (if truthy cur then [rev cur] else [])).
Proof.
  destruct cur as [|a cur]; [reflexivity|].
  cbn [truthy map]. rewrite filter_rev.
  generalize (List.filter keep (a :: cur)). intros F.
  cbn [List.filter]. rewrite truthy_rev. reflexivity.
Qed.

Lemma split_ws_acc_filter (keep : ascii -> bool) (cur s : str) :
  (forall c, isspace c = true -> keep c = true) ->
  split_ws_acc (List.filter keep cur) (List.filter keep s)
  = List.filter truthy (map (List.filter keep) (split_ws_acc cur s)).
Proof.
  intros Hk. revert cur. induction s as [|c s IH]; intros cur.
  - apply flush_filter.
  - cbn [List.filter split_ws_acc]. destruct (isspace c) eqn:Es.
    + rewrite (Hk c Es). cbn [split_ws_acc]. rewrite Es.
      pose proof (IH []) as IH0. cbn [List.filter] in IH0.
      pose proof (flush_filter keep cur) as Hf.
      destruct (truthy cur) eqn:Ec.
      * cbn [map List.filter] in Hf |- *. revert Hf.
        destruct (truthy (List.filter keep cur)),
          (truthy (List.filter keep (rev cur)));
          intros Hf; try discriminate Hf.
        -- injection Hf as Hf. rewrite Hf, IH0. reflexivity.
        -- exact IH0.
      * destruct cur; [|discriminate Ec]. exact IH0.
    + destruct (keep c) eqn:Ek.
      * cbn [split_ws_acc]. rewrite Es. rewrite <- IH.
        cbn [List.filter]. rewrite Ek. reflexivity.
      * rewrite <- IH. cbn [List.filter]. rewrite Ek. reflexivity.
Qed.

Lemma split_ws_acc_map (f : ascii -> ascii) (cur s : str) :
  (forall c, isspace c = true -> isspace (f c) = true) ->
  (forall c, isspace c = false -> f c = c) ->
  split_ws_acc cur (map f s) = split_ws_acc cur s.
Proof.
  intros Hs Hn. revert cur. induction s as [|c s IH]; intros cur; simpl;
    [reflexivity|].
  destruct (isspace c) eqn:E.
  - rewrite (Hs c E), !IH. reflexivity.
  - rewrite (Hn c E), E. apply IH.
Qed.

Lemma split_ws_acc_spaces_front (ws s : str) :
  forallb isspace ws = true ->
  split_ws_acc [] (ws ++ s) = split_ws_acc [] s.
Proof.
  induction ws as [|c ws IH]; simpl; [reflexivity|].
  intros H. apply andb_true_iff in H as [Hc H]. rewrite Hc. auto.
Qed.

Lemma split_ws_acc_spaces (cur ws : str) :
  forallb isspace ws = true ->
  split_ws_acc cur ws = split_ws_acc cur [].
Proof.
  revert cur. induction ws as [|c ws IH]; intros cur; simpl; [reflexivity|].
  intros H. apply andb_true_iff in H as [Hc H]. rewrite Hc.
  rewrite (IH [] H). reflexivity.
Qed.

Lemma split_ws_acc_spaces_back (cur s ws : str) :
  forallb isspace ws = true ->
  split_ws_acc cur (s ++ ws) = split_ws_acc cur s.
Proof.
  intros H. revert cur. induction s as [|c s IH]; intros cur; simpl.
  - apply (split_ws_acc_spaces cur ws H).
  - rewrite !IH. reflexivity.
Qed.

Lemma split_ws_strip (s : str) : split_ws (strip s) = split_ws s.
Proof.
  unfold split_ws. destruct (strip_split s) as (b & a & Hs & Hb & Ha).
  rewrite Hs at 2.
  rewrite split_ws_acc_spaces_front, split_ws_acc_spaces_back by assumption.
  reflexivity.
Qed.

Lemma forallb_rev_true {A} (f : A -> bool) (l : list A) :
  forallb f l = true -> forallb f (rev l) = true.
Proof.
  rewrite !forallb_forall. intros H x Hx. apply H, in_rev. exact Hx.
Qed.

Lemma split_ws_acc_no_space (cur s w : str) :
  In w (split_ws_acc cur s) ->
  forallb (fun c => negb (isspace c)) cur = true ->
  forallb (fun c => negb (isspace c)) w = true.
Proof.
  revert cur. induction s as [|c s IH]; intros cur; cbn [split_ws_acc].
  - destruct (truthy cur); [|intros []].
    intros [<- | []]. apply forallb_rev_true.
  - destruct (isspace c) eqn:E.
    + destruct (truthy cur).
      * intros [<- | Hw]; [apply forallb_rev_true|].
        intros _. apply (IH [] Hw). reflexivity.
      * intros Hw _. apply (IH [] Hw). reflexivity.
    + intros Hw H. apply (IH (c :: cur) Hw). cbn [forallb].
      rewrite E. exact H.
Qed.

Lemma split_ws_acc_nonempty (cur s : str) :
  cur <> [] -> split_ws_acc cur s <> [].
Proof.
  revert cur. induction s as [|c s IH]; intros cur Hc; simpl.
  - destruct cur; [congruence | discriminate].
  - destruct (isspace c).
    + destruct cur; [congruence | discriminate].
    + apply IH. discriminate.
Qed.

(** ** Stripping *)

Lemma lstrip_head (s : str) : head_not isspace (lstrip s) = true.
Proof.
  induction s as [|c s IH]; simpl; [reflexivity|].
  destruct (isspace c) eqn:E; [exact IH | simpl; rewrite E; reflexivity].
Qed.

Lemma lstrip_fixed (s : str) : head_not isspace s = true -> lstrip s = s.
Proof.
  destruct s as [|c s]; simpl; [reflexivity|].
  destruct (isspace c); [discriminate | reflexivity].
Qed.

Lemma lstrip_app_last (s : str) (c : ascii) :
  isspace c = false -> lstrip (s ++ [c]) = lstrip s ++ [c].
Proof.
  intros Hc. induction s as [|a s IH]; simpl; [rewrite Hc; reflexivity|].
  destruct (isspace a); [exact IH | reflexivity].
Qed.

Lemma rstrip_head (s : str) :
  head_not isspace s = true -> head_not isspace (rstrip s) = true.
Proof.
  unfold rstrip. destruct s as [|c s]; [reflexivity|]. simpl.
  intros Hc. apply negb_true_iff in Hc.
  rewrite (lstrip_app_last _ _ Hc), rev_app_distr. simpl.
  rewrite Hc. reflexivity.
Qed.

Lemma strip_head (s : str) : head_not isspace (strip s) = true.
Proof. apply rstrip_head, lstrip_head. Qed.

Lemma strip_last (s : str) : head_not isspace (rev (strip s)) = true.
Proof.
  unfold strip, rstrip. rewrite rev_involutive. apply lstrip_head.
Qed.

Lemma strip_fixed (s : str) :
  head_not isspace s = true -> head_not isspace (rev s) = true ->
  strip s = s.
Proof.
  intros Hh Hl. unfold strip, rstrip.
  rewrite (lstrip_fixed s Hh), (lstrip_fixed _ Hl). apply rev_involutive.
Qed.

Lemma head_not_app (cls : ascii -> bool) (a b : str) :
  head_not cls (a ++ b) = true -> head_not cls a = true.
Proof. destruct a; [reflexivity | exact (fun H => H)]. Qed.

Lemma no_adjacent_app_l (cls : ascii -> bool) (a b : str) :
  no_adjacent cls (a ++ b) = true -> no_adjacent cls a = true.
Proof.
  induction a as [|c a IH]; simpl; [reflexivity|].
  intros H. apply andb_true_iff in H as [Hc H].
  rewrite (IH H), andb_true_r.
  apply orb_true_iff in Hc as [Hc|Hc]; [rewrite Hc; reflexivity|].
  rewrite (head_not_app _ _ _ Hc). apply orb_true_r.
Qed.

Lemma no_adjacent_app_r (cls : ascii -> bool) (a b : str) :
  no_adjacent cls (a ++ b) = true -> no_adjacent cls b = true.
Proof.
  induction a as [|c a IH]; simpl; [exact (fun H => H)|].
  intros H. apply andb_true_iff in H as [_ H]. exact (IH H).
Qed.

Lemma no_adjacent_strip (cls : ascii -> bool) (s : str) :
  no_adjacent cls s = true -> no_adjacent cls (strip s) = true.
Proof.
  intros H. destruct (strip_split s) as (b & a & Hs & _).
  rewrite Hs in H. apply no_adjacent_app_r, no_adjacent_app_l in H. exact H.
Qed.

Lemma head_not_ext (P Q : ascii -> bool) (s : str) :
  (forall c, In c s -> P c = Q c) -> head_not P s = head_not Q s.
Proof.
  destruct s as [|c s]; simpl; [reflexivity|].
  intros H. rewrite (H c) by auto. reflexivity.
Qed.

Lemma no_adjacent_ext (P Q : ascii -> bool) (s : str) :
  (forall c, In c s -> P c = Q c) -> no_adjacent P s = no_adjacent Q s.
Proof.
  induction s as [|c s IH]; simpl; [reflexivity|].
  intros H. rewrite (H c), IH, (head_not_ext P Q s) by auto. reflexivity.
Qed.

(** In a text of allowed characters the only whitespace is the space. *)
Lemma allowed_space_class (s : str) :
  forallb allowed s = true ->
  forall c, In c s -> Ascii.eqb " " c = isspace c.
Proof.
  intros H c Hc. rewrite forallb_forall in H. specialize (H c Hc).
  destruct (isspace c) eqn:E.
  - rewrite (allowed_space c H E). reflexivity.
  - destruct (Ascii.eqb " " c) eqn:E'; [|reflexivity].
    apply space_isspace in E'. congruence.
Qed.

(** ** The stages of [_clean_text] *)

Definition spaced (text : str) : str := sub_plus isspace (lit " ") text.
Definition kept (text : str) : str := sub_class removed [] (spaced text).
Definition replaced (text : str) : str :=
  replace_char CR " " (replace_char LF " " (kept text)).
Definition squeezed (text : str) : str :=
  sub_plus (Ascii.eqb " ") (lit " ") (replaced text).

Lemma clean_text_stages (text : str) : _clean_text text = strip (squeezed text).
Proof. reflexivity. Qed.

Lemma kept_allowed (text : str) : forallb allowed (kept text) = true.
Proof.
  unfold kept. rewrite sub_class_filter.
  assert (H : forallb (fun c => negb (isspace c) || Ascii.eqb " " c)
                (spaced text) = true).
  { apply sub_plus_from_forallb; [reflexivity|].
    intros c _ Hc. rewrite Hc. reflexivity. }
  rewrite forallb_forall in *. intros c Hc.
  apply filter_In in Hc as [Hc Hr]. specialize (H c Hc).
  rewrite removed_solid, negb_involutive in Hr. unfold allowed.
  destruct (solid c); [reflexivity|].
  simpl in Hr. rewrite Hr in H. exact H.
Qed.

Lemma replace_char_absent (old new : ascii) (s : str) :
  ~ In old s -> replace_char old new s = s.
Proof.
  unfold replace_char. induction s as [|c s IH]; simpl; [reflexivity|].
  intros H. rewrite IH by tauto.
  destruct (Ascii.eqb c old) eqn:E; [|reflexivity].
  apply Ascii.eqb_eq in E. tauto.
Qed.

Lemma allowed_absent (old : ascii) (s : str) :
  allowed old = false -> forallb allowed s = true -> ~ In old s.
Proof.
  intros Ho H Hin. rewrite forallb_forall in H. rewrite (H _ Hin) in Ho.
  discriminate Ho.
Qed.

(** After the first two stages nothing is left for the two [replace] calls
    to do. *)
Lemma replaced_kept (text : str) : replaced text = kept text.
Proof.
  unfold replaced. pose proof (kept_allowed text) as H.
  rewrite (replace_char_absent LF) by (apply allowed_absent; auto).
  apply replace_char_absent, allowed_absent; auto.
Qed.

Lemma squeezed_allowed (text : str) : forallb allowed (squeezed text) = true.
Proof.
  unfold squeezed. rewrite replaced_kept.
  apply sub_plus_from_forallb; [reflexivity|].
  intros c Hc _. pose proof (kept_allowed text) as H.
  rewrite forallb_forall in H. auto.
Qed.

(** The form of a cleaned text, on the class of the space. *)
Definition tidy (s : str) : Prop :=
  forallb allowed s = true
  /\ no_adjacent (Ascii.eqb " ") s = true
  /\ head_not (Ascii.eqb " ") s = true
  /\ head_not (Ascii.eqb " ") (rev s) = true.

Lemma clean_text_tidy (text : str) : tidy (_clean_text text).
Proof.
  rewrite clean_text_stages.
  assert (Ha : forallb allowed (strip (squeezed text)) = true)
    by apply forallb_strip, squeezed_allowed.
  split; [exact Ha|]. split; [|split].
  - apply no_adjacent_strip. unfold squeezed.
    apply (sub_plus_from_no_adjacent (Ascii.eqb " ") " " false).
  - rewrite (head_not_ext _ isspace) by apply allowed_space_class, Ha.
    apply strip_head.
  - rewrite (head_not_ext _ isspace).
    + apply strip_last.
    + intros c Hc. apply (allowed_space_class _ Ha), in_rev. exact Hc.
Qed.

Lemma filter_all {A} (f : A -> bool) (l : list A) :
  forallb f l = true -> List.filter f l = l.
Proof.
  induction l as [|a l IH]; simpl; [reflexivity|].
  intros H. apply andb_true_iff in H as [Ha H]. rewrite Ha, IH by exact H.
  reflexivity.
Qed.

Lemma tidy_fixed (s : str) : tidy s -> _clean_text s = s.
Proof.
  intros (Ha & Hn & Hh & Hl).
  pose proof (allowed_space_class s Ha) as Hcls.
  assert (H1 : spaced s = s).
  { apply sub_plus_from_fixed; [| |discriminate].
    - intros c Hc Hs. rewrite forallb_forall in Ha.
      apply allowed_space; auto.
    - rewrite <- (no_adjacent_ext _ isspace s Hcls). exact Hn. }
  assert (H2 : kept s = s).
  { unfold kept. rewrite H1, sub_class_filter. apply filter_all.
    rewrite forallb_forall in *. intros c Hc.
    rewrite (allowed_kept c (Ha c Hc)). reflexivity. }
  assert (H3 : squeezed s = s).
  { unfold squeezed. rewrite replaced_kept, H2.
    apply sub_plus_from_fixed; [| exact Hn | discriminate].
    intros c _ Hc. apply Ascii.eqb_eq in Hc. auto. }
  rewrite clean_text_stages, H3. apply strip_fixed.
  - rewrite <- (head_not_ext _ isspace s Hcls). exact Hh.
  - rewrite <- (head_not_ext (Ascii.eqb " ") isspace); [exact Hl|].
    intros c Hc. apply Hcls, in_rev. exact Hc.
Qed.

(** ** The form of a cleaned text *)

(** A clean text: word characters, the ten signs and single spaces
    between them, none at either end. *)
Definition clean (s : str) : Prop :=
  forallb allowed s = true
  /\ contains (lit "  ") s = false
  /\ startswith (lit " ") s = false
  /\ endswith (lit " ") s = false.

Lemma startswith_space (s : str) :
  startswith (lit " ") s = negb (head_not (Ascii.eqb " ") s).
Proof.
  destruct s as [|c s]; [reflexivity|]. simpl.
  rewrite andb_true_r, negb_involutive. reflexivity.
Qed.

Lemma endswith_space (s : str) :
  endswith (lit " ") s = negb (head_not (Ascii.eqb " ") (rev s)).
Proof. unfold endswith. apply startswith_space. Qed.

Lemma contains_two_spaces (s : str) :
  contains (lit "  ") s = negb (no_adjacent (Ascii.eqb " ") s).
Proof.
  induction s as [|c s IH]; [reflexivity|].
  cbn [contains no_adjacent]. rewrite IH.
  change (startswith (lit "  ") (c :: s))
    with (Ascii.eqb " " c && startswith (lit " ") s).
  rewrite startswith_space.
  destruct (Ascii.eqb " " c), (head_not (Ascii.eqb " ") s),
    (no_adjacent (Ascii.eqb " ") s); reflexivity.
Qed.

Lemma tidy_clean (s : str) : tidy s <-> clean s.
Proof.
  unfold tidy, clean.
  rewrite contains_two_spaces, startswith_space, endswith_space.
  rewrite !negb_false_iff. reflexivity.
Qed.

(** X22: the form of the text [_clean_text] returns.  It is made of word
    characters, the signs [@ . $ , ; : ( ) - /] and spaces only (no line
    break, no tab), it holds no two spaces in a row, and it neither starts
    nor ends with a space. *)
Theorem clean_text_form (text : str) : clean (_clean_text text).
Proof.
  destruct (clean_text_tidy text) as (Ha & Hn & Hh & Hl).
  unfold clean. split; [exact Ha|].
  rewrite contains_two_spaces, startswith_space, endswith_space.
  rewrite Hn, Hh, Hl. repeat split.
Qed.

(** X23: the texts [_clean_text] leaves as they are are exactly the clean
    ones; so cleaning a cleaned text changes nothing. *)
Theorem clean_text_fixed_points (s : str) :
  (_clean_text s = s <-> clean s)
  /\ _clean_text (_clean_text s) = _clean_text s.
Proof.
  split.
  - split.
    + intros H. rewrite <- H. apply tidy_clean, clean_text_tidy.
    + intros H. apply tidy_fixed, tidy_clean. exact H.
  - apply tidy_fixed, clean_text_tidy.
Qed.

Lemma clean_text_fixed_points_witness :
  clean (lit "Invoice 12 Total: $5.00 (paid)")
  /\ _clean_text (lit "Invoice 12 Total: $5.00 (paid)")
     = lit "Invoice 12 Total: $5.00 (paid)".
Proof.
  assert (H : clean (lit "Invoice 12 Total: $5.00 (paid)"))
    by (repeat split).
  split; [exact H|].
  apply (proj2 (proj1 (clean_text_fixed_points
                         (lit "Invoice 12 Total: $5.00 (paid)")))).
  exact H.
Defined.

(** ** The words of a cleaned text *)

Lemma join_cons (sep p : str) (parts : list str) :
  parts <> [] -> join sep (p :: parts) = p ++ sep ++ join sep parts.
Proof. destruct parts; [congruence | reflexivity]. Qed.

Lemma head_not_rev_cons (cls : ascii -> bool) (c : ascii) (s : str) :
  head_not cls (rev (c :: s)) = true ->
  (s = [] -> cls c = false) /\ head_not cls (rev s) = true.
Proof.
  simpl. destruct s as [|a s].
  - simpl. intros H. apply negb_true_iff in H. auto.
  - intros H. split; [discriminate|].
    apply (head_not_app cls (rev (a :: s)) [c]). exact H.
Qed.

(** A text whose whitespace is single spaces between words is its words
    joined by one space. *)
Lemma join_split_ws_acc (cur s : str) :
  (forall c, In c s -> isspace c = true -> c = " "%char) ->
  no_adjacent isspace s = true ->
  head_not isspace (rev s) = true ->
  (cur = [] -> head_not isspace s = true) ->
  join (lit " ") (split_ws_acc cur s) = rev cur ++ s.
Proof.
  revert cur. induction s as [|c s IH]; intros cur Hsp Hn Hl Hh.
  - cbn [split_ws_acc]. rewrite app_nil_r.
    destruct cur as [|a cur]; reflexivity.
  - apply head_not_rev_cons in Hl as [Hlast Hl].
    cbn [no_adjacent] in Hn. apply andb_true_iff in Hn as [Hc Hn].
    assert (Hsp' : forall x, In x s -> isspace x = true -> x = " "%char)
      by (intros; apply Hsp; simpl; auto).
    cbn [split_ws_acc]. destruct (isspace c) eqn:E.
    + rewrite (Hsp c) by (simpl; auto).
      destruct cur as [|a cur].
      { specialize (Hh eq_refl). simpl in Hh. rewrite E in Hh. discriminate Hh. }
      simpl in Hc.
      destruct s as [|b s]; [specialize (Hlast eq_refl); congruence|].
      cbn [truthy]. rewrite join_cons.
      * rewrite (IH [] Hsp' Hn Hl (fun _ => Hc)). reflexivity.
      * simpl in Hc. apply negb_true_iff in Hc.
        cbn [split_ws_acc]. rewrite Hc.
        apply split_ws_acc_nonempty. discriminate.
    + rewrite (IH (c :: cur) Hsp' Hn Hl) by discriminate.
      simpl. rewrite <- app_assoc. reflexivity.
Qed.

Lemma filter_kept_word (w : str) :
  forallb (fun c => negb (isspace c)) w = true ->
  List.filter (fun c => negb (removed c)) w = List.filter solid w.
Proof.
  intros H. apply filter_ext_in. intros c Hc.
  rewrite forallb_forall in H. specialize (H c Hc).
  apply negb_true_iff in H.
  rewrite removed_solid, negb_involutive, H, orb_false_r. reflexivity.
Qed.

Lemma split_ws_sub_plus (cls : ascii -> bool) (s : str) :
  (forall c, cls c = true -> isspace c = true) ->
  split_ws (sub_plus cls (lit " ") s) = split_ws s.
Proof.
  intros H.
  apply (split_ws_acc_sub_plus_from cls " " false []);
    [exact H | reflexivity | discriminate].
Qed.

(** The words of a text. *)
Definition words (text : str) : list str :=
  List.filter truthy (map (List.filter solid) (split_ws text)).

Lemma tidy_join (s : str) : tidy s -> join (lit " ") (split_ws s) = s.
Proof.
  intros (Ha & Hn & Hh & Hl).
  pose proof (allowed_space_class _ Ha) as Hcls.
  apply (join_split_ws_acc []).
  - intros c Hc Hs. rewrite forallb_forall in Ha.
    apply allowed_space; auto.
  - rewrite <- (no_adjacent_ext _ isspace _ Hcls). exact Hn.
  - rewrite <- (head_not_ext (Ascii.eqb " ") isspace); [exact Hl|].
    intros c Hc. apply Hcls, in_rev. exact Hc.
  - intros _. rewrite <- (head_not_ext _ isspace _ Hcls). exact Hh.
Qed.

Lemma split_ws_kept (text : str) :
  split_ws (kept text)
  = List.filter truthy
      (map (List.filter (fun c => negb (removed c))) (split_ws (spaced text))).
Proof.
  unfold kept. rewrite sub_class_filter.
  apply (split_ws_acc_filter (fun c => negb (removed c)) []).
  intros c Hc. rewrite removed_solid, Hc, orb_true_r. reflexivity.
Qed.

Lemma split_ws_clean_text (text : str) :
  split_ws (_clean_text text) = words text.
Proof.
  rewrite clean_text_stages, split_ws_strip. unfold squeezed.
  rewrite split_ws_sub_plus by exact space_isspace.
  rewrite replaced_kept, split_ws_kept. unfold spaced.
  rewrite split_ws_sub_plus by auto.
  unfold words. f_equal. apply map_ext_in. intros w Hw.
  apply filter_kept_word.
  apply (split_ws_acc_no_space [] text w Hw). reflexivity.
Qed.

(** X24: what [_clean_text] computes.  The text is cut into words at
    whitespace, every character that is neither a word character nor one
    of the ten signs is dropped from each word, the words left empty are
    dropped, and the others are joined by single spaces. *)
Theorem clean_text_words (text : str) :
  _clean_text text
  = join (lit " ")
      (List.filter truthy (map (List.filter solid) (split_ws text))).
Proof.
  transitivity (join (lit " ") (split_ws (_clean_text text))).
  - symmetry. apply tidy_join, clean_text_tidy.
  - f_equal. rewrite split_ws_clean_text. reflexivity.
Qed.

(** ** What the cleaning keeps *)

Lemma filter_solid_sub_plus_from (cls : ascii -> bool) (repl : str) (b : bool)
    (s : str) :
  (forall c, cls c = true -> solid c = false) ->
  List.filter solid repl = [] ->
  List.filter solid (sub_plus_from cls repl b s) = List.filter solid s.
Proof.
  intros Hc Hr. revert b. induction s as [|c s IH]; intros b;
    cbn [sub_plus_from List.filter]; [reflexivity|].
  destruct (cls c) eqn:E.
  - rewrite List.filter_app, IH, (Hc c E).
    destruct b; [reflexivity | rewrite Hr; reflexivity].
  - cbn [List.filter]. rewrite IH. reflexivity.
Qed.

Lemma filter_solid_kept (s : str) :
  List.filter solid (List.filter (fun c => negb (removed c)) s)
  = List.filter solid s.
Proof.
  induction s as [|c s IH]; cbn [List.filter]; [reflexivity|].
  rewrite removed_solid, negb_involutive.
  destruct (solid c) eqn:E; cbn [orb List.filter];
    [rewrite E, IH; reflexivity|].
  destruct (isspace c); cbn [List.filter]; rewrite ?E; exact IH.
Qed.

Lemma filter_solid_spaces (ws : str) :
  forallb isspace ws = true -> List.filter solid ws = [].
Proof.
  induction ws as [|c ws IH]; cbn [forallb List.filter]; [reflexivity|].
  intros H. apply andb_true_iff in H as [Hc H].
  destruct (solid c) eqn:E; [|auto].
  apply solid_not_space in E. congruence.
Qed.

(** The word characters and signs of the text are those of the cleaned
    text, in the same order. *)
Lemma clean_text_solid (text : str) :
  List.filter solid (_clean_text text) = List.filter solid text.
Proof.
  rewrite clean_text_stages.
  destruct (strip_split (squeezed text)) as (b & a & Hs & Hb & Hafter).
  transitivity (List.filter solid (squeezed text)).
  - rewrite Hs at 2. rewrite !List.filter_app.
    rewrite (filter_solid_spaces b Hb), (filter_solid_spaces a Hafter).
    rewrite app_nil_r. reflexivity.
  - unfold squeezed. unfold sub_plus. rewrite filter_solid_sub_plus_from.
    + rewrite replaced_kept. unfold kept.
      rewrite sub_class_filter, filter_solid_kept.
      apply filter_solid_sub_plus_from; [|reflexivity].
      intros c Hc. destruct (solid c) eqn:E; [|reflexivity].
      apply solid_not_space in E. congruence.
    + intros c Hc. apply Ascii.eqb_eq in Hc. subst c. reflexivity.
    + reflexivity.
Qed.

Lemma filter_nil_forallb {A} (f : A -> bool) (l : list A) :
  List.filter f l = [] <-> forallb (fun x => negb (f x)) l = true.
Proof.
  induction l as [|a l IH]; simpl; [tauto|].
  destruct (f a); simpl; [split; discriminate | exact IH].
Qed.

(** X25: the cleaned text is empty exactly when the text holds no word
    character and none of the ten signs; any other text gives a text that
    is not empty. *)
Theorem clean_text_empty (text : str) :
  _clean_text text = [] <-> forallb (fun c => negb (solid c)) text = true.
Proof.
  rewrite <- filter_nil_forallb, <- clean_text_solid.
  split; [intros ->; reflexivity|].
  destruct (clean_text_tidy text) as (Ha & _ & Hh & _).
  destruct (_clean_text text) as [|c r]; [reflexivity|].
  cbn [forallb head_not] in Ha, Hh. apply andb_true_iff in Ha as [Ha _].
  unfold allowed in Ha. apply negb_true_iff in Hh.
  rewrite Hh, orb_false_r in Ha. cbn [List.filter]. rewrite Ha. discriminate.
Qed.

Lemma clean_text_empty_witness :
  _clean_text (lit " #!? *** ") = []
  /\ _clean_text (lit " #1 ") <> [].
Proof.
  split.
  - apply (proj2 (clean_text_empty (lit " #!? *** "))). reflexivity.
  - intros H. apply (proj1 (clean_text_empty (lit " #1 "))) in H.
    vm_compute in H. discriminate H.
Defined.

(** ** Pages *)

Lemma split_ws_acc_app_space (cur a b : str) (ws : ascii) :
  isspace ws = true ->
  split_ws_acc cur (a ++ ws :: b) = split_ws_acc cur a ++ split_ws_acc [] b.
Proof.
  intros Hw. revert cur. induction a as [|c a IH]; intros cur;
    cbn [app split_ws_acc].
  - rewrite Hw. destruct (truthy cur); reflexivity.
  - destruct (isspace c); [|apply IH].
    rewrite IH. destruct (truthy cur); reflexivity.
Qed.

Lemma split_ws_join_lines (text_parts : list str) :
  split_ws (join [LF] text_parts) = concat (map split_ws text_parts).
Proof.
  induction text_parts as [|p parts IH]; [reflexivity|].
  destruct parts as [|q parts].
  - cbn [join map concat]. rewrite app_nil_r. reflexivity.
  - change (join [LF] (p :: q :: parts))
      with (p ++ LF :: join [LF] (q :: parts)).
    unfold split_ws at 1.
    rewrite split_ws_acc_app_space by reflexivity.
    fold (split_ws p). fold (split_ws (join [LF] (q :: parts))).
    rewrite IH. reflexivity.
Qed.

Lemma words_join_lines (text_parts : list str) :
  words (join [LF] text_parts) = concat (map words text_parts).
Proof.
  unfold words. rewrite split_ws_join_lines.
  induction text_parts as [|p parts IH]; [reflexivity|].
  cbn [map concat]. rewrite map_app, List.filter_app, IH. reflexivity.
Qed.

Lemma words_truthy (text : str) : forallb truthy (words text) = true.
Proof.
  unfold words. apply forallb_forall. intros w Hw.
  apply filter_In in Hw as [_ Hw]. exact Hw.
Qed.

Definition some_items {A} (l : list A) : bool :=
  match l with
  | [] => false
  | _ :: _ => true
  end.

Lemma join_truthy (sep : str) (parts : list str) :
  forallb truthy parts = true ->
  truthy (join sep parts) = some_items parts.
Proof.
  destruct parts as [|[|c p] parts]; [reflexivity | discriminate |].
  intros _. destruct parts; reflexivity.
Qed.

Lemma join_app (sep : str) (a b : list str) :
  a <> [] -> b <> [] ->
  join sep (a ++ b) = join sep a ++ sep ++ join sep b.
Proof.
  intros Ha Hb. induction a as [|p a IH]; [congruence|].
  destruct a as [|q a].
  - cbn [app]. apply join_cons. exact Hb.
  - change ((p :: q :: a) ++ b) with (p :: (q :: a) ++ b).
    rewrite join_cons by discriminate.
    rewrite IH by discriminate.
    rewrite (join_cons sep p (q :: a)) by discriminate.
    rewrite <- !app_assoc. reflexivity.
Qed.

(** Joining the words of several lists is joining the joined lists, the
    empty ones left out. *)
Lemma join_concat (sep : str) (lists : list (list str)) :
  Forall (fun l => forallb truthy l = true) lists ->
  join sep (concat lists)
  = join sep (List.filter truthy (map (join sep) lists))
  /\ some_items (concat lists)
     = some_items (List.filter truthy (map (join sep) lists)).
Proof.
  induction 1 as [|l lists Hl _ [IHj IHt]]; [split; reflexivity|].
  cbn [concat map List.filter]. rewrite (join_truthy sep l Hl).
  destruct l as [|w l]; [split; assumption|].
  cbn [some_items]. split; [|reflexivity].
  destruct (concat lists) as [|x rest] eqn:Ec.
  - destruct (List.filter truthy (map (join sep) lists)); [|discriminate IHt].
    rewrite app_nil_r. reflexivity.
  - destruct (List.filter truthy (map (join sep) lists)) as [|y others] eqn:Ef;
      [discriminate IHt|].
    rewrite join_app by discriminate.
    rewrite (join_cons sep (join sep (w :: l)) (y :: others)) by discriminate.
    rewrite IHj. reflexivity.
Qed.

(** X26: pages.  [_extract_from_pdf] returns the cleaned texts of the
    pages joined by single spaces, the pages with nothing to keep left
    out; a page break separates words and leaves no other trace.  When
    loading fails the result is the empty text. *)
Theorem extract_from_pdf_pages (load : str -> exc (list str)) (file_path : str) :
  _extract_from_pdf load file_path
  = match load file_path with
    | Ok text_parts =>
        join (lit " ") (List.filter truthy (map _clean_text text_parts))
    | Raise _ => []
    end.
Proof.
  unfold _extract_from_pdf. destruct (load file_path) as [parts|e];
    [|reflexivity].
  rewrite <- (tidy_join _ (clean_text_tidy (join [LF] parts))).
  rewrite split_ws_clean_text, words_join_lines.
  assert (Hm : map _clean_text parts
               = map (join (lit " ")) (map words parts)).
  { rewrite map_map. apply map_ext. intros p.
    rewrite <- split_ws_clean_text.
    symmetry. apply tidy_join, clean_text_tidy. }
  rewrite Hm. apply join_concat.
  apply List.Forall_forall. intros l Hl. apply in_map_iff in Hl as (p & <- & _).
  apply words_truthy.
Qed.

(** ** Examples *)

Definition TAB : ascii := "009"%char.

Example clean_text_example :
  _clean_text (lit "  Invoice #12" ++ [CR; LF; LF] ++ lit "Total:" ++ [TAB]
               ++ lit "$5.00 *** (paid) ")
  = lit "Invoice 12 Total: $5.00 (paid)".
Proof. reflexivity. Qed.

Example clean_text_only_symbols :
  _clean_text (lit " #!? " ++ [LF] ++ lit "***") = [].
Proof. reflexivity. Qed.

End DocumentProcessorSpec.
